(** * crossbench: function-version resolution and caching

    A shallow embedding of [cmd/functions.go]: the version cache
    ([loadCache], [saveCache], [getCachedVersion], [setCachedVersion]),
    the name mapper ([mapFunctionNameToGitHubRepo], [getPackageRegistry]),
    the release client ([fetchLatestReleaseVersion]), the resolver
    ([inferPackageFromFunctionName]) and the pipeline walk
    ([ExtractFunctionsFromComposition]).

    Go strings are byte strings: they are [string] here, one [ascii] per
    byte.  Instants and durations are [Z], in nanoseconds.  The process
    environment, the clock, the file system and the GitHub API are the
    components of a [Host] (what the program can only read) and a [State]
    (what it changes); effectful functions live in the monad [M]. *)

From Stdlib Require Import ZArith String Ascii List Bool Lia.
From stdpp Require Import gmap strings list pretty.

Local Open Scope string_scope.
Local Open Scope Z_scope.

(** ** Package [strings] *)

Module strings.

Fixpoint HasPrefix (s prefix : string) {struct prefix} : bool :=
  match prefix, s with
  | EmptyString, _ => true
  | String _ _, EmptyString => false
  | String c p, String d s' => if Ascii.eqb c d then HasPrefix s' p else false
  end.

Fixpoint drop (n : nat) (s : string) : string :=
  match n, s with
  | O, _ => s
  | S _, EmptyString => EmptyString
  | S n', String _ s' => drop n' s'
  end.

Definition TrimPrefix (s prefix : string) : string :=
  if HasPrefix s prefix then drop (String.length prefix) s else s.

Fixpoint Contains (s substr : string) : bool :=
  if HasPrefix s substr then true
  else match s with
       | EmptyString => false
       | String _ s' => Contains s' substr
       end.

(** [Split s sep] for a separator of one byte, which is how the program
    calls it ([strings.Split(functions, ",")]): the fields between the
    separators, empty fields included, so that a string with [n]
    separators has [n + 1] fields. *)
Fixpoint Split (s : string) (sep : ascii) : list string :=
  match s with
  | EmptyString => [EmptyString]
  | String c s' =>
      if Ascii.eqb c sep then EmptyString :: Split s' sep
      else match Split s' sep with
           | [] => [String c EmptyString]
           | field :: fields => String c field :: fields
           end
  end.

Definition bytes (l : list nat) : string :=
  string_of_list_ascii (List.map ascii_of_nat l).

Definition rev (s : string) : string :=
  string_of_list_ascii (List.rev (list_ascii_of_string s)).

(** The six ASCII white-space bytes of [asciiSpace]. *)
Definition asciiSpace (c : ascii) : bool :=
  match nat_of_ascii c with
  | 9%nat | 10%nat | 11%nat | 12%nat | 13%nat | 32%nat => true
  | _ => false
  end.

(** The UTF-8 encodings of the other runes of [unicode.IsSpace]:
    U+0085, U+00A0, U+1680, U+2000..U+200A, U+2028, U+2029, U+202F,
    U+205F and U+3000.  Each is the shortest encoding of its rune, so a
    string starts (ends) with a white-space rune exactly when it starts
    (ends) with an ASCII space or with one of these byte sequences. *)
Definition unicodeSpace : list string :=
  List.map bytes
    [ [194; 133]; [194; 160]; [225; 154; 128];
      [226; 128; 128]; [226; 128; 129]; [226; 128; 130]; [226; 128; 131];
      [226; 128; 132]; [226; 128; 133]; [226; 128; 134]; [226; 128; 135];
      [226; 128; 136]; [226; 128; 137]; [226; 128; 138];
      [226; 128; 168]; [226; 128; 169]; [226; 128; 175];
      [226; 129; 159]; [227; 128; 128] ]%nat.

(** Width in bytes of the white-space rune [s] starts with; [0] if it
    starts with none.  [table] is [unicodeSpace], or its entries
    reversed when [s] is a reversed string. *)
Definition spaceWidth (table : list string) (s : string) : nat :=
  match s with
  | EmptyString => 0%nat
  | String c _ =>
      if asciiSpace c then 1%nat
      else match List.find (HasPrefix s) table with
           | Some enc => String.length enc
           | None => 0%nat
           end
  end.

Fixpoint trimLeft (table : list string) (fuel : nat) (s : string) : string :=
  match fuel with
  | O => s
  | S fuel' =>
      match spaceWidth table s with
      | O => s
      | w => trimLeft table fuel' (drop w s)
      end
  end.

Definition TrimLeftSpace (s : string) : string :=
  trimLeft unicodeSpace (String.length s) s.

Definition TrimRightSpace (s : string) : string :=
  rev (trimLeft (List.map rev unicodeSpace) (String.length s) (rev s)).

(** [TrimSpace]: all leading and trailing white space removed. *)
Definition TrimSpace (s : string) : string :=
  TrimRightSpace (TrimLeftSpace s).

End strings.

(** ** Errors

    Go's [error] values, as far as the program builds and inspects them.
    [fmt.Errorf] with a [%w] verb gives a [wrapError], whose message is
    the formatted text and whose cause [errors.Unwrap] returns; without
    [%w], and for the errors of the libraries (transport, JSON), the value
    is an [errorString].  [osError] is an error of the file system, with
    what [os.IsNotExist] answers for it. *)

Inductive error : Type :=
  | errorString (msg : string)
  | wrapError (msg : string) (cause : error)
  | RateLimitError (Message : string)
  | osError (notExist : bool) (msg : string).

Definition Error (e : error) : string :=
  match e with
  | errorString msg => msg
  | wrapError msg _ => msg
  | RateLimitError Message => Message
  | osError _ msg => msg
  end.

Definition os_IsNotExist (e : error) : bool :=
  match e with
  | osError notExist _ => notExist
  | _ => false
  end.

(** [errors.As(err, &rl)] for [rl] a [*RateLimitError]: the first
    [RateLimitError] on the [Unwrap] chain of [err]. *)
Fixpoint errors_As_RateLimitError (e : error) : option string :=
  match e with
  | RateLimitError Message => Some Message
  | wrapError _ cause => errors_As_RateLimitError cause
  | _ => None
  end.

(** A Go result pair [(value, error)] of which exactly one is set. *)
Inductive Res (A : Type) : Type :=
  | Ok (a : A)
  | Err (e : error).
Arguments Ok {A} a.
Arguments Err {A} e.

(** ** Data model *)

Record CacheEntry : Type := {
  Version : string;
  FetchedAt : Z
}.

Record FunctionVersionCache : Type := {
  Versions : gmap string CacheEntry
}.

Record GitHubRelease : Type := {
  TagName : string;
  ReleaseName : string
}.

Record ObjectMeta : Type := {
  Name : string;
  Namespace : string;
  Labels : list (string * string);
  Annotations : list (string * string)
}.

Definition SetName (om : ObjectMeta) (name : string) : ObjectMeta :=
  {| Name := name; Namespace := Namespace om;
     Labels := Labels om; Annotations := Annotations om |}.

Record PipelineStep : Type := {
  Step : string;
  FunctionRef_Name : string
}.

(** [Spec.Mode] is a string type in the Crossplane API;
    [CompositionModePipeline] is ["Pipeline"]. *)
Record Composition : Type := {
  comp_ObjectMeta : ObjectMeta;
  Spec_Mode : string;
  Spec_Pipeline : list PipelineStep
}.

Definition CompositionModePipeline : string := "Pipeline".

Record Function : Type := {
  fn_ObjectMeta : ObjectMeta;
  Spec_Package : string
}.

Definition GetName (fn : Function) : string := Name (fn_ObjectMeta fn).

(** ** The world around the program *)

Record Context : Type := { ctx_timeout : Z }.

Record Request : Type := {
  req_ctx : Context;
  req_method : string;
  req_url : string;
  req_Accept : string;
  req_Authorization : option string;
  req_Timeout : Z
}.

Inductive HttpOutcome : Type :=
  | DoError (msg : string)
  | Response (StatusCode : Z) (body : string).

Inductive FileNode : Type :=
  | File (data : string)
  | Unreadable (msg : string).

(** What the process reads and cannot change: its environment variables,
    the home directory ([None] when [os.UserHomeDir] fails), the output of
    [gh auth token] ([None] when the command fails), the readings of the
    clock in order, the answer of the API to the [i]-th request, and which
    directories can be made and which files written. *)
Record Host : Type := {
  h_env : gmap string string;
  h_home : option string;
  h_gh_token : option string;
  h_clock : nat -> Z;
  h_remote : nat -> Request -> HttpOutcome;
  h_mkdir_ok : string -> bool;
  h_write_ok : string -> bool
}.

(** The functions of the program whose calls the trace records: each of
    them notes its call when it is entered. *)
Inductive Call : Type :=
  | CallResolve (name : string)
  | CallLoadCache
  | CallGetCached (cacheKey : string)
  | CallSetCached (cacheKey version : string)
  | CallSaveCache
  | CallFetch (owner repo : string).

(** What the process changes: the files and directories of [fs], the
    heap of cache objects (a [*FunctionVersionCache] is an index into it),
    the number of clock readings and of requests made so far, the lines
    written to standard error, and the trace of calls, newest first.  The
    trace is a ghost: the program never reads it. *)
Record State : Type := {
  s_files : gmap string FileNode;
  s_dirs : gset string;
  s_heap : list FunctionVersionCache;
  s_ticks : nat;
  s_nreq : nat;
  s_stderr : list string;
  s_calls : list Call
}.

Definition set_files (f : gmap string FileNode) (s : State) : State :=
  {| s_files := f; s_dirs := s_dirs s; s_heap := s_heap s; s_ticks := s_ticks s;
     s_nreq := s_nreq s; s_stderr := s_stderr s; s_calls := s_calls s |}.

Definition set_dirs (d : gset string) (s : State) : State :=
  {| s_files := s_files s; s_dirs := d; s_heap := s_heap s; s_ticks := s_ticks s;
     s_nreq := s_nreq s; s_stderr := s_stderr s; s_calls := s_calls s |}.

Definition set_heap (hp : list FunctionVersionCache) (s : State) : State :=
  {| s_files := s_files s; s_dirs := s_dirs s; s_heap := hp; s_ticks := s_ticks s;
     s_nreq := s_nreq s; s_stderr := s_stderr s; s_calls := s_calls s |}.

Definition set_ticks (n : nat) (s : State) : State :=
  {| s_files := s_files s; s_dirs := s_dirs s; s_heap := s_heap s; s_ticks := n;
     s_nreq := s_nreq s; s_stderr := s_stderr s; s_calls := s_calls s |}.

Definition set_nreq (n : nat) (s : State) : State :=
  {| s_files := s_files s; s_dirs := s_dirs s; s_heap := s_heap s; s_ticks := s_ticks s;
     s_nreq := n; s_stderr := s_stderr s; s_calls := s_calls s |}.

Definition set_stderr (l : list string) (s : State) : State :=
  {| s_files := s_files s; s_dirs := s_dirs s; s_heap := s_heap s; s_ticks := s_ticks s;
     s_nreq := s_nreq s; s_stderr := l; s_calls := s_calls s |}.

Definition set_calls (l : list Call) (s : State) : State :=
  {| s_files := s_files s; s_dirs := s_dirs s; s_heap := s_heap s; s_ticks := s_ticks s;
     s_nreq := s_nreq s; s_stderr := s_stderr s; s_calls := l |}.

(** ** The monad of effects *)

Definition M (A : Type) : Type := Host -> State -> A * State.

Definition ret {A} (a : A) : M A := fun _ s => (a, s).

Definition bind {A B} (m : M A) (k : A -> M B) : M B :=
  fun h s => let '(a, s') := m h s in k a h s'.

Notation "x <- m ;; k" := (bind m (fun x => k))
  (at level 100, m at level 99, right associativity, only parsing).
Notation "m ;;; k" := (bind m (fun _ => k))
  (at level 100, right associativity, only parsing).

(** Reading the host. *)
Definition asks {A} (f : Host -> A) : M A := fun h s => (f h, s).

Definition note (c : Call) : M unit :=
  fun _ s => (tt, set_calls (c :: s_calls s) s).

(** [fmt.Fprintf(os.Stderr, ...)] *)
Definition eprint (line : string) : M unit :=
  fun _ s => (tt, set_stderr (s_stderr s ++ [line]) s).

(** ** Package [time] *)

Definition maxDuration : Z := 9223372036854775807.
Definition minDuration : Z := -9223372036854775808.
Definition Second : Z := 1000000000.
Definition Hour : Z := 3600 * Second.

(** [t.Sub(u)]: the difference, saturated to the range of a [Duration]. *)
Definition time_Sub (t u : Z) : Z :=
  Z.max minDuration (Z.min maxDuration (t - u)).

Definition time_Now : M Z :=
  fun h s => (h_clock h (s_ticks s), set_ticks (S (s_ticks s)) s).

Definition time_Since (t : Z) : M Z :=
  now <- time_Now;; ret (time_Sub now t).

(** ** [afero.Fs] *)

Definition fs_MkdirAll (path : string) : M (option error) :=
  fun h s =>
    if h_mkdir_ok h path then (None, set_dirs ({[ path ]} ∪ s_dirs s) s)
    else (Some (osError false ("mkdir " +:+ path +:+ ": permission denied")), s).

Definition afero_ReadFile (path : string) : M (Res string) :=
  fun _ s =>
    match s_files s !! path with
    | None => (Err (osError true ("open " +:+ path +:+ ": file does not exist")), s)
    | Some (Unreadable msg) => (Err (osError false msg), s)
    | Some (File data) => (Ok data, s)
    end.

(** A write that fails leaves the file as it was. *)
Definition afero_WriteFile (path data : string) : M (option error) :=
  fun h s =>
    if h_write_ok h path then (None, set_files (<[ path := File data ]> (s_files s)) s)
    else (Some (osError false ("open " +:+ path +:+ ": permission denied")), s).

(** ** Cache objects on the heap *)

Definition emptyCache : FunctionVersionCache := {| Versions := ∅ |}.

(** [&FunctionVersionCache{...}] *)
Definition new (c : FunctionVersionCache) : M nat :=
  fun _ s => (length (s_heap s), set_heap (s_heap s ++ [c]) s).

(** [*cache].  Every pointer of the program comes from [new], so the
    default is never taken. *)
Definition deref (p : nat) : M FunctionVersionCache :=
  fun _ s => (default emptyCache (s_heap s !! p), s).

Definition store (p : nat) (c : FunctionVersionCache) : M unit :=
  fun _ s => (tt, set_heap (<[ p := c ]> (s_heap s)) s).

(** ** Go's standard library

    The functions of the standard library the program calls and this
    development does not define: they are an interface, and every
    theorem holds for each implementation of it.  Where one of them
    fails, it fails with an error of its own package, which the program
    only reads the message of: an [errorString]. *)

Inductive LibRes (A : Type) : Type :=
  | Done (a : A)
  | Failed (msg : string).
Arguments Done {A} a.
Arguments Failed {A} msg.

Class GoLib : Type := {
  (** [time.ParseDuration]; [None] is an error. *)
  time_ParseDuration : string -> option Z;
  filepath_IsAbs : string -> bool;
  filepath_Join : string -> string -> string;
  (** [json.Unmarshal(data, &cache)]: [None] is an error, [Some None] a
      document that leaves [Versions] nil. *)
  json_Unmarshal : string -> option (option (gmap string CacheEntry));
  (** [json.MarshalIndent(cache, "", "  ")] *)
  json_MarshalIndent : FunctionVersionCache -> LibRes string;
  (** [json.NewDecoder(body).Decode(&release)] *)
  json_Decode : string -> LibRes GitHubRelease;
  (** [strconv.Quote], the [%q] verb of [fmt]. *)
  strconv_Quote : string -> string;
  (** [http.NewRequestWithContext]: [Some msg] when it refuses the URL. *)
  http_NewRequestWithContext : string -> string -> option string
}.

Notation "'let*' pat := m 'in' k" := (bind m (fun x => match x with pat => k end))
  (at level 100, pat pattern, m at level 99, right associativity, only parsing).

Definition nl : string := String (ascii_of_nat 10) EmptyString.

Section Program.

Context {lib : GoLib}.

(** ** Configuration, read from the environment *)

(** [os.Getenv]: the empty string for a variable that is not set. *)
Definition os_Getenv (h : Host) (key : string) : string :=
  default "" (h_env h !! key).

Definition getCacheExpiration (h : Host) : Z :=
  let val := os_Getenv h "CROSSBENCH_CACHE_EXPIRATION" in
  if negb (val =? "")%string then
    match time_ParseDuration val with
    | Some d => d
    | None => 24 * Hour
    end
  else 24 * Hour.

Definition getDefaultGitHubOwner (h : Host) : string :=
  let owner := os_Getenv h "CROSSBENCH_DEFAULT_GITHUB_OWNER" in
  if negb (owner =? "")%string then owner else "crossplane-contrib".

Definition getDefaultPackageRegistry (h : Host) : string :=
  let registry := os_Getenv h "CROSSBENCH_DEFAULT_PACKAGE_REGISTRY" in
  if negb (registry =? "")%string then registry else "xpkg.crossplane.io".

Definition getUpboundPackageRegistry (h : Host) : string :=
  let registry := os_Getenv h "CROSSBENCH_UPBOUND_PACKAGE_REGISTRY" in
  if negb (registry =? "")%string then registry else "xpkg.upbound.io".

Definition getUpboundFunctionNames (h : Host) : list string :=
  let functions := os_Getenv h "CROSSBENCH_UPBOUND_FUNCTIONS" in
  if negb (functions =? "")%string then strings.Split functions ","
  else ["function-unit-test"].

Definition getGitHubAPITimeout (h : Host) : Z :=
  let val := os_Getenv h "CROSSBENCH_GITHUB_API_TIMEOUT" in
  if negb (val =? "")%string then
    match time_ParseDuration val with
    | Some d => d
    | None => 10 * Second
    end
  else 10 * Second.

Definition getGitHubAPIURL (h : Host) : string :=
  let url := os_Getenv h "CROSSBENCH_GITHUB_API_URL" in
  if negb (url =? "")%string then url else "https://api.github.com".

(** [exec.Command("gh", "auth", "token").Output()] is [h_gh_token]. *)
Definition getGitHubToken (h : Host) : string :=
  let token := os_Getenv h "CROSSBENCH_GITHUB_TOKEN" in
  if negb (token =? "")%string then token
  else
    let token := os_Getenv h "GITHUB_TOKEN" in
    if negb (token =? "")%string then token
    else
      match h_gh_token h with
      | Some output =>
          if (0 <? String.length output)%nat then
            let token := strings.TrimSpace output in
            if negb (token =? "")%string then token else ""
          else ""
      | None => ""
      end.

(** ** NameMapper *)

Definition mapFunctionNameToGitHubRepo (h : Host) (functionName : string)
  : string * string * option error :=
  let owner := getDefaultGitHubOwner h in
  let repo := functionName in
  let repo :=
    if strings.HasPrefix repo "crossplane-contrib-function-" then
      let repo := strings.TrimPrefix repo "crossplane-contrib-function-" in
      "function-" +:+ repo
    else if strings.HasPrefix repo "function-" then repo
    else "function-" +:+ repo in
  (owner, repo, None).

(** The [for ... range upboundFunctions] loop of [getPackageRegistry]. *)
Fixpoint registryLoop (h : Host) (upboundFunctions : list string)
  (functionName : string) : string :=
  match upboundFunctions with
  | [] => getDefaultPackageRegistry h
  | fn :: rest =>
      if (strings.TrimSpace fn =? functionName)%string
      then getUpboundPackageRegistry h
      else registryLoop h rest functionName
  end.

Definition getPackageRegistry (h : Host) (functionName : string) : string :=
  let upboundFunctions := getUpboundFunctionNames h in
  registryLoop h upboundFunctions functionName.

(** ** VersionCache *)

Definition getCachePath : M (string * option error) :=
  cacheDirName <- asks (fun h => os_Getenv h "CROSSBENCH_CACHE_DIR");;
  let cacheDirName := if (cacheDirName =? "")%string then ".crossbench" else cacheDirName in
  cacheFileName <- asks (fun h => os_Getenv h "CROSSBENCH_CACHE_FILENAME");;
  let cacheFileName :=
    if (cacheFileName =? "")%string then "function-versions.json" else cacheFileName in
  home <- asks h_home;;
  match home with
  | None => ret (".crossbench-cache.json", None)
  | Some homeDir =>
      let cacheDir :=
        if filepath_IsAbs cacheDirName then cacheDirName
        else filepath_Join homeDir cacheDirName in
      err <- fs_MkdirAll cacheDir;;
      match err with
      | Some _ => ret (".crossbench-cache.json", None)
      | None => ret (filepath_Join cacheDir cacheFileName, None)
      end
  end.

Definition loadCache : M (Res nat) :=
  note CallLoadCache;;;
  let* (cachePath, err) := getCachePath in
  match err with
  | Some _ => cache <- new emptyCache;; ret (Ok cache)
  | None =>
      r <- afero_ReadFile cachePath;;
      match r with
      | Err err =>
          if os_IsNotExist err then cache <- new emptyCache;; ret (Ok cache)
          else ret (Err (wrapError ("failed to read cache file: " +:+ Error err) err))
      | Ok data =>
          match json_Unmarshal data with
          | None => cache <- new emptyCache;; ret (Ok cache)
          | Some versions =>
              cache <- new {| Versions := default ∅ versions |};; ret (Ok cache)
          end
      end
  end.

Definition saveCache (cache : nat) : M (option error) :=
  note CallSaveCache;;;
  let* (cachePath, err) := getCachePath in
  match err with
  | Some err => ret (Some err)
  | None =>
      c <- deref cache;;
      match json_MarshalIndent c with
      | Failed msg =>
          ret (Some (wrapError ("failed to marshal cache: " +:+ msg) (errorString msg)))
      | Done data =>
          err <- afero_WriteFile cachePath data;;
          match err with
          | Some err =>
              ret (Some (wrapError ("failed to write cache file: " +:+ Error err) err))
          | None => ret None
          end
      end
  end.

Definition getCachedVersion (cache : nat) (cacheKey : string) : M (string * bool) :=
  note (CallGetCached cacheKey);;;
  c <- deref cache;;
  match Versions c !! cacheKey with
  | None => ret ("", false)
  | Some entry =>
      age <- time_Since (FetchedAt entry);;
      expiration <- asks getCacheExpiration;;
      if age >? expiration then ret ("", false)
      else ret (Version entry, true)
  end.

Definition setCachedVersion (cache : nat) (cacheKey version : string) : M unit :=
  note (CallSetCached cacheKey version);;;
  c <- deref cache;;
  now <- time_Now;;
  store cache
    {| Versions := <[ cacheKey := {| Version := version; FetchedAt := now |} ]> (Versions c) |}.

(** ** RemoteVersionClient *)

Definition http_Do (req : Request) : M HttpOutcome :=
  fun h s => (h_remote h (s_nreq s) req, set_nreq (S (s_nreq s)) s).

Definition statusError (StatusCode : Z) (body : string) : error :=
  errorString ("GitHub API returned status " +:+ pretty StatusCode +:+ ": " +:+ body).

Definition fetchLatestReleaseVersion (ctx : Context) (owner repo : string)
  : M (Res string) :=
  note (CallFetch owner repo);;;
  baseURL <- asks getGitHubAPIURL;;
  let url := baseURL +:+ "/repos/" +:+ owner +:+ "/" +:+ repo +:+ "/releases/latest" in
  match http_NewRequestWithContext "GET" url with
  | Some msg =>
      ret (Err (wrapError ("failed to create request: " +:+ msg) (errorString msg)))
  | None =>
      token <- asks getGitHubToken;;
      timeout <- asks getGitHubAPITimeout;;
      let req :=
        {| req_ctx := ctx; req_method := "GET"; req_url := url;
           req_Accept := "application/vnd.github.v3+json";
           req_Authorization :=
             if negb (token =? "")%string then Some ("Bearer " +:+ token) else None;
           req_Timeout := timeout |} in
      resp <- http_Do req;;
      match resp with
      | DoError msg =>
          ret (Err (wrapError ("failed to fetch release: " +:+ msg) (errorString msg)))
      | Response StatusCode body =>
          if StatusCode =? 403 then
            if strings.Contains body "rate limit" || strings.Contains body "API rate limit"
            then ret (Err (RateLimitError ("GitHub API rate limit exceeded: " +:+ body)))
            else ret (Err (statusError StatusCode body))
          else if negb (StatusCode =? 200) then ret (Err (statusError StatusCode body))
          else
            match json_Decode body with
            | Failed msg =>
                ret (Err (wrapError ("failed to decode response: " +:+ msg)
                            (errorString msg)))
            | Done release =>
                if (TagName release =? "")%string
                then ret (Err (errorString "no tag name found in release"))
                else ret (Ok (TagName release))
            end
      end
  end.

(** ** VersionResolver *)

(** The [else] branch of the cache check: fetch, and on failure fall
    back to whatever entry the store has when the failure is a rate
    limit. *)
Definition fetchOrFallback (ctx : Context) (owner repo cacheKey cachePath : string)
  (cache : nat) : M (Res string) :=
  r <- fetchLatestReleaseVersion ctx owner repo;;
  match r with
  | Err err =>
      match err with
      | RateLimitError _ =>
          c <- deref cache;;
          match Versions c !! cacheKey with
          | Some staleEntry =>
              let version := Version staleEntry in
              eprint ("WARN: Received rate limit from GitHub for " +:+ cacheKey
                      +:+ ", falling back to cached version " +:+ version
                      +:+ " from " +:+ cachePath +:+ nl);;;
              ret (Ok version)
          | None =>
              ret (Err (wrapError
                ("cannot fetch latest version for " +:+ owner +:+ "/" +:+ repo +:+ ": "
                 +:+ Error err +:+ " (no cached version available)") err))
          end
      | _ =>
          ret (Err (wrapError
            ("cannot fetch latest version for " +:+ owner +:+ "/" +:+ repo +:+ ": "
             +:+ Error err) err))
      end
  | Ok version =>
      setCachedVersion cache cacheKey version;;;
      err <- saveCache cache;;
      match err with
      | Some err =>
          eprint ("WARN: Failed to save cache to " +:+ cachePath +:+ ": "
                  +:+ Error err +:+ nl)
      | None => ret tt
      end;;;
      ret (Ok version)
  end.

(** The store a resolution works on: the one [loadCache] returns, or a
    new empty one when loading fails ("continue without cache"). *)
Definition loadCacheOrEmpty : M nat :=
  r <- loadCache;;
  match r with
  | Ok cache => ret cache
  | Err _ => new emptyCache
  end.

Definition inferPackageFromFunctionName (ctx : Context) (name : string)
  (forceRefresh : bool) : M (Res string) :=
  note (CallResolve name);;;
  if (String.length name =? 0)%nat then
    ret (Err (errorString "function name cannot be empty"))
  else if strings.Contains name "/" || strings.Contains name ":" then ret (Ok name)
  else
    let* (owner, repo, err) := asks (fun h => mapFunctionNameToGitHubRepo h name) in
    match err with
    | Some err =>
        ret (Err (wrapError
          ("cannot map function name to GitHub repository: " +:+ Error err) err))
    | None =>
        let cacheKey := owner +:+ "/" +:+ repo in
        cache <- loadCacheOrEmpty;;
        let* (cachePath, _) := getCachePath in
        let* (version, found) := getCachedVersion cache cacheKey in
        r <- (if found && negb forceRefresh then
                eprint ("INFO: Using cached function version " +:+ cacheKey +:+ ":"
                        +:+ version +:+ " from " +:+ cachePath +:+ nl);;;
                ret (Ok version)
              else fetchOrFallback ctx owner repo cacheKey cachePath cache);;
        match r with
        | Err err => ret (Err err)
        | Ok version =>
            registry <- asks (fun h => getPackageRegistry h name);;
            ret (Ok (registry +:+ "/" +:+ owner +:+ "/" +:+ repo +:+ ":" +:+ version))
        end
    end.

(** ** CompositionFunctionExtractor *)

(** The [for ... range comp.Spec.Pipeline] loop, with its two
    variables: [functionMap] and [functions]. *)
Fixpoint extractLoop (ctx : Context) (meta : ObjectMeta) (forceRefresh : bool)
  (pipeline : list PipelineStep) (functionMap : gmap string bool)
  (functions : list Function) : M (Res (list Function)) :=
  match pipeline with
  | [] => ret (Ok functions)
  | step :: rest =>
      let functionName := FunctionRef_Name step in
      if (functionName =? "")%string then
        extractLoop ctx meta forceRefresh rest functionMap functions
      else if default false (functionMap !! functionName) then
        extractLoop ctx meta forceRefresh rest functionMap functions
      else
        let functionMap := <[ functionName := true ]> functionMap in
        r <- inferPackageFromFunctionName ctx functionName forceRefresh;;
        match r with
        | Err err =>
            ret (Err (wrapError
              ("cannot determine package for function " +:+ strconv_Quote functionName
               +:+ ": " +:+ Error err) err))
        | Ok packageName =>
            let fn := {| fn_ObjectMeta := SetName meta functionName;
                         Spec_Package := packageName |} in
            extractLoop ctx meta forceRefresh rest functionMap (functions ++ [fn])
        end
  end.

Definition ExtractFunctionsFromComposition (comp : Composition) (forceRefresh : bool)
  : M (Res (list Function)) :=
  if negb (Spec_Mode comp =? CompositionModePipeline)%string then
    ret (Err (errorString "composition must use Pipeline mode to extract functions"))
  else if (length (Spec_Pipeline comp) =? 0)%nat then
    ret (Err (errorString "composition pipeline is empty"))
  else
    timeout <- asks getGitHubAPITimeout;;
    let ctx := {| ctx_timeout := timeout |} in
    r <- extractLoop ctx (comp_ObjectMeta comp) forceRefresh (Spec_Pipeline comp) ∅ [];;
    match r with
    | Err err => ret (Err err)
    | Ok functions =>
        if (length functions =? 0)%nat then
          ret (Err (errorString "no function references found in composition pipeline"))
        else ret (Ok functions)
    end.

End Program.

(** ** A sample library and sample hosts

    A small implementation of [GoLib] and a few hosts and states, on which
    the program is run in the examples below. *)

Module Sample.

Definition quote : string := String (ascii_of_nat 34) EmptyString.

Definition entry (version : string) (fetchedAt : Z) : CacheEntry :=
  {| Version := version; FetchedAt := fetchedAt |}.

(** The one well-formed cache document of the sample decoder, and the
    store it decodes to. *)
Definition doc : string := "{versions: {crossplane-contrib/function-unit-test: v0.1.0 @ 1000}}".

Definition docStore : gmap string CacheEntry :=
  {[ "crossplane-contrib/function-unit-test" := entry "v0.1.0" 1000 ]}.

#[global] Instance lib : GoLib := {|
  time_ParseDuration d :=
    if (d =? "1h")%string then Some Hour
    else if (d =? "1ns")%string then Some 1
    else if (d =? "-1h")%string then Some (- Hour)
    else None;
  filepath_IsAbs p := strings.HasPrefix p "/";
  filepath_Join a b := a +:+ "/" +:+ b;
  json_Unmarshal data :=
    if (data =? doc)%string then Some (Some docStore)
    else if (data =? "{}")%string then Some None
    else None;
  json_MarshalIndent c := Done "{versions: ...}";
  json_Decode body :=
    if strings.HasPrefix body "v" then Done {| TagName := body; ReleaseName := body |}
    else Failed "invalid character";
  strconv_Quote s := quote +:+ s +:+ quote;
  http_NewRequestWithContext _ _ := None
|}.

Definition cachePath : string := "/home/dev/.crossbench/function-versions.json".

(** A host with the default configuration, whose clock stands at [now]
    and whose API answers every request with [answer]. *)
Definition host (now : Z) (answer : HttpOutcome) : Host :=
  {| h_env := ∅; h_home := Some "/home/dev"; h_gh_token := None;
     h_clock := fun _ => now; h_remote := fun _ _ => answer;
     h_mkdir_ok := fun _ => true; h_write_ok := fun _ => true |}.

Definition rateLimited : HttpOutcome :=
  Response 403 "API rate limit exceeded for 203.0.113.7".

Definition released (tag : string) : HttpOutcome := Response 200 tag.

(** A state whose cache file is [node], if any. *)
Definition state (node : option FileNode) : State :=
  {| s_files := match node with
                | Some n => {[ cachePath := n ]}
                | None => ∅
                end;
     s_dirs := ∅; s_heap := []; s_ticks := 0; s_nreq := 0;
     s_stderr := []; s_calls := [] |}.

Definition ctx : Context := {| ctx_timeout := 10 * Second |}.

Definition meta : ObjectMeta :=
  {| Name := "example"; Namespace := ""; Labels := []; Annotations := [] |}.

(** A composition in pipeline mode whose steps refer to [refs]. *)
Definition composition (refs : list string) : Composition :=
  {| comp_ObjectMeta := meta;
     Spec_Mode := "Pipeline";
     Spec_Pipeline :=
       List.map (fun ref => {| Step := "step-" +:+ ref; FunctionRef_Name := ref |}) refs |}.

Definition descriptor (name package : string) : Function :=
  {| fn_ObjectMeta := SetName meta name; Spec_Package := package |}.

End Sample.

(** ** The vocabulary of the properties *)

(** A computation respects a relation between states when every run of
    it relates the state before to the state after. *)
Definition respects (R : State -> State -> Prop) {A} (m : M A) : Prop :=
  forall h s, R s (snd (m h s)).

(** Files and heap left as they are. *)
Definition unchanged (s s' : State) : Prop :=
  s_files s' = s_files s /\ s_heap s' = s_heap s.

(** Files left as they are. *)
Definition same_files (s s' : State) : Prop := s_files s' = s_files s.

(** No request made. *)
Definition same_nreq (s s' : State) : Prop := s_nreq s' = s_nreq s.

Definition isResolve (c : Call) : bool :=
  match c with
  | CallResolve _ => true
  | _ => false
  end.

(** The trace only grows, and by no call of the resolver. *)
Definition quiet (s s' : State) : Prop :=
  exists d, s_calls s' = (d ++ s_calls s)%list /\ Forall (fun c => isResolve c = false) d.

(** What the store decoded from a readable file holds: the decoded
    mapping, and nothing when the document is malformed or leaves
    [versions] out. *)
Definition decoded {lib : GoLib} (data : string) : FunctionVersionCache :=
  match json_Unmarshal data with
  | Some versions => {| Versions := default ∅ versions |}
  | None => emptyCache
  end.

(** The names the steps refer to, in order, without the empty ones. *)
Definition stepNames (pipeline : list PipelineStep) : list string :=
  List.filter (fun n => negb (n =? "")%string) (List.map FunctionRef_Name pipeline).

(** One step of "first seen": a name not seen before goes to the end. *)
Definition seeName (seen : list string) (n : string) : list string :=
  if existsb (String.eqb n) seen then seen else (seen ++ [n])%list.

(** The distinct names of a list in the order of their first
    occurrence. *)
Definition firstSeen (names : list string) : list string :=
  fold_left seeName names [].

(** The names the resolver was called with, oldest call first, in a
    trace that has the newest call first. *)
Fixpoint resolvedNames (calls : list Call) : list string :=
  match calls with
  | [] => []
  | CallResolve n :: rest => (resolvedNames rest ++ [n])%list
  | _ :: rest => resolvedNames rest
  end.

(** [functionMap] marks exactly the names seen so far. *)
Definition tracks (functionMap : gmap string bool) (seen : list string) : Prop :=
  forall n, default false (functionMap !! n) = true <-> In n seen.

(** Files, clock, requests and standard error left as they are. *)
Definition calm (s s' : State) : Prop :=
  s_files s' = s_files s /\ s_ticks s' = s_ticks s
  /\ s_nreq s' = s_nreq s /\ s_stderr s' = s_stderr s.

(** The store has an entry under the key that is no older than the TTL
    at the instant [now]. *)
Definition fresh {lib : GoLib} (h : Host) (now : Z) (c : FunctionVersionCache)
  (cacheKey : string) : Prop :=
  exists entry, Versions c !! cacheKey = Some entry
    /\ time_Sub now (FetchedAt entry) <= getCacheExpiration h.

(** The package coordinate of a resolution. *)
Definition coordinate {lib : GoLib} (h : Host) (name version : string) : string :=
  getPackageRegistry h name +:+ "/" +:+ getDefaultGitHubOwner h +:+ "/"
  +:+ snd (fst (mapFunctionNameToGitHubRepo h name)) +:+ ":" +:+ version.

(** The key of a name in the cache. *)
Definition keyOf {lib : GoLib} (h : Host) (name : string) : string :=
  getDefaultGitHubOwner h +:+ "/" +:+ snd (fst (mapFunctionNameToGitHubRepo h name)).

(** The store a resolution starts from: what the cache file decodes to,
    and an empty store when the file is missing or cannot be read. *)
Definition onDisk {lib : GoLib} (h : Host) (s : State) : FunctionVersionCache :=
  match s_files s !! fst (fst (getCachePath h s)) with
  | Some (File data) => decoded data
  | _ => emptyCache
  end.

(** What every descriptor of the walk satisfies: the metadata of the
    composition with the name replaced, and a package that is a
    coordinate. *)
Definition wellFormed (meta : ObjectMeta) (fn : Function) : Prop :=
  fn_ObjectMeta fn = SetName meta (GetName fn)
  /\ GetName fn <> ""
  /\ strings.Contains (Spec_Package fn) "/" || strings.Contains (Spec_Package fn) ":"
     = true.

#[global] Instance CacheEntry_eq_dec : EqDecision CacheEntry.
Proof. solve_decision. Defined.

(** A second sample library, whose encoder and decoder agree on the
    sample store: it is [Sample.lib] but for [json_MarshalIndent]. *)
Module RoundTrip.

Definition lib : GoLib := {|
  time_ParseDuration := @time_ParseDuration Sample.lib;
  filepath_IsAbs := @filepath_IsAbs Sample.lib;
  filepath_Join := @filepath_Join Sample.lib;
  json_Unmarshal := @json_Unmarshal Sample.lib;
  json_MarshalIndent c :=
    if decide (Versions c = Sample.docStore) then Done Sample.doc else Done "{}";
  json_Decode := @json_Decode Sample.lib;
  strconv_Quote := @strconv_Quote Sample.lib;
  http_NewRequestWithContext := @http_NewRequestWithContext Sample.lib
|}.

End RoundTrip.

(** Visible ASCII: the bytes 33 to 126. *)
Definition visible (c : ascii) : bool :=
  (32 <? nat_of_ascii c)%nat && (nat_of_ascii c <? 127)%nat.

(** A name that is not empty and is made of visible ASCII bytes only. *)
Definition visibleName (name : string) : bool :=
  negb (name =? "")%string && forallb visible (list_ascii_of_string name).

(** A string of ASCII white space. *)
Definition blank (pad : string) : bool :=
  forallb strings.asciiSpace (list_ascii_of_string pad).

Definition noComma (field : string) : bool :=
  forallb (fun c => negb (Ascii.eqb c ",")) (list_ascii_of_string field).

(** ** [renderCmd.run] in [cmd/render.go]: two of its loops

    [run] is a sequence of calls into the Crossplane packages around
    two loops of its own, which are modelled here.  Go visits a map in
    an order that it does not fix: each loop takes the entries of its
    map as the list in which the [range] happens to visit them. *)

(** The labels of a composition, as the map they are. *)
Definition compLabels (comp : Composition) : gmap string string :=
  list_to_map (Labels (comp_ObjectMeta comp)).

(** The loop over [xrSelector.MatchLabels]: the first label that the
    composition lacks, or has with another value, ends [run] with an
    error. *)
Fixpoint checkMatchLabels {lib : GoLib} (comp : Composition)
  (matchLabels : list (string * string)) : option error :=
  match matchLabels with
  | [] => None
  | (key, value) :: rest =>
      match compLabels comp !! key with
      | None =>
          Some (errorString
            ("composition " +:+ strconv_Quote (Name (comp_ObjectMeta comp))
             +:+ " is missing required label " +:+ strconv_Quote key))
      | Some compValue =>
          if negb (compValue =? value)%string then
            Some (errorString
              ("composition " +:+ strconv_Quote (Name (comp_ObjectMeta comp))
               +:+ " has incorrect value for label " +:+ strconv_Quote key
               +:+ ": want " +:+ strconv_Quote value
               +:+ ", got " +:+ strconv_Quote compValue))
          else checkMatchLabels comp rest
      end
  end.

(** The loop over [c.contextFiles]. *)
Fixpoint readContextFiles {lib : GoLib} (contextFiles : list (string * string))
  (fctx : gmap string string) : M (Res (gmap string string)) :=
  match contextFiles with
  | [] => ret (Ok fctx)
  | (k, filename) :: rest =>
      r <- afero_ReadFile filename;;
      match r with
      | Err err =>
          ret (Err (wrapError ("cannot read context value for key " +:+ strconv_Quote k
                               +:+ ": " +:+ Error err) err))
      | Ok v => readContextFiles rest (<[ k := v ]> fctx)
      end
  end.

(** The loop over [c.contextValues]. *)
Fixpoint addContextValues (contextValues : list (string * string))
  (fctx : gmap string string) : gmap string string :=
  match contextValues with
  | [] => fctx
  | (k, v) :: rest => addContextValues rest (<[ k := v ]> fctx)
  end.

(** [fctx], as [run] builds it before it calls [render.Render]. *)
Definition buildContext {lib : GoLib} (contextFiles contextValues : list (string * string))
  : M (Res (gmap string string)) :=
  r <- readContextFiles contextFiles ∅;;
  match r with
  | Err err => ret (Err err)
  | Ok fctx => ret (Ok (addContextValues contextValues fctx))
  end.

(** A host like [Sample.host] with the environment [env], whose clock
    advances: its [i]-th reading is [start + i * step]. *)
Definition tickingHost (env : gmap string string) (start step : Z)
  (answer : HttpOutcome) : Host :=
  {| h_env := env; h_home := Some "/home/dev"; h_gh_token := None;
     h_clock := fun i => start + Z.of_nat i * step; h_remote := fun _ _ => answer;
     h_mkdir_ok := fun _ => true; h_write_ok := fun _ => true |}.

(** The reading of the clock that a resolution of [name] started in [s]
    stores as fetch time when it fetches: the first one, or the second
    when the store has an entry under the key, whose age the cache check
    has then computed with the first. *)
Definition fetchReading {lib : GoLib} (h : Host) (s : State) (name : string) : nat :=
  match Versions (onDisk h s) !! keyOf h name with
  | Some _ => S (s_ticks s)
  | None => s_ticks s
  end.

(** * Properties *)

(** ** Strings *)

Example Split_fields :
  strings.Split "function-a, function-b,,c" "," =
  ["function-a"; " function-b"; ""; "c"].
Proof. reflexivity. Qed.

Example TrimSpace_ascii :
  strings.TrimSpace (String (ascii_of_nat 9) "  function-a b  " +:+ strings.bytes [10; 194; 160]%nat)
  = "function-a b".
Proof. vm_compute. reflexivity. Qed.

Example TrimSpace_blank : strings.TrimSpace "   " = "".
Proof. vm_compute. reflexivity. Qed.

Lemma HasPrefix_app (p s : string) : strings.HasPrefix (p +:+ s) p = true.
Proof.
  induction p as [|c p IH]; simpl; [reflexivity|].
  rewrite Ascii.eqb_refl. exact IH.
Qed.

Lemma drop_app (p s : string) : strings.drop (String.length p) (p +:+ s) = s.
Proof. induction p as [|c p IH]; simpl; [destruct s; reflexivity | exact IH]. Qed.

Lemma TrimPrefix_app (p s : string) : strings.TrimPrefix (p +:+ s) p = s.
Proof. unfold strings.TrimPrefix. rewrite HasPrefix_app. apply drop_app. Qed.

Lemma HasPrefix_inv (s p : string) :
  strings.HasPrefix s p = true -> exists rest, s = p +:+ rest.
Proof.
  revert s. induction p as [|c p IH]; intros s H; simpl in *.
  - exists s. reflexivity.
  - destruct s as [|d s]; [discriminate|].
    destruct (Ascii.eqb c d) eqn:E; [|discriminate].
    apply Ascii.eqb_eq in E. subst d.
    destruct (IH _ H) as [rest ->]. exists rest. reflexivity.
Qed.

Lemma Contains_nonempty (s sub : string) :
  sub <> "" -> strings.Contains s sub = true -> s <> "".
Proof.
  intros Hsub H ->. destruct sub; [congruence|]. simpl in H. discriminate.
Qed.

Lemma length_eqb_0 (s : string) : s <> "" -> (String.length s =? 0)%nat = false.
Proof. destruct s; [congruence | reflexivity]. Qed.

(** ** C6: name mapping *)

Section NameMapper.

Context {lib : GoLib}.

(** C6.  Mapping a function name to a repository never fails; the owner
    is the configured default owner, ["crossplane-contrib"] when none is
    configured; a name ["crossplane-contrib-function-" ++ base] maps to
    ["function-" ++ base], a name that starts with ["function-"] maps to
    itself, and any other name [n] maps to ["function-" ++ n].  So
    ["crossplane-contrib-function-foo"], ["function-bar"] and ["baz"] map
    to ["function-foo"], ["function-bar"] and ["function-baz"]. *)
Theorem name_mapping_cases (h : Host) (functionName : string) :
  exists repo,
    mapFunctionNameToGitHubRepo h functionName
      = (getDefaultGitHubOwner h, repo, None)
    /\ (h_env h !! "CROSSBENCH_DEFAULT_GITHUB_OWNER" = None ->
        getDefaultGitHubOwner h = "crossplane-contrib")
    /\ (forall base, functionName = "crossplane-contrib-function-" +:+ base ->
        repo = "function-" +:+ base)
    /\ (strings.HasPrefix functionName "function-" = true -> repo = functionName)
    /\ (strings.HasPrefix functionName "crossplane-contrib-function-" = false ->
        strings.HasPrefix functionName "function-" = false ->
        repo = "function-" +:+ functionName)
    /\ mapFunctionNameToGitHubRepo h "crossplane-contrib-function-foo"
         = (getDefaultGitHubOwner h, "function-foo", None)
    /\ mapFunctionNameToGitHubRepo h "function-bar"
         = (getDefaultGitHubOwner h, "function-bar", None)
    /\ mapFunctionNameToGitHubRepo h "baz"
         = (getDefaultGitHubOwner h, "function-baz", None).
Proof.
  unfold mapFunctionNameToGitHubRepo.
  eexists. split; [reflexivity|].
  split.
  { intros Hnone. unfold getDefaultGitHubOwner, os_Getenv. rewrite Hnone. reflexivity. }
  split.
  { intros base ->. rewrite HasPrefix_app, TrimPrefix_app. reflexivity. }
  split.
  { intros Hp.
    destruct (strings.HasPrefix functionName "crossplane-contrib-function-") eqn:E.
    - apply HasPrefix_inv in E. destruct E as [rest ->]. discriminate Hp.
    - rewrite Hp. reflexivity. }
  split.
  { intros -> ->. reflexivity. }
  repeat split.
Qed.

End NameMapper.

(** ** Frames

    For a reflexive and transitive relation, [respects] is kept by [ret]
    and [bind], so that what each function of the program leaves alone is
    read off its code. *)

Section Respects.

Variable R : State -> State -> Prop.
Hypothesis R_refl : forall s, R s s.
Hypothesis R_trans : forall s1 s2 s3, R s1 s2 -> R s2 s3 -> R s1 s3.

Lemma respects_run {A} (m : M A) h s a s' :
  respects R m -> m h s = (a, s') -> R s s'.
Proof. intros Hm E. specialize (Hm h s). rewrite E in Hm. exact Hm. Qed.

Lemma respects_ret {A} (a : A) : respects R (ret a).
Proof. intros h s. apply R_refl. Qed.

Lemma respects_asks {A} (f : Host -> A) : respects R (asks f).
Proof. intros h s. apply R_refl. Qed.

Lemma respects_bind {A B} (m : M A) (k : A -> M B) :
  respects R m -> (forall a, respects R (k a)) -> respects R (bind m k).
Proof.
  intros Hm Hk h s. unfold bind.
  destruct (m h s) as [a s1] eqn:E.
  apply R_trans with s1.
  - eapply respects_run; eassumption.
  - apply Hk.
Qed.

End Respects.

Create HintDb frame.

(** Walks down a computation built from [bind], [ret], [asks], matches
    and computations already known to respect the relation. *)
Ltac respects_tac refl trans :=
  repeat first
    [ solve [ auto with frame ]
    | apply (respects_ret _ refl)
    | apply (respects_asks _ refl)
    | apply (respects_bind _ trans); [| intros ? ]
    | match goal with
      | |- respects _ (match ?x with _ => _ end) => destruct x
      end ].

(** *** Files and heap left as they are *)

Lemma unchanged_refl s : unchanged s s.
Proof. split; reflexivity. Qed.

Lemma unchanged_trans s1 s2 s3 : unchanged s1 s2 -> unchanged s2 s3 -> unchanged s1 s3.
Proof. intros [? ?] [? ?]. split; congruence. Qed.

Lemma unchanged_note c : respects unchanged (note c).
Proof. intros h s. split; reflexivity. Qed.

Lemma unchanged_eprint l : respects unchanged (eprint l).
Proof. intros h s. split; reflexivity. Qed.

Lemma unchanged_time_Now : respects unchanged time_Now.
Proof. intros h s. split; reflexivity. Qed.

Lemma unchanged_deref p : respects unchanged (deref p).
Proof. intros h s. split; reflexivity. Qed.

Lemma unchanged_MkdirAll p : respects unchanged (fs_MkdirAll p).
Proof. intros h s. unfold fs_MkdirAll. destruct (h_mkdir_ok h p); split; reflexivity. Qed.

Lemma unchanged_ReadFile p : respects unchanged (afero_ReadFile p).
Proof.
  intros h s. unfold afero_ReadFile.
  destruct (s_files s !! p) as [[?|?]|]; split; reflexivity.
Qed.

#[global] Hint Resolve unchanged_note unchanged_eprint unchanged_time_Now
  unchanged_deref unchanged_MkdirAll unchanged_ReadFile : frame.

Ltac unchanged_tac := respects_tac unchanged_refl unchanged_trans.

(** *** Files left as they are *)

Lemma same_files_refl s : same_files s s.
Proof. reflexivity. Qed.

Lemma same_files_trans s1 s2 s3 : same_files s1 s2 -> same_files s2 s3 -> same_files s1 s3.
Proof. unfold same_files. congruence. Qed.

Lemma unchanged_same_files {A} (m : M A) : respects unchanged m -> respects same_files m.
Proof. intros H h s. apply H. Qed.

Lemma same_files_new c : respects same_files (new c).
Proof. intros h s. reflexivity. Qed.

#[global] Hint Resolve same_files_new : frame.

Ltac same_files_tac := respects_tac same_files_refl same_files_trans.

(** *** No request made *)

Lemma same_nreq_refl s : same_nreq s s.
Proof. reflexivity. Qed.

Lemma same_nreq_trans s1 s2 s3 : same_nreq s1 s2 -> same_nreq s2 s3 -> same_nreq s1 s3.
Proof. unfold same_nreq. congruence. Qed.

Lemma same_nreq_note c : respects same_nreq (note c).
Proof. intros h s. reflexivity. Qed.

Lemma same_nreq_eprint l : respects same_nreq (eprint l).
Proof. intros h s. reflexivity. Qed.

Lemma same_nreq_time_Now : respects same_nreq time_Now.
Proof. intros h s. reflexivity. Qed.

Lemma same_nreq_deref p : respects same_nreq (deref p).
Proof. intros h s. reflexivity. Qed.

Lemma same_nreq_store p c : respects same_nreq (store p c).
Proof. intros h s. reflexivity. Qed.

Lemma same_nreq_new c : respects same_nreq (new c).
Proof. intros h s. reflexivity. Qed.

Lemma same_nreq_MkdirAll p : respects same_nreq (fs_MkdirAll p).
Proof. intros h s. unfold fs_MkdirAll. destruct (h_mkdir_ok h p); reflexivity. Qed.

Lemma same_nreq_ReadFile p : respects same_nreq (afero_ReadFile p).
Proof.
  intros h s. unfold afero_ReadFile.
  destruct (s_files s !! p) as [[?|?]|]; reflexivity.
Qed.

Lemma same_nreq_WriteFile p data : respects same_nreq (afero_WriteFile p data).
Proof. intros h s. unfold afero_WriteFile. destruct (h_write_ok h p); reflexivity. Qed.

#[global] Hint Resolve same_nreq_note same_nreq_eprint same_nreq_time_Now
  same_nreq_deref same_nreq_store same_nreq_new same_nreq_MkdirAll
  same_nreq_ReadFile same_nreq_WriteFile : frame.

Ltac same_nreq_tac := respects_tac same_nreq_refl same_nreq_trans.

(** *** The trace only grows, and by no call of the resolver *)

Lemma quiet_refl s : quiet s s.
Proof. exists []. split; [reflexivity | constructor]. Qed.

Lemma quiet_trans s1 s2 s3 : quiet s1 s2 -> quiet s2 s3 -> quiet s1 s3.
Proof.
  intros (d1 & E1 & F1) (d2 & E2 & F2). exists (d2 ++ d1)%list. split.
  - rewrite E2, E1. apply app_assoc.
  - apply Forall_app. split; assumption.
Qed.

Lemma quiet_same_calls {A} (m : M A) :
  (forall h s, s_calls (snd (m h s)) = s_calls s) -> respects quiet m.
Proof. intros H h s. exists []. split; [apply H | constructor]. Qed.

Lemma quiet_note c : isResolve c = false -> respects quiet (note c).
Proof.
  intros Hc h s. exists [c]. split; [reflexivity|].
  constructor; [exact Hc | constructor].
Qed.

Lemma quiet_eprint l : respects quiet (eprint l).
Proof. apply quiet_same_calls. reflexivity. Qed.

Lemma quiet_time_Now : respects quiet time_Now.
Proof. apply quiet_same_calls. reflexivity. Qed.

Lemma quiet_deref p : respects quiet (deref p).
Proof. apply quiet_same_calls. reflexivity. Qed.

Lemma quiet_store p c : respects quiet (store p c).
Proof. apply quiet_same_calls. reflexivity. Qed.

Lemma quiet_new c : respects quiet (new c).
Proof. apply quiet_same_calls. reflexivity. Qed.

Lemma quiet_MkdirAll p : respects quiet (fs_MkdirAll p).
Proof.
  apply quiet_same_calls. intros h s. unfold fs_MkdirAll.
  destruct (h_mkdir_ok h p); reflexivity.
Qed.

Lemma quiet_ReadFile p : respects quiet (afero_ReadFile p).
Proof.
  apply quiet_same_calls. intros h s. unfold afero_ReadFile.
  destruct (s_files s !! p) as [[?|?]|]; reflexivity.
Qed.

Lemma quiet_WriteFile p data : respects quiet (afero_WriteFile p data).
Proof.
  apply quiet_same_calls. intros h s. unfold afero_WriteFile.
  destruct (h_write_ok h p); reflexivity.
Qed.

#[global] Hint Resolve quiet_note quiet_eprint quiet_time_Now quiet_deref quiet_store
  quiet_new quiet_MkdirAll quiet_ReadFile quiet_WriteFile : frame.

Ltac quiet_tac := respects_tac quiet_refl quiet_trans.

Section Frames.

Context {lib : GoLib}.

Lemma unchanged_http_Do req : respects unchanged (http_Do req).
Proof. intros h s. split; reflexivity. Qed.

Lemma quiet_http_Do req : respects quiet (http_Do req).
Proof. apply quiet_same_calls. reflexivity. Qed.

Hint Resolve unchanged_http_Do quiet_http_Do : frame.

Lemma unchanged_getCachePath : respects unchanged getCachePath.
Proof. unfold getCachePath. unchanged_tac. Qed.

Lemma quiet_getCachePath : respects quiet getCachePath.
Proof. unfold getCachePath. quiet_tac. Qed.

Hint Resolve unchanged_getCachePath quiet_getCachePath : frame.

Lemma unchanged_getCachedVersion cache cacheKey :
  respects unchanged (getCachedVersion cache cacheKey).
Proof. unfold getCachedVersion, time_Since. unchanged_tac. Qed.

Lemma quiet_getCachedVersion cache cacheKey :
  respects quiet (getCachedVersion cache cacheKey).
Proof. unfold getCachedVersion, time_Since. quiet_tac. Qed.

Lemma quiet_setCachedVersion cache cacheKey version :
  respects quiet (setCachedVersion cache cacheKey version).
Proof. unfold setCachedVersion. quiet_tac. Qed.

Lemma unchanged_fetch ctx owner repo :
  respects unchanged (fetchLatestReleaseVersion ctx owner repo).
Proof. unfold fetchLatestReleaseVersion. unchanged_tac. Qed.

Lemma quiet_fetch ctx owner repo :
  respects quiet (fetchLatestReleaseVersion ctx owner repo).
Proof. unfold fetchLatestReleaseVersion. quiet_tac. Qed.

Lemma same_files_loadCache : respects same_files loadCache.
Proof.
  unfold loadCache.
  pose proof (unchanged_same_files _ unchanged_getCachePath).
  pose proof (fun c => unchanged_same_files _ (unchanged_note c)).
  pose proof (fun p => unchanged_same_files _ (unchanged_ReadFile p)).
  same_files_tac.
Qed.

Lemma quiet_loadCache : respects quiet loadCache.
Proof. unfold loadCache. quiet_tac. Qed.

Lemma quiet_saveCache cache : respects quiet (saveCache cache).
Proof. unfold saveCache. quiet_tac. Qed.

Hint Resolve same_files_loadCache quiet_loadCache quiet_saveCache
  quiet_getCachedVersion quiet_setCachedVersion quiet_fetch : frame.

Lemma same_files_loadCacheOrEmpty : respects same_files loadCacheOrEmpty.
Proof. unfold loadCacheOrEmpty. same_files_tac. Qed.

Lemma quiet_loadCacheOrEmpty : respects quiet loadCacheOrEmpty.
Proof. unfold loadCacheOrEmpty. quiet_tac. Qed.

Lemma quiet_fetchOrFallback ctx owner repo cacheKey cachePath cache :
  respects quiet (fetchOrFallback ctx owner repo cacheKey cachePath cache).
Proof. unfold fetchOrFallback. quiet_tac. Qed.

Lemma same_nreq_getCachePath : respects same_nreq getCachePath.
Proof. unfold getCachePath. same_nreq_tac. Qed.

Hint Resolve same_nreq_getCachePath : frame.

Lemma same_nreq_getCachedVersion cache cacheKey :
  respects same_nreq (getCachedVersion cache cacheKey).
Proof. unfold getCachedVersion, time_Since. same_nreq_tac. Qed.

Lemma same_nreq_setCachedVersion cache cacheKey version :
  respects same_nreq (setCachedVersion cache cacheKey version).
Proof. unfold setCachedVersion. same_nreq_tac. Qed.

Lemma same_nreq_loadCache : respects same_nreq loadCache.
Proof. unfold loadCache. same_nreq_tac. Qed.

Lemma same_nreq_saveCache cache : respects same_nreq (saveCache cache).
Proof. unfold saveCache. same_nreq_tac. Qed.

Hint Resolve same_nreq_loadCache : frame.

Lemma same_nreq_loadCacheOrEmpty : respects same_nreq loadCacheOrEmpty.
Proof. unfold loadCacheOrEmpty. same_nreq_tac. Qed.

End Frames.

#[global] Hint Resolve unchanged_http_Do quiet_http_Do unchanged_getCachePath
  quiet_getCachePath unchanged_getCachedVersion unchanged_fetch
  same_files_loadCache quiet_loadCache quiet_saveCache quiet_getCachedVersion
  quiet_setCachedVersion quiet_fetch same_files_loadCacheOrEmpty
  quiet_loadCacheOrEmpty quiet_fetchOrFallback same_nreq_getCachePath
  same_nreq_getCachedVersion same_nreq_setCachedVersion same_nreq_loadCache
  same_nreq_saveCache same_nreq_loadCacheOrEmpty : frame.

(** ** C5: identifiers that are already package coordinates *)

Section PassThrough.

Context {lib : GoLib}.

(** C5.  For an identifier that contains a ['/'] or a [':'], resolution
    returns the identifier itself, without error, and leaves the whole
    state as it was but for the record of its own call in the trace: no
    file is read or written, no cache object is made, read or updated,
    the clock is not read, no request is made and nothing is printed; in
    particular neither [loadCache], [getCachedVersion],
    [setCachedVersion], [saveCache] nor [fetchLatestReleaseVersion] is
    called. *)
Theorem passthrough_no_effect (ctx : Context) (name : string) (forceRefresh : bool)
  (h : Host) (s : State) :
  strings.Contains name "/" || strings.Contains name ":" = true ->
  inferPackageFromFunctionName ctx name forceRefresh h s
    = (Ok name, set_calls (CallResolve name :: s_calls s) s).
Proof.
  intros Hc. unfold inferPackageFromFunctionName, bind, note, ret.
  assert (Hne : name <> "").
  { apply orb_true_iff in Hc. destruct Hc as [Hc|Hc];
      eapply Contains_nonempty; try exact Hc; discriminate. }
  rewrite (length_eqb_0 _ Hne), Hc. reflexivity.
Qed.

End PassThrough.

Lemma passthrough_no_effect_witness :
  let name := "xpkg.upbound.io/upbound/function-unit-test:v0.4.0" in
  let s := Sample.state None in
  inferPackageFromFunctionName Sample.ctx name true (Sample.host 0 Sample.rateLimited) s
    = (Ok name, set_calls (CallResolve name :: s_calls s) s).
Proof.
  apply (passthrough_no_effect Sample.ctx
           "xpkg.upbound.io/upbound/function-unit-test:v0.4.0" true
           (Sample.host 0 Sample.rateLimited) (Sample.state None)).
  reflexivity.
Defined.

(** ** C8 and C9: the cache's [get] and [set] *)

Section VersionCache.

Context {lib : GoLib}.

(** C8, as the code has it.  For every store, key and version, [set]
    followed by [get] returns the version and [true] whenever the time
    between the reading of the clock by [set] and the reading by [get],
    [elapsed], is such that [0 <= elapsed <= TTL]. *)
Theorem set_then_get_within (h : Host) (s : State) (cache : nat)
  (c : FunctionVersionCache) (cacheKey version : string) :
  s_heap s !! cache = Some c ->
  0 <= h_clock h (S (s_ticks s)) - h_clock h (s_ticks s) <= getCacheExpiration h ->
  fst ((setCachedVersion cache cacheKey version;;;
        getCachedVersion cache cacheKey) h s) = (version, true).
Proof.
  intros Hc Hel.
  unfold setCachedVersion, getCachedVersion, time_Since, time_Now, bind, note,
    deref, store, asks, ret. simpl.
  rewrite Hc. simpl.
  rewrite list_lookup_insert_eq by (eapply lookup_lt_Some; exact Hc).
  simpl. rewrite lookup_insert_eq. simpl.
  assert (Hage : time_Sub (h_clock h (S (s_ticks s))) (h_clock h (s_ticks s))
                 <= getCacheExpiration h).
  { unfold time_Sub, minDuration, maxDuration in *. lia. }
  destruct (_ >? _) eqn:E; [|reflexivity].
  apply Z.gtb_lt in E. lia.
Qed.

(** With a TTL below zero [get] misses even when the clock has not
    moved since [set]. *)
Lemma set_then_get_negative_ttl (h : Host) (s : State) (cache : nat)
  (c : FunctionVersionCache) (cacheKey version : string) :
  s_heap s !! cache = Some c ->
  getCacheExpiration h < 0 ->
  h_clock h (S (s_ticks s)) = h_clock h (s_ticks s) ->
  fst ((setCachedVersion cache cacheKey version;;;
        getCachedVersion cache cacheKey) h s) = ("", false).
Proof.
  intros Hc Httl Hnow.
  unfold setCachedVersion, getCachedVersion, time_Since, time_Now, bind, note,
    deref, store, asks, ret. simpl.
  rewrite Hc. simpl.
  rewrite list_lookup_insert_eq by (eapply lookup_lt_Some; exact Hc).
  simpl. rewrite lookup_insert_eq. simpl. rewrite Hnow.
  destruct (_ >? _) eqn:E; [reflexivity|].
  exfalso. revert E. unfold time_Sub, minDuration, maxDuration.
  rewrite Z.sub_diag. intros E.
  assert (Hgt : (Z.max (-9223372036854775808) (Z.min 9223372036854775807 0)
                 >? getCacheExpiration h) = true) by (apply Z.gtb_lt; lia).
  congruence.
Qed.

(** C9.  When the age of the entry under a key, as [get] computes it,
    exceeds the configured TTL, [get] answers [found = false] and
    changes neither the heap nor the files: the store it was given is
    the same object as before, with the expired entry still under its
    key. *)
Theorem get_expired_keeps_store (h : Host) (s : State) (cache : nat)
  (c : FunctionVersionCache) (cacheKey : string) (entry : CacheEntry) :
  s_heap s !! cache = Some c ->
  Versions c !! cacheKey = Some entry ->
  time_Sub (h_clock h (s_ticks s)) (FetchedAt entry) > getCacheExpiration h ->
  let '(r, s') := getCachedVersion cache cacheKey h s in
  r = ("", false)
  /\ s_heap s' = s_heap s
  /\ s_files s' = s_files s
  /\ s_heap s' !! cache = Some c
  /\ Versions c !! cacheKey = Some entry.
Proof.
  intros Hc He Hage.
  unfold getCachedVersion, time_Since, time_Now, bind, note, deref, asks, ret.
  simpl. rewrite Hc. simpl. rewrite He.
  destruct (_ >? _) eqn:E.
  - simpl. repeat split; assumption.
  - exfalso. simpl in E. rewrite Z.gtb_ltb in E. apply Z.ltb_ge in E. lia.
Qed.

End VersionCache.

Lemma set_then_get_within_witness :
  let h := tickingHost ∅ 5000 Second Sample.rateLimited in
  let s := set_heap [emptyCache] (Sample.state None) in
  fst ((setCachedVersion 0 "crossplane-contrib/function-foo" "v1.2.3";;;
        getCachedVersion 0 "crossplane-contrib/function-foo") h s) = ("v1.2.3", true).
Proof.
  apply (set_then_get_within (tickingHost ∅ 5000 Second Sample.rateLimited)
           (set_heap [emptyCache] (Sample.state None)) 0 emptyCache
           "crossplane-contrib/function-foo" "v1.2.3").
  - reflexivity.
  - vm_compute. split; discriminate.
Defined.

(** C8, as the specification has it, fails: with a TTL of one
    nanosecond, which is above zero, and a clock that reads two
    nanoseconds more at each reading, [get] right after [set] misses. *)
Lemma set_then_get_expired :
  let h := tickingHost {[ "CROSSBENCH_CACHE_EXPIRATION" := "1ns" ]} 5000 2
             Sample.rateLimited in
  let s := set_heap [emptyCache] (Sample.state None) in
  let r := fst ((setCachedVersion 0 "crossplane-contrib/function-foo" "v1.2.3";;;
                 getCachedVersion 0 "crossplane-contrib/function-foo") h s) in
  0 < getCacheExpiration h
  /\ r = ("", false)
  /\ r <> ("v1.2.3", true).
Proof. repeat split; vm_compute; congruence. Qed.

Lemma get_expired_keeps_store_witness :
  let c := {| Versions := Sample.docStore |} in
  let s := set_heap [c] (Sample.state None) in
  let '(r, s') := getCachedVersion 0 "crossplane-contrib/function-unit-test"
                    (Sample.host (1000 + 25 * Hour) Sample.rateLimited) s in
  r = ("", false)
  /\ s_heap s' = s_heap s
  /\ s_files s' = s_files s
  /\ s_heap s' !! 0%nat = Some c
  /\ Versions c !! "crossplane-contrib/function-unit-test" = Some (Sample.entry "v0.1.0" 1000).
Proof.
  apply (get_expired_keeps_store (Sample.host (1000 + 25 * Hour) Sample.rateLimited)
           (set_heap [{| Versions := Sample.docStore |}] (Sample.state None)) 0
           {| Versions := Sample.docStore |}
           "crossplane-contrib/function-unit-test" (Sample.entry "v0.1.0" 1000));
    reflexivity.
Defined.

(** ** C2: loading the cache *)

Section LoadCache.

Context {lib : GoLib}.

(** [getCachePath] never returns an error, and its path depends on the
    host alone. *)
Lemma getCachePath_result (h : Host) (s s0 : State) :
  snd (fst (getCachePath h s)) = None
  /\ fst (getCachePath h s) = fst (getCachePath h s0).
Proof.
  unfold getCachePath, bind, asks, ret, fs_MkdirAll.
  destruct (h_home h) as [homeDir|]; [|split; reflexivity].
  match goal with |- context [h_mkdir_ok h ?p] => destruct (h_mkdir_ok h p) end;
    split; reflexivity.
Qed.

Lemma getCachePath_run (h : Host) (s s0 : State) :
  exists s1, getCachePath h s = ((fst (fst (getCachePath h s0)), None), s1)
             /\ unchanged s s1.
Proof.
  destruct (getCachePath h s) as [[path err] s1] eqn:E.
  exists s1. split.
  - destruct (getCachePath_result h s s0) as [Herr Hpath].
    rewrite E in Herr, Hpath. simpl in Herr, Hpath. subst err.
    rewrite <- Hpath. reflexivity.
  - eapply respects_run; [apply unchanged_getCachePath | exact E].
Qed.

(** C2, as the code has it.  [loadCache] never changes a file.  It
    returns a new store and no error when the cache file is missing
    (an empty store), and when the file can be read (the decoded store,
    which is empty for malformed JSON).  When the file exists and
    cannot be read, [loadCache] returns the error
    ["failed to read cache file: ..."] and no store; the resolver, its
    caller, then goes on with a new empty store
    ([loadCacheOrEmpty]). *)
Theorem loadCache_outcomes (h : Host) (s : State) :
  let path := fst (fst (getCachePath h s)) in
  let '(r, s') := loadCache h s in
  let '(cache, s2) := loadCacheOrEmpty h s in
  s_files s' = s_files s
  /\ match s_files s !! path with
     | None =>
         r = Ok cache /\ s_heap s' !! cache = Some emptyCache
     | Some (File data) =>
         r = Ok cache /\ s_heap s' !! cache = Some (decoded data)
         /\ (json_Unmarshal data = None -> decoded data = emptyCache)
     | Some (Unreadable msg) =>
         r = Err (wrapError ("failed to read cache file: " +:+ msg) (osError false msg))
         /\ s_heap s2 !! cache = Some emptyCache
     end.
Proof.
  intros path. subst path.
  unfold loadCacheOrEmpty, bind.
  destruct (loadCache h s) as [r s'] eqn:Eload.
  revert Eload. unfold loadCache, bind, note. simpl.
  destruct (getCachePath_run h (set_calls (CallLoadCache :: s_calls s) s) s)
    as (s1 & -> & Hf1 & Hh1).
  simpl in Hf1, Hh1.
  unfold afero_ReadFile. rewrite Hf1.
  destruct (s_files s !! (getCachePath h s).1.1) as [[data|msg]|]; simpl.
  - unfold decoded. destruct (json_Unmarshal data) as [versions|]; simpl;
      unfold new, ret; simpl; intros [= <- <-]; simpl.
    all: split; [exact Hf1|].
    all: split; [reflexivity|].
    all: split; [apply list_lookup_middle; reflexivity | intros; congruence].
  - intros [= <- <-]. unfold new. simpl. split; [exact Hf1|].
    split; [reflexivity|]. apply list_lookup_middle. reflexivity.
  - unfold new, ret. simpl. intros [= <- <-]. simpl. split; [exact Hf1|].
    split; [reflexivity|]. apply list_lookup_middle. reflexivity.
Qed.

End LoadCache.

(** C2, as the specification has it, fails: a cache file that exists and
    cannot be read makes [loadCache] return an error. *)
Lemma loadCache_unreadable_is_error :
  let s := Sample.state (Some (Unreadable "permission denied")) in
  s_files s !! Sample.cachePath = Some (Unreadable "permission denied")
  /\ fst (loadCache (Sample.host 0 Sample.rateLimited) s)
     = Err (wrapError "failed to read cache file: permission denied"
              (osError false "permission denied")).
Proof. split; vm_compute; reflexivity. Qed.

(** ** C10: the registry goes by the name as written *)

Section Registry.

Context {lib : GoLib}.

Lemma registryLoop_match (h : Host) (l : list string) (name : string) :
  (exists fn, In fn l /\ strings.TrimSpace fn = name) ->
  registryLoop h l name = getUpboundPackageRegistry h.
Proof.
  induction l as [|fn l IH]; intros (fn' & Hin & Heq); simpl.
  - destruct Hin.
  - destruct (strings.TrimSpace fn =? name)%string eqn:E; [reflexivity|].
    apply IH. destruct Hin as [->|Hin].
    + apply String.eqb_neq in E. contradiction.
    + exists fn'. split; assumption.
Qed.

Lemma registryLoop_no_match (h : Host) (l : list string) (name : string) :
  (forall fn, In fn l -> strings.TrimSpace fn <> name) ->
  registryLoop h l name = getDefaultPackageRegistry h.
Proof.
  induction l as [|fn l IH]; intros Hno; simpl; [reflexivity|].
  destruct (strings.TrimSpace fn =? name)%string eqn:E.
  - apply String.eqb_eq in E. exfalso. apply (Hno fn); [left; reflexivity | exact E].
  - apply IH. intros fn' Hin. apply Hno. right. exact Hin.
Qed.

(** Whatever a resolution of a name without ['/'] and [':'] returns, it
    is the registry of that very name, followed by owner, repository
    and a version. *)
Lemma resolved_coordinate (ctx : Context) (name : string) (forceRefresh : bool)
  (h : Host) (s : State) (pkg : string) :
  strings.Contains name "/" || strings.Contains name ":" = false ->
  fst (inferPackageFromFunctionName ctx name forceRefresh h s) = Ok pkg ->
  exists version,
    pkg = getPackageRegistry h name +:+ "/" +:+ getDefaultGitHubOwner h +:+ "/"
          +:+ snd (fst (mapFunctionNameToGitHubRepo h name)) +:+ ":" +:+ version.
Proof.
  intros Hc. unfold inferPackageFromFunctionName, bind, note, asks, ret.
  destruct (String.length name =? 0)%nat; [discriminate|].
  rewrite Hc. simpl.
  destruct (loadCacheOrEmpty h _) as [cache s1].
  destruct (getCachePath h s1) as [[cachePath err] s2].
  destruct (getCachedVersion cache _ h s2) as [[version found] s3].
  destruct (found && negb forceRefresh).
  - unfold eprint. simpl. intros [= <-]. exists version. reflexivity.
  - destruct (fetchOrFallback ctx _ _ _ cachePath cache h s3) as [[v|e] s4];
      simpl; [|discriminate].
    intros [= <-]. exists v. reflexivity.
Qed.

(** C10.  The registry is chosen by comparing the function name as the
    pipeline writes it with the entries of the allow-list, each trimmed
    of white space: the secondary registry when the name equals a
    trimmed entry, the primary one when it equals none.  The resolver
    passes that name, not the repository it maps to, so with the
    default allow-list ["unit-test"] gets the primary registry although
    its repository, ["function-unit-test"], is on the list. *)
Theorem registry_by_raw_name (ctx : Context) (name : string) (forceRefresh : bool)
  (h : Host) (s : State) :
  ((exists fn, In fn (getUpboundFunctionNames h) /\ strings.TrimSpace fn = name) ->
     getPackageRegistry h name = getUpboundPackageRegistry h)
  /\ ((forall fn, In fn (getUpboundFunctionNames h) -> strings.TrimSpace fn <> name) ->
     getPackageRegistry h name = getDefaultPackageRegistry h)
  /\ (strings.Contains name "/" || strings.Contains name ":" = false ->
      forall pkg,
        fst (inferPackageFromFunctionName ctx name forceRefresh h s) = Ok pkg ->
        exists version,
          pkg = getPackageRegistry h name +:+ "/" +:+ getDefaultGitHubOwner h +:+ "/"
                +:+ snd (fst (mapFunctionNameToGitHubRepo h name)) +:+ ":" +:+ version)
  /\ (h_env h !! "CROSSBENCH_UPBOUND_FUNCTIONS" = None ->
      getPackageRegistry h "unit-test" = getDefaultPackageRegistry h
      /\ snd (fst (mapFunctionNameToGitHubRepo h "unit-test")) = "function-unit-test"
      /\ getPackageRegistry h "function-unit-test" = getUpboundPackageRegistry h).
Proof.
  split; [apply registryLoop_match|].
  split; [apply registryLoop_no_match|].
  split; [intros Hc pkg; apply resolved_coordinate; exact Hc|].
  intros Hnone. unfold getPackageRegistry, getUpboundFunctionNames, os_Getenv.
  rewrite Hnone. simpl. repeat split.
Qed.

End Registry.

(** With the default configuration and a fresh entry for the repository
    [function-unit-test], the two spellings of the name resolve to the
    same repository and version in different registries. *)
Example registry_unit_test :
  let h := Sample.host 2000 Sample.rateLimited in
  let s := Sample.state (Some (File Sample.doc)) in
  fst (inferPackageFromFunctionName Sample.ctx "unit-test" false h s)
    = Ok "xpkg.crossplane.io/crossplane-contrib/function-unit-test:v0.1.0"
  /\ fst (inferPackageFromFunctionName Sample.ctx "function-unit-test" false h s)
    = Ok "xpkg.upbound.io/crossplane-contrib/function-unit-test:v0.1.0".
Proof. split; vm_compute; reflexivity. Qed.

(** An allow-list entry is compared after trimming: [" function-b "]
    admits ["function-b"]. *)
Example registry_trimmed_entry :
  let h := {| h_env := {[ "CROSSBENCH_UPBOUND_FUNCTIONS" := "function-a, function-b " ]};
              h_home := None; h_gh_token := None; h_clock := fun _ => 0;
              h_remote := fun _ _ => Sample.rateLimited;
              h_mkdir_ok := fun _ => true; h_write_ok := fun _ => true |} in
  getPackageRegistry h "function-b" = "xpkg.upbound.io"
  /\ getPackageRegistry h " function-b " = "xpkg.crossplane.io"
  /\ getPackageRegistry h "function-unit-test" = "xpkg.crossplane.io".
Proof. repeat split; vm_compute; reflexivity. Qed.

(** ** The resolver, step by step *)

Section Resolver.

Context {lib : GoLib}.

(** The error of the client is a [RateLimitError] itself, or has none
    on its chain. *)
Lemma fetch_error_kind (ctx : Context) (owner repo : string) (h : Host) (s : State)
  (e : error) :
  fst (fetchLatestReleaseVersion ctx owner repo h s) = Err e ->
  (exists msg, e = RateLimitError msg) \/ errors_As_RateLimitError e = None.
Proof.
  unfold fetchLatestReleaseVersion, bind, note, asks, ret, http_Do. simpl.
  destruct (http_NewRequestWithContext _ _); simpl.
  { intros [= <-]. right. reflexivity. }
  destruct (h_remote h _ _) as [msg|StatusCode body]; simpl.
  { intros [= <-]. right. reflexivity. }
  destruct (StatusCode =? 403).
  { destruct (_ || _); simpl; intros [= <-]; [left; eexists | right]; reflexivity. }
  destruct (negb _); simpl.
  { intros [= <-]. right. reflexivity. }
  destruct (json_Decode body) as [release|msg]; simpl.
  - destruct (TagName release =? "")%string; simpl; [|discriminate].
    intros [= <-]. right. reflexivity.
  - intros [= <-]. right. reflexivity.
Qed.

(** A rate limit with an entry in the store: the entry's version, and
    neither files nor heap touched. *)
Lemma fetchOrFallback_entry (ctx : Context) (owner repo cacheKey cachePath : string)
  (cache : nat) (h : Host) (s s1 : State) (msg : string)
  (c : FunctionVersionCache) (entry : CacheEntry) :
  fetchLatestReleaseVersion ctx owner repo h s = (Err (RateLimitError msg), s1) ->
  s_heap s !! cache = Some c ->
  Versions c !! cacheKey = Some entry ->
  exists s2,
    fetchOrFallback ctx owner repo cacheKey cachePath cache h s = (Ok (Version entry), s2)
    /\ unchanged s s2.
Proof.
  intros Hfetch Hc He.
  destruct (respects_run unchanged _ _ _ _ _ (unchanged_fetch ctx owner repo) Hfetch)
    as [Hf1 Hh1].
  unfold fetchOrFallback, bind. rewrite Hfetch.
  unfold deref, eprint, ret. simpl. rewrite Hh1, Hc. simpl. rewrite He.
  eexists. split; [reflexivity|]. split; simpl; assumption.
Qed.

(** A rate limit with no entry in the store: the [RateLimitError],
    wrapped. *)
Lemma fetchOrFallback_no_entry (ctx : Context) (owner repo cacheKey cachePath : string)
  (cache : nat) (h : Host) (s s1 : State) (msg : string) (c : FunctionVersionCache) :
  fetchLatestReleaseVersion ctx owner repo h s = (Err (RateLimitError msg), s1) ->
  s_heap s !! cache = Some c ->
  Versions c !! cacheKey = None ->
  exists text,
    fetchOrFallback ctx owner repo cacheKey cachePath cache h s
      = (Err (wrapError text (RateLimitError msg)), s1).
Proof.
  intros Hfetch Hc He.
  destruct (respects_run unchanged _ _ _ _ _ (unchanged_fetch ctx owner repo) Hfetch)
    as [Hf1 Hh1].
  unfold fetchOrFallback, bind. rewrite Hfetch.
  unfold deref, ret. simpl. rewrite Hh1, Hc. simpl. rewrite He.
  eexists. reflexivity.
Qed.

(** The client records its call, and nothing else, in the trace. *)
Lemma fetch_calls (ctx : Context) (owner repo : string) (h : Host) (s : State) :
  s_calls (snd (fetchLatestReleaseVersion ctx owner repo h s))
    = CallFetch owner repo :: s_calls s.
Proof.
  unfold fetchLatestReleaseVersion, bind, note, asks, ret, http_Do. simpl.
  repeat match goal with
         | |- context [match ?x with _ => _ end] => destruct x; simpl
         end; reflexivity.
Qed.

Lemma bind_calls_after {A B} (m : M A) (k : A -> M B) (c : Call) (h : Host) (s : State) :
  s_calls (snd (m h s)) = c :: s_calls s ->
  (forall a, respects quiet (k a)) ->
  exists later,
    s_calls (snd (bind m k h s)) = (later ++ c :: s_calls s)%list
    /\ Forall (fun c' => isResolve c' = false) later.
Proof.
  intros Hm Hk. unfold bind. destruct (m h s) as [a s1]. simpl in Hm.
  destruct (Hk a h s1) as (later & E & Hq).
  exists later. rewrite E, Hm. split; [reflexivity | exact Hq].
Qed.

(** The trace after the fetch-or-fallback step: the call of the client,
    then whatever follows it. *)
Lemma fetchOrFallback_calls (ctx : Context) (owner repo cacheKey cachePath : string)
  (cache : nat) (h : Host) (s : State) :
  exists later,
    s_calls (snd (fetchOrFallback ctx owner repo cacheKey cachePath cache h s))
      = (later ++ CallFetch owner repo :: s_calls s)%list.
Proof.
  unfold fetchOrFallback.
  match goal with
  | |- context [bind (fetchLatestReleaseVersion ctx owner repo) ?k] =>
      destruct (bind_calls_after (fetchLatestReleaseVersion ctx owner repo) k
                  (CallFetch owner repo) h s) as (later & E & _)
  end.
  - apply fetch_calls.
  - intros r. quiet_tac.
  - exists later. exact E.
Qed.

(** The client makes one request, unless the request cannot be built. *)
Lemma fetch_nreq (ctx : Context) (owner repo : string) (h : Host) (s : State) :
  (forall url, http_NewRequestWithContext "GET" url = None) ->
  s_nreq (snd (fetchLatestReleaseVersion ctx owner repo h s)) = S (s_nreq s).
Proof.
  intros Hreq.
  unfold fetchLatestReleaseVersion, bind, note, asks, ret, http_Do. simpl.
  rewrite Hreq. simpl.
  repeat match goal with
         | |- context [match ?x with _ => _ end] => destruct x; simpl
         end; reflexivity.
Qed.

Lemma fetchOrFallback_nreq (ctx : Context) (owner repo cacheKey cachePath : string)
  (cache : nat) (h : Host) (s : State) :
  (forall url, http_NewRequestWithContext "GET" url = None) ->
  s_nreq (snd (fetchOrFallback ctx owner repo cacheKey cachePath cache h s))
    = S (s_nreq s).
Proof.
  intros Hreq. unfold fetchOrFallback.
  match goal with
  | |- context [bind (fetchLatestReleaseVersion ctx owner repo) ?k] =>
      assert (Hk : forall r, respects same_nreq (k r)) by (intros r; same_nreq_tac);
      unfold bind at 1;
      pose proof (fetch_nreq ctx owner repo h s Hreq) as Hf;
      destruct (fetchLatestReleaseVersion ctx owner repo h s) as [r s1];
      rewrite (Hk r h s1); exact Hf
  end.
Qed.

Lemma getCachedVersion_found (cache : nat) (cacheKey : string) (h : Host) (s s' : State)
  (version : string) (c : FunctionVersionCache) (entry : CacheEntry) :
  getCachedVersion cache cacheKey h s = ((version, true), s') ->
  s_heap s !! cache = Some c ->
  Versions c !! cacheKey = Some entry ->
  version = Version entry.
Proof.
  unfold getCachedVersion, time_Since, time_Now, bind, note, deref, asks, ret. simpl.
  intros Hrun Hc He. rewrite Hc in Hrun. simpl in Hrun. rewrite He in Hrun.
  destruct (_ >? _) in Hrun; congruence.
Qed.

Lemma map_shape (h : Host) (name : string) :
  mapFunctionNameToGitHubRepo h name
    = (getDefaultGitHubOwner h, snd (fst (mapFunctionNameToGitHubRepo h name)), None).
Proof. reflexivity. Qed.

(** The states a resolution of a plain name goes through, up to its
    cache check. *)
Lemma prefix_states (name : string) (h : Host) (s : State) (cacheKey : string) :
  let s0 := set_calls (CallResolve name :: s_calls s) s in
  forall cache s1 r2 s2 r3 s3,
    loadCacheOrEmpty h s0 = (cache, s1) ->
    getCachePath h s1 = (r2, s2) ->
    getCachedVersion cache cacheKey h s2 = (r3, s3) ->
    s_files s3 = s_files s /\ s_heap s3 = s_heap s1
    /\ (exists d, s_calls s3 = (d ++ CallResolve name :: s_calls s)%list)
    /\ s_nreq s3 = s_nreq s.
Proof.
  intros s0 cache s1 r2 s2 r3 s3 H1 H2 H3.
  pose proof (respects_run same_files _ _ _ _ _ same_files_loadCacheOrEmpty H1) as F1.
  destruct (respects_run unchanged _ _ _ _ _ unchanged_getCachePath H2) as [F2 P2].
  destruct (respects_run unchanged _ _ _ _ _
              (unchanged_getCachedVersion cache cacheKey) H3) as [F3 P3].
  destruct (respects_run quiet _ _ _ _ _ quiet_loadCacheOrEmpty H1) as (d1 & C1 & _).
  destruct (respects_run quiet _ _ _ _ _ quiet_getCachePath H2) as (d2 & C2 & _).
  destruct (respects_run quiet _ _ _ _ _
              (quiet_getCachedVersion cache cacheKey) H3) as (d3 & C3 & _).
  pose proof (respects_run same_nreq _ _ _ _ _ same_nreq_loadCacheOrEmpty H1) as N1.
  pose proof (respects_run same_nreq _ _ _ _ _ same_nreq_getCachePath H2) as N2.
  pose proof (respects_run same_nreq _ _ _ _ _
                (same_nreq_getCachedVersion cache cacheKey) H3) as N3.
  unfold same_files in F1. unfold same_nreq in N1, N2, N3. subst s0. simpl in F1, C1, N1.
  split; [congruence|]. split; [congruence|]. split; [|congruence].
  exists (d3 ++ d2 ++ d1)%list. rewrite C3, C2, C1.
  rewrite <- !app_assoc. reflexivity.
Qed.

End Resolver.

(** ** C1, C3 and C7: the resolver under a rate limit and a forced refresh *)

Section ResolverClaims.

Context {lib : GoLib}.

(** The run behind C1 and C7: rate limit and an entry in the loaded
    store give the entry's version, with heap and files as they were
    after loading. *)
Lemma fallback_run (ctx : Context) (name : string) (forceRefresh : bool)
  (h : Host) (s s1 : State) (cache : nat) (c : FunctionVersionCache)
  (entry : CacheEntry) :
  name <> "" ->
  strings.Contains name "/" || strings.Contains name ":" = false ->
  let owner := getDefaultGitHubOwner h in
  let repo := snd (fst (mapFunctionNameToGitHubRepo h name)) in
  let cacheKey := owner +:+ "/" +:+ repo in
  (forall s', exists msg s'',
      fetchLatestReleaseVersion ctx owner repo h s' = (Err (RateLimitError msg), s'')) ->
  loadCacheOrEmpty h (snd (note (CallResolve name) h s)) = (cache, s1) ->
  s_heap s1 !! cache = Some c ->
  Versions c !! cacheKey = Some entry ->
  let '(r, s') := inferPackageFromFunctionName ctx name forceRefresh h s in
  r = Ok (getPackageRegistry h name +:+ "/" +:+ owner +:+ "/" +:+ repo +:+ ":"
          +:+ Version entry)
  /\ s_heap s' = s_heap s1
  /\ s_files s' = s_files s.
Proof.
  intros Hne Hc owner repo cacheKey Hrl Hload Hheap Hentry.
  unfold inferPackageFromFunctionName, bind, asks.
  rewrite (length_eqb_0 _ Hne), Hc.
  rewrite (map_shape h name). fold owner repo cacheKey.
  change (note (CallResolve name) h s)
    with (tt, set_calls (CallResolve name :: s_calls s) s) in *.
  cbn [snd] in Hload. cbv beta iota. rewrite Hload.
  destruct (getCachePath h s1) as [[cachePath err] s2] eqn:E2.
  destruct (getCachedVersion cache cacheKey h s2) as [[version found] s3] eqn:E3.
  destruct (prefix_states name h s cacheKey cache s1 _ s2 _ s3 Hload E2 E3)
    as (F3 & P3 & _).
  destruct (respects_run unchanged _ _ _ _ _ unchanged_getCachePath E2) as [_ P2].
  destruct (found && negb forceRefresh) eqn:Efound.
  - apply andb_true_iff in Efound. destruct Efound as [-> _].
    rewrite <- P2 in Hheap.
    rewrite (getCachedVersion_found _ _ _ _ _ _ _ _ E3 Hheap Hentry).
    unfold eprint, ret. simpl. rewrite P3, F3. repeat split.
  - destruct (Hrl s3) as (msg & s4 & Hf).
    assert (Hheap3 : s_heap s3 !! cache = Some c) by (rewrite P3; exact Hheap).
    destruct (fetchOrFallback_entry ctx owner repo cacheKey cachePath cache
                h s3 s4 msg c entry Hf Hheap3 Hentry) as (s5 & -> & F5 & P5).
    unfold ret. simpl. rewrite P5, F5, F3, P3. repeat split.
Qed.

(** C1.  For a name whose fetch is answered by a rate limit: if the
    store the resolution loads has an entry under the name's cache key,
    fresh or stale, the resolution succeeds with the coordinate that
    carries the version of that entry; the store in memory is left as
    loaded, and no file, so neither the cache file nor any
    [fetched_at] in it, is changed. *)
Theorem rate_limited_with_entry (ctx : Context) (name : string) (forceRefresh : bool)
  (h : Host) (s s1 : State) (cache : nat) (c : FunctionVersionCache)
  (entry : CacheEntry) :
  name <> "" ->
  strings.Contains name "/" || strings.Contains name ":" = false ->
  let owner := getDefaultGitHubOwner h in
  let repo := snd (fst (mapFunctionNameToGitHubRepo h name)) in
  let cacheKey := owner +:+ "/" +:+ repo in
  (forall s', exists msg s'',
      fetchLatestReleaseVersion ctx owner repo h s' = (Err (RateLimitError msg), s'')) ->
  loadCacheOrEmpty h (snd (note (CallResolve name) h s)) = (cache, s1) ->
  s_heap s1 !! cache = Some c ->
  Versions c !! cacheKey = Some entry ->
  let '(r, s') := inferPackageFromFunctionName ctx name forceRefresh h s in
  r = Ok (getPackageRegistry h name +:+ "/" +:+ owner +:+ "/" +:+ repo +:+ ":"
          +:+ Version entry)
  /\ s_heap s' !! cache = Some c
  /\ s_files s' = s_files s.
Proof.
  intros Hne Hc owner repo cacheKey Hrl Hload Hheap Hentry.
  pose proof (fallback_run ctx name forceRefresh h s s1 cache c entry
                Hne Hc Hrl Hload Hheap Hentry) as H.
  fold owner repo cacheKey in H.
  destruct (inferPackageFromFunctionName ctx name forceRefresh h s) as [r s'].
  destruct H as (Hr & Hh & Hf).
  split; [exact Hr|]. split; [rewrite Hh; exact Hheap | exact Hf].
Qed.

(** C3.  For a name whose fetch is answered by a rate limit: if the
    store the resolution loads has no entry under the name's cache key,
    the resolution fails, and its error wraps the client's
    [RateLimitError], which [errors.As] recovers.  Every other error of
    the client has no [RateLimitError] on its chain, so the two kinds
    are told apart. *)
Theorem rate_limited_without_entry (ctx : Context) (name : string)
  (forceRefresh : bool) (h : Host) (s s1 : State) (cache : nat)
  (c : FunctionVersionCache) :
  name <> "" ->
  strings.Contains name "/" || strings.Contains name ":" = false ->
  let owner := getDefaultGitHubOwner h in
  let repo := snd (fst (mapFunctionNameToGitHubRepo h name)) in
  let cacheKey := owner +:+ "/" +:+ repo in
  (forall s', exists msg s'',
      fetchLatestReleaseVersion ctx owner repo h s' = (Err (RateLimitError msg), s'')) ->
  loadCacheOrEmpty h (snd (note (CallResolve name) h s)) = (cache, s1) ->
  s_heap s1 !! cache = Some c ->
  Versions c !! cacheKey = None ->
  (exists text msg,
      fst (inferPackageFromFunctionName ctx name forceRefresh h s)
        = Err (wrapError text (RateLimitError msg))
      /\ errors_As_RateLimitError (wrapError text (RateLimitError msg)) = Some msg)
  /\ (forall ctx' owner' repo' h' s' e,
        fst (fetchLatestReleaseVersion ctx' owner' repo' h' s') = Err e ->
        (forall msg, e <> RateLimitError msg) ->
        forall text, errors_As_RateLimitError (wrapError text e) = None).
Proof.
  intros Hne Hc owner repo cacheKey Hrl Hload Hheap Hentry. split.
  - unfold inferPackageFromFunctionName, bind, asks.
    rewrite (length_eqb_0 _ Hne), Hc.
    rewrite (map_shape h name). fold owner repo cacheKey.
    change (note (CallResolve name) h s)
      with (tt, set_calls (CallResolve name :: s_calls s) s) in *.
    cbn [snd] in Hload. cbv beta iota. rewrite Hload.
    destruct (getCachePath h s1) as [[cachePath err] s2] eqn:E2.
    destruct (getCachedVersion cache cacheKey h s2) as [[version found] s3] eqn:E3.
    destruct (prefix_states name h s cacheKey cache s1 _ s2 _ s3 Hload E2 E3)
      as (F3 & P3 & _).
    destruct (respects_run unchanged _ _ _ _ _ unchanged_getCachePath E2) as [_ P2].
    assert (found = false) as ->.
    { revert E3.
      unfold getCachedVersion, time_Since, time_Now, bind, note, deref, asks, ret.
      simpl. rewrite P2, Hheap. simpl. rewrite Hentry. congruence. }
    simpl.
    destruct (Hrl s3) as (msg & s4 & Hf).
    assert (Hheap3 : s_heap s3 !! cache = Some c) by (rewrite P3; exact Hheap).
    destruct (fetchOrFallback_no_entry ctx owner repo cacheKey cachePath cache
                h s3 s4 msg c Hf Hheap3 Hentry) as (text & ->).
    exists text, msg. split; reflexivity.
  - intros ctx' owner' repo' h' s' e He Hnot text. simpl.
    destruct (fetch_error_kind ctx' owner' repo' h' s' e He) as [[msg ->]|Hnone].
    + exfalso. apply (Hnot msg). reflexivity.
    + exact Hnone.
Qed.

(** C7.  With [forceRefresh] set, the resolution of a plain name calls
    the client, whatever the store holds, a fresh entry included, and
    the client makes its request whenever the request can be built; and
    the fallback stays: when that fetch is answered by a rate limit and
    the store has an entry, the resolution returns the entry's
    version. *)
Theorem force_refresh_fetches (ctx : Context) (name : string) (h : Host) (s : State) :
  name <> "" ->
  strings.Contains name "/" || strings.Contains name ":" = false ->
  let owner := getDefaultGitHubOwner h in
  let repo := snd (fst (mapFunctionNameToGitHubRepo h name)) in
  let cacheKey := owner +:+ "/" +:+ repo in
  let '(r, s') := inferPackageFromFunctionName ctx name true h s in
  (exists later earlier,
      s_calls s' = (later ++ CallFetch owner repo :: earlier
                    ++ CallResolve name :: s_calls s)%list)
  /\ ((forall url, http_NewRequestWithContext "GET" url = None) ->
      s_nreq s' = S (s_nreq s))
  /\ (forall cache s1 c entry,
        (forall s', exists msg s'',
            fetchLatestReleaseVersion ctx owner repo h s'
              = (Err (RateLimitError msg), s'')) ->
        loadCacheOrEmpty h (snd (note (CallResolve name) h s)) = (cache, s1) ->
        s_heap s1 !! cache = Some c ->
        Versions c !! cacheKey = Some entry ->
        r = Ok (getPackageRegistry h name +:+ "/" +:+ owner +:+ "/" +:+ repo +:+ ":"
                +:+ Version entry)).
Proof.
  intros Hne Hc owner repo cacheKey.
  destruct (inferPackageFromFunctionName ctx name true h s) as [r s'] eqn:Erun.
  assert (Hfetch : (exists later earlier,
                       s_calls s' = (later ++ CallFetch owner repo :: earlier
                                     ++ CallResolve name :: s_calls s)%list)
                   /\ ((forall url, http_NewRequestWithContext "GET" url = None) ->
                       s_nreq s' = S (s_nreq s))).
  { revert Erun.
    unfold inferPackageFromFunctionName, bind, asks.
    rewrite (length_eqb_0 _ Hne), Hc.
    rewrite (map_shape h name). fold owner repo cacheKey.
    change (note (CallResolve name) h s)
      with (tt, set_calls (CallResolve name :: s_calls s) s).
    cbv beta iota.
    destruct (loadCacheOrEmpty h _) as [cache s1] eqn:E1.
    destruct (getCachePath h s1) as [[cachePath err] s2] eqn:E2.
    destruct (getCachedVersion cache cacheKey h s2) as [[version found] s3] eqn:E3.
    destruct (prefix_states name h s cacheKey cache s1 _ s2 _ s3 E1 E2 E3)
      as (_ & _ & (earlier & C3) & N3).
    rewrite andb_false_r.
    destruct (fetchOrFallback_calls ctx owner repo cacheKey cachePath cache h s3)
      as (later & C4).
    pose proof (fetchOrFallback_nreq ctx owner repo cacheKey cachePath cache h s3) as N4.
    destruct (fetchOrFallback ctx owner repo cacheKey cachePath cache h s3)
      as [[v|e] s4]; unfold ret; simpl in *; intros [= <- <-].
    all: split; [exists later, earlier; rewrite C4, C3; reflexivity|].
    all: intros Hreq; rewrite (N4 Hreq), N3; reflexivity. }
  destruct Hfetch as [Hcalls Hnreq].
  split; [exact Hcalls|]. split; [exact Hnreq|].
  intros cache s1 c entry Hrl Hload Hheap Hentry.
  pose proof (fallback_run ctx name true h s s1 cache c entry
                Hne Hc Hrl Hload Hheap Hentry) as H.
  rewrite Erun in H. apply H.
Qed.

End ResolverClaims.

(** The sample host that answers with a rate limit makes every fetch
    fail with a [RateLimitError]. *)
Lemma sample_rate_limited (ctx : Context) (owner repo : string) (now : Z) (s : State) :
  fetchLatestReleaseVersion ctx owner repo (Sample.host now Sample.rateLimited) s
    = (Err (RateLimitError
              "GitHub API rate limit exceeded: API rate limit exceeded for 203.0.113.7"),
       set_nreq (S (s_nreq s)) (set_calls (CallFetch owner repo :: s_calls s) s)).
Proof. reflexivity. Qed.

(** A host that is always rate-limited, with a stale entry for
    [function-unit-test] in its cache file. *)
Lemma rate_limited_with_entry_witness :
  let h := Sample.host (1000 + 25 * Hour) Sample.rateLimited in
  let s := Sample.state (Some (File Sample.doc)) in
  let '(r, s') := inferPackageFromFunctionName Sample.ctx "function-unit-test" false h s in
  r = Ok (getPackageRegistry h "function-unit-test" +:+ "/" +:+ getDefaultGitHubOwner h
          +:+ "/" +:+ snd (fst (mapFunctionNameToGitHubRepo h "function-unit-test"))
          +:+ ":" +:+ Version (Sample.entry "v0.1.0" 1000))
  /\ s_heap s' !! 0%nat = Some {| Versions := Sample.docStore |}
  /\ s_files s' = s_files s.
Proof.
  intros h s.
  apply (rate_limited_with_entry Sample.ctx "function-unit-test" false h s
           (snd (loadCacheOrEmpty h (snd (note (CallResolve "function-unit-test") h s))))
           0 {| Versions := Sample.docStore |} (Sample.entry "v0.1.0" 1000)).
  - discriminate.
  - reflexivity.
  - intros s0. eexists. eexists. apply sample_rate_limited.
  - vm_compute. reflexivity.
  - vm_compute. reflexivity.
  - vm_compute. reflexivity.
Defined.

Example rate_limited_stale_entry :
  let h := Sample.host (1000 + 25 * Hour) Sample.rateLimited in
  let s := Sample.state (Some (File Sample.doc)) in
  fst (inferPackageFromFunctionName Sample.ctx "function-unit-test" false h s)
    = Ok "xpkg.upbound.io/crossplane-contrib/function-unit-test:v0.1.0"
  /\ s_nreq (snd (inferPackageFromFunctionName Sample.ctx "function-unit-test" false h s))
     = 1%nat.
Proof. split; vm_compute; reflexivity. Qed.

Lemma rate_limited_without_entry_witness :
  let h := Sample.host 2000 Sample.rateLimited in
  let s := Sample.state (Some (File Sample.doc)) in
  (exists text msg,
      fst (inferPackageFromFunctionName Sample.ctx "function-foo" false h s)
        = Err (wrapError text (RateLimitError msg))
      /\ errors_As_RateLimitError (wrapError text (RateLimitError msg)) = Some msg)
  /\ (forall ctx' owner' repo' h' s' e,
        fst (fetchLatestReleaseVersion ctx' owner' repo' h' s') = Err e ->
        (forall msg, e <> RateLimitError msg) ->
        forall text, errors_As_RateLimitError (wrapError text e) = None).
Proof.
  intros h s.
  apply (rate_limited_without_entry Sample.ctx "function-foo" false h s
           (snd (loadCacheOrEmpty h (snd (note (CallResolve "function-foo") h s))))
           0 {| Versions := Sample.docStore |}).
  - discriminate.
  - reflexivity.
  - intros s0. eexists. eexists. apply sample_rate_limited.
  - vm_compute. reflexivity.
  - vm_compute. reflexivity.
  - vm_compute. reflexivity.
Defined.

(** A fresh entry and [forceRefresh]: the client is called all the
    same. *)
Lemma force_refresh_fetches_witness :
  let h := Sample.host 2000 (Sample.released "v0.2.0") in
  let s := Sample.state (Some (File Sample.doc)) in
  let name := "function-unit-test" in
  let owner := getDefaultGitHubOwner h in
  let repo := snd (fst (mapFunctionNameToGitHubRepo h name)) in
  let cacheKey := owner +:+ "/" +:+ repo in
  let '(r, s') := inferPackageFromFunctionName Sample.ctx name true h s in
  (exists later earlier,
      s_calls s' = (later ++ CallFetch owner repo :: earlier
                    ++ CallResolve name :: s_calls s)%list)
  /\ ((forall url, http_NewRequestWithContext "GET" url = None) ->
      s_nreq s' = S (s_nreq s))
  /\ (forall cache s1 c entry,
        (forall s', exists msg s'',
            fetchLatestReleaseVersion Sample.ctx owner repo h s'
              = (Err (RateLimitError msg), s'')) ->
        loadCacheOrEmpty h (snd (note (CallResolve name) h s)) = (cache, s1) ->
        s_heap s1 !! cache = Some c ->
        Versions c !! cacheKey = Some entry ->
        r = Ok (getPackageRegistry h name +:+ "/" +:+ owner +:+ "/" +:+ repo +:+ ":"
                +:+ Version entry)).
Proof.
  intros h s name.
  apply (force_refresh_fetches Sample.ctx name h s).
  - discriminate.
  - reflexivity.
Defined.

(** The same fresh entry, with and without [forceRefresh]: only with it
    is a request made, and the store then holds the new version. *)
Example force_refresh_contrast :
  let h := Sample.host 2000 (Sample.released "v0.2.0") in
  let s := Sample.state (Some (File Sample.doc)) in
  let cached := inferPackageFromFunctionName Sample.ctx "function-unit-test" false h s in
  let forced := inferPackageFromFunctionName Sample.ctx "function-unit-test" true h s in
  fst cached = Ok "xpkg.upbound.io/crossplane-contrib/function-unit-test:v0.1.0"
  /\ s_nreq (snd cached) = 0%nat
  /\ fst forced = Ok "xpkg.upbound.io/crossplane-contrib/function-unit-test:v0.2.0"
  /\ s_nreq (snd forced) = 1%nat
  /\ s_calls (snd forced)
     = [CallSaveCache; CallSetCached "crossplane-contrib/function-unit-test" "v0.2.0";
        CallFetch "crossplane-contrib" "function-unit-test";
        CallGetCached "crossplane-contrib/function-unit-test";
        CallLoadCache; CallResolve "function-unit-test"].
Proof. repeat split; vm_compute; reflexivity. Qed.

(** ** C4: the pipeline walk *)

Example firstSeen_ABA : firstSeen ["A"; "B"; "A"] = ["A"; "B"].
Proof. reflexivity. Qed.

Lemma existsb_eqb_In (n : string) (l : list string) :
  existsb (String.eqb n) l = true <-> In n l.
Proof.
  rewrite existsb_exists. split.
  - intros (x & Hin & E). apply String.eqb_eq in E. subst. exact Hin.
  - intros Hin. exists n. split; [exact Hin | apply String.eqb_refl].
Qed.

Lemma seen_extends (names seen : list string) :
  exists rest, fold_left seeName names seen = (seen ++ rest)%list.
Proof.
  revert seen. induction names as [|n names IH]; intros seen; simpl.
  - exists []. rewrite app_nil_r. reflexivity.
  - unfold seeName at 2. destruct (existsb _ seen); [apply IH|].
    destruct (IH (seen ++ [n])%list) as [rest ->].
    exists (n :: rest). rewrite <- app_assoc. reflexivity.
Qed.

Lemma seen_NoDup (names seen : list string) :
  NoDup seen -> NoDup (fold_left seeName names seen).
Proof.
  revert seen. induction names as [|n names IH]; intros seen Hnd; simpl; [exact Hnd|].
  apply IH. unfold seeName. destruct (existsb _ seen) eqn:E; [exact Hnd|].
  rewrite NoDup_app. split; [exact Hnd|]. split.
  - intros x Hx Hn. apply list_elem_of_In in Hx. apply list_elem_of_In in Hn.
    destruct Hn as [->|[]]. apply existsb_eqb_In in Hx. congruence.
  - apply NoDup_singleton.
Qed.

Lemma seen_In (names seen : list string) (x : string) :
  In x (fold_left seeName names seen) <-> In x seen \/ In x names.
Proof.
  revert seen. induction names as [|n names IH]; intros seen; simpl.
  - tauto.
  - rewrite IH. unfold seeName. destruct (existsb _ seen) eqn:E.
    + apply existsb_eqb_In in E. split; [tauto|].
      intros [H|[<-|H]]; tauto.
    + rewrite in_app_iff. simpl. tauto.
Qed.

Lemma resolvedNames_app (a b : list Call) :
  resolvedNames (a ++ b) = (resolvedNames b ++ resolvedNames a)%list.
Proof.
  induction a as [|c a IH]; simpl; [rewrite app_nil_r; reflexivity|].
  destruct c; try exact IH. rewrite IH, app_assoc. reflexivity.
Qed.

Lemma resolvedNames_quiet (d : list Call) :
  Forall (fun c => isResolve c = false) d -> resolvedNames d = [].
Proof.
  induction 1 as [|c d Hc _ IH]; [reflexivity|].
  destruct c; simpl in *; try exact IH. discriminate.
Qed.

Section Extractor.

Context {lib : GoLib}.

(** One resolution adds exactly one call of the resolver to the
    trace. *)
Lemma infer_calls (ctx : Context) (name : string) (forceRefresh : bool)
  (h : Host) (s : State) :
  exists d,
    s_calls (snd (inferPackageFromFunctionName ctx name forceRefresh h s))
      = (d ++ s_calls s)%list
    /\ resolvedNames d = [name].
Proof.
  unfold inferPackageFromFunctionName.
  match goal with
  | |- context [bind (note ?c) ?k] =>
      destruct (bind_calls_after (note c) k c h s) as (later & E & Hq)
  end.
  - reflexivity.
  - intros _. quiet_tac.
  - exists (later ++ [CallResolve name])%list. split.
    + rewrite E, <- app_assoc. reflexivity.
    + rewrite resolvedNames_app, (resolvedNames_quiet _ Hq). reflexivity.
Qed.

Lemma tracks_empty : tracks ∅ [].
Proof. intros n. rewrite lookup_empty. simpl. split; [discriminate | tauto]. Qed.

Lemma tracks_insert (functionMap : gmap string bool) (seen : list string) (n : string) :
  tracks functionMap seen -> tracks (<[ n := true ]> functionMap) (seen ++ [n])%list.
Proof.
  intros Ht m. rewrite in_app_iff. simpl.
  destruct (decide (n = m)) as [->|Hne].
  - rewrite lookup_insert_eq. simpl. tauto.
  - rewrite lookup_insert_ne by exact Hne. rewrite (Ht m). split; [tauto|].
    intros [H|[H|[]]]; [exact H | contradiction].
Qed.

Lemma tracks_existsb (functionMap : gmap string bool) (seen : list string) (n : string) :
  tracks functionMap seen ->
  existsb (String.eqb n) seen = default false (functionMap !! n).
Proof.
  intros Ht. destruct (default false (functionMap !! n)) eqn:E.
  - apply existsb_eqb_In, Ht, E.
  - destruct (existsb (String.eqb n) seen) eqn:E'; [|reflexivity].
    apply existsb_eqb_In, Ht in E'. congruence.
Qed.

(** The loop in full: when it ends well the resolver has been called
    for every name that comes after [seen] in first-seen order, and for
    no other; when it fails, the last name it called the resolver for is
    the one whose resolution failed, and the calls before are the names
    that come before it. *)
Lemma extractLoop_walk (ctx : Context) (meta : ObjectMeta) (forceRefresh : bool)
  (pipeline : list PipelineStep) :
  forall (functionMap : gmap string bool) (functions : list Function)
         (h : Host) (s : State),
    tracks functionMap (List.map GetName functions) ->
    let target := fold_left seeName (stepNames pipeline) (List.map GetName functions) in
    let run := extractLoop ctx meta forceRefresh pipeline functionMap functions h s in
    exists d,
      s_calls (snd run) = (d ++ s_calls s)%list
      /\ match fst run with
         | Ok fns =>
             target = (List.map GetName functions ++ resolvedNames d)%list
             /\ List.map GetName fns = target
         | Err e =>
             exists pre name post s0 e0,
               target = (List.map GetName functions ++ pre ++ name :: post)%list
               /\ resolvedNames d = (pre ++ [name])%list
               /\ fst (inferPackageFromFunctionName ctx name forceRefresh h s0) = Err e0
               /\ e = wrapError ("cannot determine package for function "
                                 +:+ strconv_Quote name +:+ ": " +:+ Error e0) e0
         end.
Proof.
  induction pipeline as [|step pipeline IH]; intros functionMap functions h s Ht.
  - exists []. simpl. rewrite app_nil_r. repeat split; reflexivity.
  - unfold stepNames in *. simpl.
    destruct (FunctionRef_Name step =? "")%string eqn:Eempty; simpl.
    { apply IH. exact Ht. }
    assert (Hsee : seeName (List.map GetName functions) (FunctionRef_Name step)
                   = if default false (functionMap !! FunctionRef_Name step)
                     then List.map GetName functions
                     else (List.map GetName functions ++ [FunctionRef_Name step])%list).
    { unfold seeName. rewrite (tracks_existsb _ _ _ Ht). reflexivity. }
    rewrite !Hsee. clear Hsee.
    destruct (default false (functionMap !! FunctionRef_Name step)) eqn:Eseen.
    { apply IH. exact Ht. }
    unfold bind.
    destruct (infer_calls ctx (FunctionRef_Name step) forceRefresh h s)
      as (d1 & C1 & R1).
    destruct (inferPackageFromFunctionName ctx (FunctionRef_Name step) forceRefresh h s)
      as [[packageName|err] s1] eqn:Einfer; simpl in C1.
    + set (fn := {| fn_ObjectMeta := SetName meta (FunctionRef_Name step);
                    Spec_Package := packageName |}).
      assert (Ht' : tracks (<[ FunctionRef_Name step := true ]> functionMap)
                      (List.map GetName (functions ++ [fn])%list)).
      { rewrite List.map_app. apply tracks_insert. exact Ht. }
      destruct (IH _ (functions ++ [fn])%list h s1 Ht') as (d2 & C2 & M2).
      rewrite List.map_app in M2.
      change (List.map GetName [fn]) with [FunctionRef_Name step] in M2.
      exists (d2 ++ d1)%list. split.
      * rewrite C2, C1, app_assoc. reflexivity.
      * rewrite resolvedNames_app, R1.
        destruct (fst (extractLoop ctx meta forceRefresh pipeline
                         (<[ FunctionRef_Name step := true ]> functionMap)
                         (functions ++ [fn])%list h s1)) as [fns|e].
        -- destruct M2 as [T2 F2]. split; [|exact F2].
           rewrite T2, <- !app_assoc. reflexivity.
        -- destruct M2 as (pre & name & post & s0 & e0 & T2 & R2 & I2 & E2).
           exists (FunctionRef_Name step :: pre), name, post, s0, e0.
           split; [rewrite T2, <- !app_assoc; reflexivity|].
           split; [rewrite R2; reflexivity|]. split; assumption.
    + destruct (seen_extends (List.filter (fun n => negb (n =? "")%string)
                                (List.map FunctionRef_Name pipeline))
                  (List.map GetName functions ++ [FunctionRef_Name step])%list)
        as [rest Hrest].
      exists d1. unfold ret. simpl. split; [exact C1|].
      exists [], (FunctionRef_Name step), rest, s, err.
      split; [rewrite Hrest, <- app_assoc; reflexivity|].
      split; [exact R1|]. split; [rewrite Einfer|]; reflexivity.
Qed.

(** C4.  For a composition in pipeline mode with a pipeline that is not
    empty, with [names] the distinct non-empty names of the steps in the
    order of their first occurrence: the walk calls the resolver for the
    names of [names] in this order, each once, with no call for an empty
    name or for a name seen before.  When it returns descriptors, it has
    called the resolver for all of [names] and the descriptors bear these
    names in this order.  When it returns an error, either there is no
    name at all, or it has stopped at the first name whose resolution
    failed, after resolving the names before it.  So when no resolution
    of a name of [names] can fail and there is a name, descriptors are
    returned, one for each name.  A pipeline that names ["A"], ["B"],
    ["A"] has the names ["A"] and ["B"], and yields descriptors for
    these two, in this order, and no other. *)
Theorem extraction_first_seen (comp : Composition) (forceRefresh : bool)
  (h : Host) (s : State) :
  Spec_Mode comp = CompositionModePipeline ->
  Spec_Pipeline comp <> [] ->
  let refs := List.map FunctionRef_Name (Spec_Pipeline comp) in
  let names := firstSeen (stepNames (Spec_Pipeline comp)) in
  let ctx := {| ctx_timeout := getGitHubAPITimeout h |} in
  let '(r, s') := ExtractFunctionsFromComposition comp forceRefresh h s in
  NoDup names
  /\ (forall n, In n names <-> n <> "" /\ In n refs)
  /\ (exists d,
        s_calls s' = (d ++ s_calls s)%list
        /\ match r with
           | Ok functions =>
               resolvedNames d = names
               /\ List.map GetName functions = names
               /\ names <> []
           | Err e =>
               (names = [] /\ resolvedNames d = [])
               \/ exists pre name post s0 e0,
                    names = (pre ++ name :: post)%list
                    /\ resolvedNames d = (pre ++ [name])%list
                    /\ fst (inferPackageFromFunctionName ctx name forceRefresh h s0)
                       = Err e0
                    /\ e = wrapError ("cannot determine package for function "
                                      +:+ strconv_Quote name +:+ ": " +:+ Error e0) e0
           end)
  /\ ((forall name s0, In name names ->
         exists pkg, fst (inferPackageFromFunctionName ctx name forceRefresh h s0)
                     = Ok pkg) ->
      names <> [] ->
      exists functions, r = Ok functions /\ List.map GetName functions = names)
  /\ (refs = ["A"; "B"; "A"] ->
      names = ["A"; "B"]
      /\ forall functions, r = Ok functions -> List.map GetName functions = ["A"; "B"]).
Proof.
  intros Hmode Hne refs names ctx.
  assert (Hrun : exists d,
             s_calls (snd (ExtractFunctionsFromComposition comp forceRefresh h s))
               = (d ++ s_calls s)%list
             /\ match fst (ExtractFunctionsFromComposition comp forceRefresh h s) with
                | Ok functions =>
                    resolvedNames d = names
                    /\ List.map GetName functions = names
                    /\ names <> []
                | Err e =>
                    (names = [] /\ resolvedNames d = [])
                    \/ exists pre name post s0 e0,
                         names = (pre ++ name :: post)%list
                         /\ resolvedNames d = (pre ++ [name])%list
                         /\ fst (inferPackageFromFunctionName ctx name forceRefresh h s0)
                            = Err e0
                         /\ e = wrapError ("cannot determine package for function "
                                           +:+ strconv_Quote name +:+ ": " +:+ Error e0) e0
                end).
  { unfold ExtractFunctionsFromComposition.
    rewrite Hmode, String.eqb_refl.
    assert (Hlen : (length (Spec_Pipeline comp) =? 0)%nat = false)
      by (destruct (Spec_Pipeline comp); [congruence | reflexivity]).
    rewrite Hlen. cbn [negb]. unfold bind, asks.
    destruct (extractLoop_walk ctx (comp_ObjectMeta comp) forceRefresh
                (Spec_Pipeline comp) ∅ [] h s tracks_empty) as (d & C & M).
    cbn [List.map app] in M. fold ctx.
    destruct (extractLoop ctx _ _ (Spec_Pipeline comp) ∅ [] h s)
      as [[functions|err] s1]; cbn [fst snd] in C, M.
    - exists d. destruct M as [T F]. fold (firstSeen (stepNames (Spec_Pipeline comp))) in T, F.
      fold names in T, F.
      destruct functions as [|fn functions]; unfold ret; simpl.
      + split; [exact C|]. left. simpl in F. split; [congruence|].
        rewrite <- T. symmetry. exact F.
      + split; [exact C|]. split; [congruence|]. split; [exact F|].
        rewrite <- F. discriminate.
    - exists d. unfold ret. simpl. split; [exact C|]. right. exact M. }
  destruct (ExtractFunctionsFromComposition comp forceRefresh h s) as [r s'].
  simpl in Hrun.
  assert (HABA : refs = ["A"; "B"; "A"] -> names = ["A"; "B"]).
  { intros Hrefs. unfold names, stepNames. fold refs. rewrite Hrefs. reflexivity. }
  split; [apply seen_NoDup, NoDup_nil_2|].
  split.
  { intros n. unfold names, firstSeen, stepNames. rewrite seen_In, filter_In.
    simpl. rewrite negb_true_iff, String.eqb_neq. tauto. }
  split; [exact Hrun|].
  split.
  { intros Hall Hnames. destruct Hrun as (d & _ & M).
    destruct r as [functions|e].
    - exists functions. split; [reflexivity | apply M].
    - exfalso. destruct M as [[Hnil _]|(pre & name & post & s0 & e0 & T & _ & I & _)].
      + contradiction.
      + destruct (Hall name s0) as [pkg Hpkg]; [|congruence].
        rewrite T. apply in_app_iff. right. left. reflexivity. }
  intros Hrefs. split; [exact (HABA Hrefs)|].
  intros functions ->. destruct Hrun as (d & _ & _ & F & _).
  rewrite F. exact (HABA Hrefs).
Qed.

End Extractor.

(** The pipeline ["A"], ["B"], ["A"], with an empty reference in
    between, on a host whose API answers every request with release
    [v1.0.0]: two descriptors, two resolutions, two requests. *)
Example extraction_ABA :
  let comp := Sample.composition ["A"; ""; "B"; "A"] in
  let run := ExtractFunctionsFromComposition comp false
               (Sample.host 2000 (Sample.released "v1.0.0")) (Sample.state None) in
  fst run = Ok [ Sample.descriptor "A" "xpkg.crossplane.io/crossplane-contrib/function-A:v1.0.0";
                 Sample.descriptor "B" "xpkg.crossplane.io/crossplane-contrib/function-B:v1.0.0" ]
  /\ resolvedNames (s_calls (snd run)) = ["A"; "B"]
  /\ s_nreq (snd run) = 2%nat.
Proof. repeat split; vm_compute; reflexivity. Qed.

(** When the resolution of ["B"] fails, no descriptor is returned and
    the walk stops: ["C"] is never resolved. *)
Example extraction_fails_fast :
  let comp := Sample.composition ["xpkg.upbound.io/upbound/function-a:v1"; "B"; "C"] in
  let run := ExtractFunctionsFromComposition comp false
               (Sample.host 2000 Sample.rateLimited) (Sample.state None) in
  (exists e, fst run = Err e)
  /\ resolvedNames (s_calls (snd run)) = ["xpkg.upbound.io/upbound/function-a:v1"; "B"].
Proof. split; [eexists|]; vm_compute; reflexivity. Qed.

(** * More of the code *)

(** ** Strings, continued *)

Lemma append_assoc (a b c : string) : (a +:+ b) +:+ c = a +:+ b +:+ c.
Proof.
  induction a as [|x a IH]; [reflexivity|].
  change (String x ((a +:+ b) +:+ c) = String x (a +:+ b +:+ c)). f_equal. exact IH.
Qed.

Lemma append_nil_r (a : string) : a +:+ "" = a.
Proof.
  induction a as [|x a IH]; [reflexivity|].
  change (String x (a +:+ "") = String x a). f_equal. exact IH.
Qed.

Lemma Contains_step (c : ascii) (s sub : string) :
  strings.Contains (String c s) sub
    = if strings.HasPrefix (String c s) sub then true else strings.Contains s sub.
Proof. reflexivity. Qed.

Lemma Contains_prefix (s sub : string) :
  strings.HasPrefix s sub = true -> strings.Contains s sub = true.
Proof.
  intros H. destruct s as [|c s].
  - unfold strings.Contains. rewrite H. reflexivity.
  - rewrite Contains_step, H. reflexivity.
Qed.

(** [strings.Contains] finds a substring exactly when there is one. *)
Lemma Contains_iff (s sub : string) :
  strings.Contains s sub = true <-> exists pre post, s = pre +:+ sub +:+ post.
Proof.
  split.
  - induction s as [|c s IH].
    + simpl. destruct (strings.HasPrefix "" sub) eqn:E; [|discriminate].
      intros _. apply HasPrefix_inv in E. destruct E as [rest E].
      exists "", rest. exact E.
    + rewrite Contains_step.
      destruct (strings.HasPrefix (String c s) sub) eqn:E.
      * intros _. apply HasPrefix_inv in E. destruct E as [rest E].
        exists "", rest. exact E.
      * intros H. destruct (IH H) as (pre & post & ->).
        exists (String c pre), post. reflexivity.
  - intros (pre & post & ->). induction pre as [|c pre IH].
    + apply Contains_prefix. apply (HasPrefix_app sub post).
    + change (String c pre +:+ sub +:+ post) with (String c (pre +:+ sub +:+ post)).
      rewrite Contains_step, IH. destruct (strings.HasPrefix _ sub); reflexivity.
Qed.

Lemma Contains_longer (s a b : string) :
  strings.Contains s (a +:+ b) = true -> strings.Contains s b = true.
Proof.
  rewrite !Contains_iff. intros (pre & post & ->).
  exists (pre +:+ a), post. rewrite !append_assoc. reflexivity.
Qed.

Lemma HasPrefix_function_not_contrib (s : string) :
  strings.HasPrefix ("function-" +:+ s) "crossplane-contrib-function-" = false.
Proof. reflexivity. Qed.

Section MoreNameMapper.

Context {lib : GoLib}.

(** X1.  The repository a name maps to always starts with ["function-"]
    and is a fixed point of the mapping; so the three spellings
    [base], ["function-" ++ base] and
    ["crossplane-contrib-function-" ++ base] of a name share one
    repository, hence one cache key. *)
Theorem mapped_repo_normal_form (h : Host) (name : string) :
  let repo := snd (fst (mapFunctionNameToGitHubRepo h name)) in
  strings.HasPrefix repo "function-" = true
  /\ mapFunctionNameToGitHubRepo h repo = mapFunctionNameToGitHubRepo h name
  /\ mapFunctionNameToGitHubRepo h ("crossplane-contrib-function-" +:+ name)
     = mapFunctionNameToGitHubRepo h ("function-" +:+ name)
  /\ (strings.HasPrefix name "crossplane-contrib-function-" = false ->
      strings.HasPrefix name "function-" = false ->
      mapFunctionNameToGitHubRepo h ("function-" +:+ name)
      = mapFunctionNameToGitHubRepo h name).
Proof.
  unfold mapFunctionNameToGitHubRepo. cbn [fst snd].
  assert (Hfix : forall r, strings.HasPrefix r "function-" = true ->
            (if strings.HasPrefix r "crossplane-contrib-function-"
             then "function-" +:+ strings.TrimPrefix r "crossplane-contrib-function-"
             else if strings.HasPrefix r "function-" then r else "function-" +:+ r) = r).
  { intros r Hr. apply HasPrefix_inv in Hr. destruct Hr as [rest ->].
    rewrite HasPrefix_function_not_contrib, HasPrefix_app. reflexivity. }
  assert (Hrepo : strings.HasPrefix
            (if strings.HasPrefix name "crossplane-contrib-function-"
             then "function-" +:+ strings.TrimPrefix name "crossplane-contrib-function-"
             else if strings.HasPrefix name "function-" then name else "function-" +:+ name)
            "function-" = true).
  { destruct (strings.HasPrefix name "crossplane-contrib-function-").
    - apply HasPrefix_app.
    - destruct (strings.HasPrefix name "function-") eqn:E; [exact E | apply HasPrefix_app]. }
  split; [exact Hrepo|].
  split; [rewrite (Hfix _ Hrepo); reflexivity|].
  split.
  { rewrite HasPrefix_app, TrimPrefix_app, HasPrefix_function_not_contrib, HasPrefix_app.
    reflexivity. }
  intros -> ->. rewrite HasPrefix_function_not_contrib, HasPrefix_app. reflexivity.
Qed.

End MoreNameMapper.

(** ** The cache, key by key *)

Section MoreCache.

Context {lib : GoLib}.

(** X2.  [get] answers [found = true] exactly when the store has an entry
    under the key whose age, at the clock reading of the call, is at
    most the TTL (an age equal to the TTL is still a hit); the version is
    then the entry's, and [""] on a miss.  Neither heap nor files
    change. *)
Theorem getCachedVersion_hit_iff (h : Host) (s : State) (cache : nat)
  (c : FunctionVersionCache) (cacheKey : string) :
  s_heap s !! cache = Some c ->
  let '((version, found), s') := getCachedVersion cache cacheKey h s in
  (found = true <->
     exists entry, Versions c !! cacheKey = Some entry
       /\ time_Sub (h_clock h (s_ticks s)) (FetchedAt entry) <= getCacheExpiration h)
  /\ (found = true ->
      exists entry, Versions c !! cacheKey = Some entry /\ version = Version entry)
  /\ (found = false -> version = "")
  /\ s_heap s' = s_heap s
  /\ s_files s' = s_files s.
Proof.
  intros Hc.
  unfold getCachedVersion, time_Since, time_Now, bind, note, deref, asks, ret.
  simpl. rewrite Hc. simpl.
  destruct (Versions c !! cacheKey) as [entry|] eqn:He.
  - destruct (_ >? _) eqn:E; simpl.
    + rewrite Z.gtb_ltb in E. apply Z.ltb_lt in E. simpl in E.
      split; [|repeat split; congruence].
      split; [discriminate|]. intros (e & [= <-] & Hage). lia.
    + rewrite Z.gtb_ltb in E. apply Z.ltb_ge in E. simpl in E.
      split; [|repeat split; try congruence; exists entry; split; reflexivity].
      split; [|reflexivity]. intros _. exists entry. split; [reflexivity | exact E].
  - simpl. split; [|repeat split; congruence].
    split; [discriminate|]. intros (e & He' & _). discriminate.
Qed.

(** X3.  [set] puts the version under the key with the clock reading of
    the call as its fetch time, replacing what was there, and changes
    nothing else: every other key of the store, every other object of the
    heap and every file stay as they were. *)
Theorem setCachedVersion_effect (h : Host) (s : State) (cache : nat)
  (c : FunctionVersionCache) (cacheKey version : string) :
  s_heap s !! cache = Some c ->
  let s' := snd (setCachedVersion cache cacheKey version h s) in
  exists c',
    s_heap s' !! cache = Some c'
    /\ Versions c' !! cacheKey
       = Some {| Version := version; FetchedAt := h_clock h (s_ticks s) |}
    /\ (forall k, k <> cacheKey -> Versions c' !! k = Versions c !! k)
    /\ (forall p, p <> cache -> s_heap s' !! p = s_heap s !! p)
    /\ length (s_heap s') = length (s_heap s)
    /\ s_files s' = s_files s.
Proof.
  intros Hc.
  unfold setCachedVersion, time_Now, bind, note, deref, store, ret. simpl.
  rewrite Hc. simpl. eexists. split.
  { apply list_lookup_insert_eq. eapply lookup_lt_Some. exact Hc. }
  simpl. split; [apply lookup_insert_eq|].
  split; [intros k Hk; apply lookup_insert_ne; congruence|].
  split; [intros p Hp; apply list_lookup_insert_ne; congruence|].
  split; [apply length_insert | reflexivity].
Qed.

End MoreCache.

Lemma getCachedVersion_hit_iff_witness :
  let c := {| Versions := Sample.docStore |} in
  let s := set_heap [c] (Sample.state None) in
  let h := Sample.host (1000 + 24 * Hour) Sample.rateLimited in
  let '((version, found), s') :=
    getCachedVersion 0 "crossplane-contrib/function-unit-test" h s in
  (found = true <->
     exists entry, Versions c !! "crossplane-contrib/function-unit-test" = Some entry
       /\ time_Sub (h_clock h (s_ticks s)) (FetchedAt entry) <= getCacheExpiration h)
  /\ (found = true ->
      exists entry, Versions c !! "crossplane-contrib/function-unit-test" = Some entry
        /\ version = Version entry)
  /\ (found = false -> version = "")
  /\ s_heap s' = s_heap s
  /\ s_files s' = s_files s.
Proof.
  apply (getCachedVersion_hit_iff (Sample.host (1000 + 24 * Hour) Sample.rateLimited)
           (set_heap [{| Versions := Sample.docStore |}] (Sample.state None)) 0
           {| Versions := Sample.docStore |} "crossplane-contrib/function-unit-test").
  reflexivity.
Defined.

(** An entry exactly as old as the TTL is a hit; one nanosecond older, a
    miss. *)
Example getCachedVersion_boundary :
  let s := set_heap [{| Versions := Sample.docStore |}] (Sample.state None) in
  fst (getCachedVersion 0 "crossplane-contrib/function-unit-test"
         (Sample.host (1000 + 24 * Hour) Sample.rateLimited) s) = ("v0.1.0", true)
  /\ fst (getCachedVersion 0 "crossplane-contrib/function-unit-test"
         (Sample.host (1001 + 24 * Hour) Sample.rateLimited) s) = ("", false).
Proof. split; vm_compute; reflexivity. Qed.

Lemma setCachedVersion_effect_witness :
  let c := {| Versions := Sample.docStore |} in
  let s := set_heap [c] (Sample.state None) in
  let h := Sample.host 5000 Sample.rateLimited in
  let s' := snd (setCachedVersion 0 "crossplane-contrib/function-foo" "v1.2.3" h s) in
  exists c',
    s_heap s' !! 0%nat = Some c'
    /\ Versions c' !! "crossplane-contrib/function-foo"
       = Some {| Version := "v1.2.3"; FetchedAt := h_clock h (s_ticks s) |}
    /\ (forall k, k <> "crossplane-contrib/function-foo" ->
        Versions c' !! k = Versions c !! k)
    /\ (forall p, p <> 0%nat -> s_heap s' !! p = s_heap s !! p)
    /\ length (s_heap s') = length (s_heap s)
    /\ s_files s' = s_files s.
Proof.
  apply (setCachedVersion_effect (Sample.host 5000 Sample.rateLimited)
           (set_heap [{| Versions := Sample.docStore |}] (Sample.state None)) 0
           {| Versions := Sample.docStore |} "crossplane-contrib/function-foo" "v1.2.3").
  reflexivity.
Defined.

(** ** The release client *)

Section MoreClient.

Context {lib : GoLib}.

(** The second test of the 403 branch adds nothing to the first. *)
Lemma rate_limit_marker (body : string) :
  strings.Contains body "rate limit" || strings.Contains body "API rate limit"
  = strings.Contains body "rate limit".
Proof.
  destruct (strings.Contains body "rate limit") eqn:E; [reflexivity|]. simpl.
  destruct (strings.Contains body "API rate limit") eqn:E'; [|reflexivity].
  apply (Contains_longer body "API " "rate limit") in E'. congruence.
Qed.

(** The state after a call of the client. *)
Lemma fetch_state (ctx : Context) (owner repo : string) (h : Host) (s : State) :
  let url := getGitHubAPIURL h +:+ "/repos/" +:+ owner +:+ "/" +:+ repo
             +:+ "/releases/latest" in
  snd (fetchLatestReleaseVersion ctx owner repo h s)
  = set_nreq (match http_NewRequestWithContext "GET" url with
              | Some _ => s_nreq s
              | None => S (s_nreq s)
              end)
      (set_calls (CallFetch owner repo :: s_calls s) s).
Proof.
  unfold fetchLatestReleaseVersion, bind, note, asks, ret, http_Do. simpl.
  repeat match goal with
         | |- context [match ?x with _ => _ end] => destruct x; simpl
         end; reflexivity.
Qed.

(** X4.  What a call of the client leaves behind, whatever the answer: its
    call in the trace and, unless the request could not be built, one
    more request made; files, directories, heap, clock and standard
    error are as before.  The client makes one request at most and never
    tries again. *)
Theorem fetch_effects (ctx : Context) (owner repo : string) (h : Host) (s : State) :
  let url := getGitHubAPIURL h +:+ "/repos/" +:+ owner +:+ "/" +:+ repo
             +:+ "/releases/latest" in
  let s' := snd (fetchLatestReleaseVersion ctx owner repo h s) in
  s_files s' = s_files s /\ s_dirs s' = s_dirs s /\ s_heap s' = s_heap s
  /\ s_ticks s' = s_ticks s /\ s_stderr s' = s_stderr s
  /\ s_calls s' = CallFetch owner repo :: s_calls s
  /\ s_nreq s' = match http_NewRequestWithContext "GET" url with
                 | Some _ => s_nreq s
                 | None => S (s_nreq s)
                 end.
Proof.
  intros url s'. subst s'. rewrite fetch_state. fold url. repeat split.
Qed.

(** X5.  When the request can be built, the client returns a version
    exactly when the answer has status 200 and decodes to a release with
    a tag, and the version is that tag, never empty; it returns a
    [RateLimitError] exactly when the answer has status 403 and its body
    contains ["rate limit"]. *)
Theorem fetch_classification (ctx : Context) (owner repo : string) (h : Host)
  (s : State) :
  let url := getGitHubAPIURL h +:+ "/repos/" +:+ owner +:+ "/" +:+ repo
             +:+ "/releases/latest" in
  let req :=
    {| req_ctx := ctx; req_method := "GET"; req_url := url;
       req_Accept := "application/vnd.github.v3+json";
       req_Authorization :=
         if negb (getGitHubToken h =? "")%string
         then Some ("Bearer " +:+ getGitHubToken h) else None;
       req_Timeout := getGitHubAPITimeout h |} in
  let answer := h_remote h (s_nreq s) req in
  let r := fst (fetchLatestReleaseVersion ctx owner repo h s) in
  http_NewRequestWithContext "GET" url = None ->
  (forall v,
      r = Ok v <->
      v <> "" /\ exists body release,
        answer = Response 200 body /\ json_Decode body = Done release
        /\ TagName release = v)
  /\ (forall msg,
        r = Err (RateLimitError msg) <->
        exists body,
          answer = Response 403 body /\ strings.Contains body "rate limit" = true
          /\ msg = "GitHub API rate limit exceeded: " +:+ body).
Proof.
  intros url req answer r Hreq. subst r.
  unfold fetchLatestReleaseVersion, bind, note, asks, ret, http_Do. simpl.
  fold url. rewrite Hreq. simpl. fold req. fold answer.
  destruct answer as [msg0|StatusCode body]; simpl.
  { split; intros x; (split; [discriminate|]).
    - intros (_ & b & rel & [=] & _).
    - intros (b & [=] & _). }
  destruct (StatusCode =? 403) eqn:E403.
  { apply Z.eqb_eq in E403. subst StatusCode. rewrite rate_limit_marker.
    destruct (strings.Contains body "rate limit") eqn:Emark; simpl.
    - split; intros x.
      + split; [discriminate|]. intros (_ & b & rel & [=] & _).
      + split.
        * intros [= <-]. exists body. repeat split. exact Emark.
        * intros (b & [= <-] & _ & ->). reflexivity.
    - split; intros x.
      + split; [discriminate|]. intros (_ & b & rel & [=] & _).
      + split; [discriminate|]. intros (b & [= <-] & Hm & _). congruence. }
  apply Z.eqb_neq in E403.
  destruct (StatusCode =? 200) eqn:E200; simpl.
  - apply Z.eqb_eq in E200. subst StatusCode.
    destruct (json_Decode body) as [release|msg0] eqn:Edec; simpl.
    + destruct (TagName release =? "")%string eqn:Etag; simpl.
      * apply String.eqb_eq in Etag. split; intros x.
        -- split; [discriminate|].
           intros (Hx & b & rel & [= <-] & Hd & <-). rewrite Edec in Hd.
           injection Hd as <-. congruence.
        -- split; [discriminate|]. intros (b & [=] & _).
      * apply String.eqb_neq in Etag. split; intros x.
        -- split.
           ++ intros [= <-]. split; [exact Etag|]. exists body, release. repeat split.
              exact Edec.
           ++ intros (_ & b & rel & [= <-] & Hd & <-). rewrite Edec in Hd.
              injection Hd as <-. reflexivity.
        -- split; [discriminate|]. intros (b & [=] & _).
    + split; intros x.
      * split; [discriminate|].
        intros (_ & b & rel & [= <-] & Hd & _). congruence.
      * split; [discriminate|]. intros (b & [=] & _).
  - apply Z.eqb_neq in E200. split; intros x.
    + split; [discriminate|]. intros (_ & b & rel & [= -> _] & _). congruence.
    + split; [discriminate|]. intros (b & [= -> _] & _). congruence.
Qed.

End MoreClient.

Lemma fetch_classification_witness :
  let h := Sample.host 0 (Sample.released "v1.0.0") in
  let s := Sample.state None in
  let url := getGitHubAPIURL h +:+ "/repos/" +:+ "crossplane-contrib" +:+ "/"
             +:+ "function-foo" +:+ "/releases/latest" in
  let req :=
    {| req_ctx := Sample.ctx; req_method := "GET"; req_url := url;
       req_Accept := "application/vnd.github.v3+json";
       req_Authorization :=
         if negb (getGitHubToken h =? "")%string
         then Some ("Bearer " +:+ getGitHubToken h) else None;
       req_Timeout := getGitHubAPITimeout h |} in
  let answer := h_remote h (s_nreq s) req in
  let r := fst (fetchLatestReleaseVersion Sample.ctx "crossplane-contrib"
                  "function-foo" h s) in
  (forall v,
      r = Ok v <->
      v <> "" /\ exists body release,
        answer = Response 200 body /\ json_Decode body = Done release
        /\ TagName release = v)
  /\ (forall msg,
        r = Err (RateLimitError msg) <->
        exists body,
          answer = Response 403 body /\ strings.Contains body "rate limit" = true
          /\ msg = "GitHub API rate limit exceeded: " +:+ body).
Proof.
  apply (fetch_classification Sample.ctx "crossplane-contrib" "function-foo"
           (Sample.host 0 (Sample.released "v1.0.0")) (Sample.state None)).
  reflexivity.
Defined.

(** A 403 without the marker, a 404, a 200 that does not decode and a
    200 with no tag are plain errors. *)
Example fetch_plain_errors :
  let run answer := fst (fetchLatestReleaseVersion Sample.ctx "crossplane-contrib"
                           "function-foo" (Sample.host 0 answer) (Sample.state None)) in
  run (Response 403 "Forbidden")
    = Err (errorString "GitHub API returned status 403: Forbidden")
  /\ run (Response 404 "Not Found")
    = Err (errorString "GitHub API returned status 404: Not Found")
  /\ run (Response 200 "{")
    = Err (wrapError "failed to decode response: invalid character"
             (errorString "invalid character"))
  /\ run (DoError "context deadline exceeded")
    = Err (wrapError "failed to fetch release: context deadline exceeded"
             (errorString "context deadline exceeded")).
Proof. repeat split; vm_compute; reflexivity. Qed.

(** ** More frames *)

Lemma calm_refl s : calm s s.
Proof. repeat split. Qed.

Lemma calm_trans s1 s2 s3 : calm s1 s2 -> calm s2 s3 -> calm s1 s3.
Proof. intros (?&?&?&?) (?&?&?&?). repeat split; congruence. Qed.

Lemma calm_note c : respects calm (note c).
Proof. intros h s. repeat split. Qed.

Lemma calm_deref p : respects calm (deref p).
Proof. intros h s. repeat split. Qed.

Lemma calm_store p c : respects calm (store p c).
Proof. intros h s. repeat split. Qed.

Lemma calm_new c : respects calm (new c).
Proof. intros h s. repeat split. Qed.

Lemma calm_MkdirAll p : respects calm (fs_MkdirAll p).
Proof. intros h s. unfold fs_MkdirAll. destruct (h_mkdir_ok h p); repeat split. Qed.

Lemma calm_ReadFile p : respects calm (afero_ReadFile p).
Proof.
  intros h s. unfold afero_ReadFile.
  destruct (s_files s !! p) as [[?|?]|]; repeat split.
Qed.

#[global] Hint Resolve calm_note calm_deref calm_store calm_new calm_MkdirAll
  calm_ReadFile : frame.

Ltac calm_tac := respects_tac calm_refl calm_trans.

Section MoreFrames.

Context {lib : GoLib}.

Lemma calm_getCachePath : respects calm getCachePath.
Proof. unfold getCachePath. calm_tac. Qed.

Hint Resolve calm_getCachePath : frame.

Lemma calm_loadCache : respects calm loadCache.
Proof. unfold loadCache. calm_tac. Qed.

Hint Resolve calm_loadCache : frame.

Lemma calm_loadCacheOrEmpty : respects calm loadCacheOrEmpty.
Proof. unfold loadCacheOrEmpty. calm_tac. Qed.

End MoreFrames.

#[global] Hint Resolve calm_getCachePath calm_loadCache calm_loadCacheOrEmpty : frame.

(** ** The resolver, outcome by outcome *)

Section MoreResolver.

Context {lib : GoLib}.

Lemma getCachedVersion_run (cache : nat) (cacheKey : string) (h : Host) (s : State)
  (c : FunctionVersionCache) :
  s_heap s !! cache = Some c ->
  getCachedVersion cache cacheKey h s
  = match Versions c !! cacheKey with
    | None => (("", false), set_calls (CallGetCached cacheKey :: s_calls s) s)
    | Some entry =>
        (if time_Sub (h_clock h (s_ticks s)) (FetchedAt entry) >? getCacheExpiration h
         then ("", false) else (Version entry, true),
         set_ticks (S (s_ticks s)) (set_calls (CallGetCached cacheKey :: s_calls s) s))
    end.
Proof.
  intros Hc.
  unfold getCachedVersion, time_Since, time_Now, bind, note, deref, asks, ret.
  simpl. rewrite Hc. simpl.
  destruct (Versions c !! cacheKey) as [entry|]; [|reflexivity].
  destruct (_ >? _); reflexivity.
Qed.

Lemma fresh_gtb (h : Host) (now : Z) (c : FunctionVersionCache) (cacheKey : string)
  (entry : CacheEntry) :
  Versions c !! cacheKey = Some entry ->
  (time_Sub now (FetchedAt entry) >? getCacheExpiration h) = false
  <-> fresh h now c cacheKey.
Proof.
  intros He. rewrite Z.gtb_ltb, Z.ltb_ge. unfold fresh. split.
  - intros H. exists entry. split; assumption.
  - intros (e & He' & H). congruence.
Qed.

(** The resolution of a plain name, up to its cache check. *)
Lemma infer_plain (ctx : Context) (name : string) (forceRefresh : bool)
  (h : Host) (s s1 : State) (cache : nat) :
  name <> "" ->
  strings.Contains name "/" || strings.Contains name ":" = false ->
  loadCacheOrEmpty h (snd (note (CallResolve name) h s)) = (cache, s1) ->
  exists s2,
    calm s s2 /\ s_heap s2 = s_heap s1
    /\ inferPackageFromFunctionName ctx name forceRefresh h s
       = let '((version, found), s3) := getCachedVersion cache (keyOf h name) h s2 in
         let '(r, s4) :=
           (if found && negb forceRefresh
            then bind (eprint ("INFO: Using cached function version " +:+ keyOf h name
                               +:+ ":" +:+ version +:+ " from "
                               +:+ fst (fst (getCachePath h s)) +:+ nl))
                      (fun _ => ret (Ok version))
            else fetchOrFallback ctx (getDefaultGitHubOwner h)
                   (snd (fst (mapFunctionNameToGitHubRepo h name))) (keyOf h name)
                   (fst (fst (getCachePath h s))) cache) h s3 in
         match r with
         | Ok version => (Ok (coordinate h name version), s4)
         | Err err => (Err err, s4)
         end.
Proof.
  intros Hne Hc Hload.
  destruct (getCachePath_run h s1 s) as (s2 & Hpath & Hf2 & Hh2).
  exists s2. split; [|split; [exact Hh2|]].
  - apply calm_trans with s1.
    + pose proof (respects_run calm _ _ _ _ _ calm_loadCacheOrEmpty Hload) as H.
      exact H.
    + eapply (respects_run calm); [apply calm_getCachePath | exact Hpath].
  - unfold keyOf, coordinate.
    set (repo := snd (fst (mapFunctionNameToGitHubRepo h name))).
    unfold inferPackageFromFunctionName, bind, asks.
    rewrite (length_eqb_0 _ Hne), Hc.
    rewrite (map_shape h name). fold repo.
    change (note (CallResolve name) h s)
      with (tt, set_calls (CallResolve name :: s_calls s) s) in *.
    cbn [snd] in Hload. cbv beta iota. rewrite Hload, Hpath.
    destruct (getCachedVersion cache _ h s2) as [[version found] s3].
    destruct (found && negb forceRefresh).
    + unfold eprint, ret. reflexivity.
    + destruct (fetchOrFallback ctx _ repo _ _ cache h s3) as [[v|e] s4]; reflexivity.
Qed.

(** Loading, or starting empty: a new object at the end of the heap
    that holds what is on disk. *)
Lemma loadCacheOrEmpty_run (h : Host) (s : State) :
  exists s1,
    loadCacheOrEmpty h s = (length (s_heap s), s1)
    /\ calm s s1
    /\ s_heap s1 = (s_heap s ++ [onDisk h s])%list.
Proof.
  destruct (loadCacheOrEmpty h s) as [cache s1] eqn:Erun.
  pose proof (respects_run calm _ _ _ _ _ calm_loadCacheOrEmpty Erun) as Hcalm.
  exists s1. revert Erun.
  unfold loadCacheOrEmpty, loadCache, bind, note. simpl.
  destruct (getCachePath_run h (set_calls (CallLoadCache :: s_calls s) s) s)
    as (sg & -> & Fg & Hg).
  simpl in Fg, Hg. unfold onDisk, afero_ReadFile. rewrite Fg.
  destruct (s_files s !! (getCachePath h s).1.1) as [[data|msg]|]; simpl.
  - unfold decoded. destruct (json_Unmarshal data) as [versions|]; simpl;
      unfold new, ret; simpl; rewrite Hg; intros [= <- <-];
      (split; [reflexivity|]); (split; [exact Hcalm | reflexivity]).
  - unfold new. simpl. rewrite Hg. intros [= <- <-].
    split; [reflexivity|]. split; [exact Hcalm | reflexivity].
  - unfold new, ret. simpl. rewrite Hg. intros [= <- <-].
    split; [reflexivity|]. split; [exact Hcalm | reflexivity].
Qed.

Lemma onDisk_files (h : Host) (s s' : State) :
  s_files s' = s_files s -> onDisk h s' = onDisk h s.
Proof.
  intros Hf. unfold onDisk. rewrite Hf.
  rewrite (f_equal fst (proj2 (getCachePath_result h s' s))). reflexivity.
Qed.

(** The start of a resolution: the store it works on is a new object
    that holds what is on disk. *)
Lemma infer_start (name : string) (h : Host) (s : State) :
  exists s1,
    loadCacheOrEmpty h (snd (note (CallResolve name) h s)) = (length (s_heap s), s1)
    /\ s_heap s1 = (s_heap s ++ [onDisk h s])%list
    /\ s_heap s1 !! length (s_heap s) = Some (onDisk h s).
Proof.
  destruct (loadCacheOrEmpty_run h (snd (note (CallResolve name) h s)))
    as (s1 & E & _ & Hh).
  rewrite (onDisk_files h s (snd (note (CallResolve name) h s)) eq_refl) in Hh.
  simpl in E, Hh.
  exists s1. split; [exact E|]. split; [exact Hh|].
  rewrite Hh. apply list_lookup_middle. reflexivity.
Qed.

(** A fresh entry and no forced refresh. *)
Lemma infer_hit (ctx : Context) (name : string) (h : Host) (s : State)
  (entry : CacheEntry) :
  name <> "" ->
  strings.Contains name "/" || strings.Contains name ":" = false ->
  Versions (onDisk h s) !! keyOf h name = Some entry ->
  time_Sub (h_clock h (s_ticks s)) (FetchedAt entry) <= getCacheExpiration h ->
  exists s',
    inferPackageFromFunctionName ctx name false h s
      = (Ok (coordinate h name (Version entry)), s')
    /\ s_nreq s' = s_nreq s
    /\ s_files s' = s_files s
    /\ s_heap s' = (s_heap s ++ [onDisk h s])%list
    /\ s_ticks s' = S (s_ticks s)
    /\ exists line, s_stderr s' = (s_stderr s ++ [line])%list.
Proof.
  intros Hne Hc Hentry Hage.
  destruct (infer_start name h s) as (s1 & Hload & Hh1 & Hheap).
  destruct (infer_plain ctx name false h s s1 _ Hne Hc Hload)
    as (s2 & (Hf & Ht & Hn & He) & Hh & ->).
  rewrite (getCachedVersion_run _ _ h s2 (onDisk h s)) by (rewrite Hh; exact Hheap).
  rewrite Hentry, Ht.
  assert (Hfresh : (time_Sub (h_clock h (s_ticks s)) (FetchedAt entry)
                    >? getCacheExpiration h) = false).
  { rewrite Z.gtb_ltb. apply Z.ltb_ge. exact Hage. }
  rewrite Hfresh. unfold bind, eprint, ret. simpl.
  eexists. split; [reflexivity|]. simpl.
  rewrite Hn, Hf, Hh, He, Hh1. repeat split. eexists. reflexivity.
Qed.

(** X6.  A fresh entry on disk and no forced refresh: the resolution
    returns the coordinate with the entry's version, makes no request,
    changes no file, leaves the objects of the heap alone (its own store
    is a new one), and reports the cached version with one line on
    standard error. *)
Theorem fresh_hit_no_request (ctx : Context) (name : string) (h : Host) (s : State)
  (entry : CacheEntry) :
  name <> "" ->
  strings.Contains name "/" || strings.Contains name ":" = false ->
  Versions (onDisk h s) !! keyOf h name = Some entry ->
  time_Sub (h_clock h (s_ticks s)) (FetchedAt entry) <= getCacheExpiration h ->
  let '(r, s') := inferPackageFromFunctionName ctx name false h s in
  r = Ok (coordinate h name (Version entry))
  /\ s_nreq s' = s_nreq s
  /\ s_files s' = s_files s
  /\ s_heap s' = (s_heap s ++ [onDisk h s])%list
  /\ exists line, s_stderr s' = (s_stderr s ++ [line])%list.
Proof.
  intros Hne Hc Hentry Hage.
  destruct (infer_hit ctx name h s entry Hne Hc Hentry Hage)
    as (s' & -> & Hn & Hf & Hh & _ & He).
  repeat split; assumption.
Qed.

End MoreResolver.

Lemma fresh_hit_no_request_witness :
  let h := Sample.host 2000 (Sample.released "v0.2.0") in
  let s := Sample.state (Some (File Sample.doc)) in
  let name := "function-unit-test" in
  let '(r, s') := inferPackageFromFunctionName Sample.ctx name false h s in
  r = Ok (coordinate h name (Version (Sample.entry "v0.1.0" 1000)))
  /\ s_nreq s' = s_nreq s
  /\ s_files s' = s_files s
  /\ s_heap s' = (s_heap s ++ [onDisk h s])%list
  /\ exists line, s_stderr s' = (s_stderr s ++ [line])%list.
Proof.
  intros h s name.
  apply (fresh_hit_no_request Sample.ctx name h s (Sample.entry "v0.1.0" 1000)).
  - discriminate.
  - reflexivity.
  - vm_compute. reflexivity.
  - vm_compute. discriminate.
Defined.

Section MoreResolver2.

Context {lib : GoLib}.

(** The resolution of a plain name whose cache check does not end it:
    the fetch-or-fallback step decides. *)
Lemma infer_refetch_at (ctx : Context) (name : string) (forceRefresh : bool)
  (h : Host) (s s1 : State) (cache : nat) (c : FunctionVersionCache) :
  name <> "" ->
  strings.Contains name "/" || strings.Contains name ":" = false ->
  loadCacheOrEmpty h (snd (note (CallResolve name) h s)) = (cache, s1) ->
  s_heap s1 !! cache = Some c ->
  forceRefresh = true \/ ~ fresh h (h_clock h (s_ticks s)) c (keyOf h name) ->
  exists s3,
    s_files s3 = s_files s /\ s_nreq s3 = s_nreq s /\ s_stderr s3 = s_stderr s
    /\ s_heap s3 = s_heap s1
    /\ s_ticks s3 = match Versions c !! keyOf h name with
                    | Some _ => S (s_ticks s)
                    | None => s_ticks s
                    end
    /\ inferPackageFromFunctionName ctx name forceRefresh h s
       = let '(r, s4) :=
           fetchOrFallback ctx (getDefaultGitHubOwner h)
             (snd (fst (mapFunctionNameToGitHubRepo h name))) (keyOf h name)
             (fst (fst (getCachePath h s))) cache h s3 in
         match r with
         | Ok version => (Ok (coordinate h name version), s4)
         | Err err => (Err err, s4)
         end.
Proof.
  intros Hne Hc Hload Hheap Hcond.
  destruct (infer_plain ctx name forceRefresh h s s1 cache Hne Hc Hload)
    as (s2 & (Hf & Ht & Hn & He) & Hh & ->).
  rewrite (getCachedVersion_run cache _ h s2 c) by (rewrite Hh; exact Hheap).
  rewrite Ht.
  destruct (Versions c !! keyOf h name) as [entry|] eqn:Hentry.
  - exists (set_ticks (S (s_ticks s))
              (set_calls (CallGetCached (keyOf h name) :: s_calls s2) s2)).
    simpl. repeat split; try assumption.
    destruct (_ >? _) eqn:E; [reflexivity|].
    destruct Hcond as [->|Hnf]; [reflexivity|].
    exfalso. apply Hnf. apply (fresh_gtb h _ c _ entry Hentry). exact E.
  - exists (set_calls (CallGetCached (keyOf h name) :: s_calls s2) s2).
    simpl. repeat split; assumption.
Qed.

Lemma infer_refetch (ctx : Context) (name : string) (forceRefresh : bool)
  (h : Host) (s s1 : State) (cache : nat) (c : FunctionVersionCache) :
  name <> "" ->
  strings.Contains name "/" || strings.Contains name ":" = false ->
  loadCacheOrEmpty h (snd (note (CallResolve name) h s)) = (cache, s1) ->
  s_heap s1 !! cache = Some c ->
  forceRefresh = true \/ ~ fresh h (h_clock h (s_ticks s)) c (keyOf h name) ->
  exists s3,
    s_files s3 = s_files s /\ s_nreq s3 = s_nreq s /\ s_stderr s3 = s_stderr s
    /\ s_heap s3 = s_heap s1
    /\ inferPackageFromFunctionName ctx name forceRefresh h s
       = let '(r, s4) :=
           fetchOrFallback ctx (getDefaultGitHubOwner h)
             (snd (fst (mapFunctionNameToGitHubRepo h name))) (keyOf h name)
             (fst (fst (getCachePath h s))) cache h s3 in
         match r with
         | Ok version => (Ok (coordinate h name version), s4)
         | Err err => (Err err, s4)
         end.
Proof.
  intros Hne Hc Hload Hheap Hcond.
  destruct (infer_refetch_at ctx name forceRefresh h s s1 cache c Hne Hc Hload Hheap Hcond)
    as (s3 & Hf & Hn & He & Hh & _ & Hrun).
  exists s3. repeat split; assumption.
Qed.

Lemma fetch_run (ctx : Context) (owner repo : string) (h : Host) (s s1 : State)
  (r : Res string) :
  fetchLatestReleaseVersion ctx owner repo h s = (r, s1) ->
  s_files s1 = s_files s /\ s_heap s1 = s_heap s /\ s_ticks s1 = s_ticks s
  /\ s_stderr s1 = s_stderr s /\ (s_nreq s <= s_nreq s1 <= S (s_nreq s))%nat.
Proof.
  intros Hrun. pose proof (fetch_state ctx owner repo h s) as H.
  rewrite Hrun in H. simpl in H. subst s1. simpl.
  repeat split; destruct (http_NewRequestWithContext _ _); lia.
Qed.

(** A failure of the client that is no rate limit ends the step, with
    the store and the files as they were. *)
Lemma fetchOrFallback_generic (ctx : Context) (owner repo cacheKey cachePath : string)
  (cache : nat) (h : Host) (s s1 : State) (e : error) :
  fetchLatestReleaseVersion ctx owner repo h s = (Err e, s1) ->
  (forall msg, e <> RateLimitError msg) ->
  fetchOrFallback ctx owner repo cacheKey cachePath cache h s
  = (Err (wrapError ("cannot fetch latest version for " +:+ owner +:+ "/" +:+ repo
                     +:+ ": " +:+ Error e) e), s1).
Proof.
  intros Hfetch Hnot. unfold fetchOrFallback, bind. rewrite Hfetch.
  destruct e; try reflexivity. exfalso. eapply Hnot. reflexivity.
Qed.

Lemma getCachePath_full (h : Host) (s s0 : State) :
  exists s1, getCachePath h s = ((fst (fst (getCachePath h s0)), None), s1)
             /\ unchanged s s1 /\ calm s s1.
Proof.
  destruct (getCachePath_run h s s0) as (s1 & E & U).
  exists s1. split; [exact E|]. split; [exact U|].
  eapply (respects_run calm); [apply calm_getCachePath | exact E].
Qed.

Lemma setCachedVersion_run (cache : nat) (cacheKey version : string) (h : Host)
  (s : State) (c : FunctionVersionCache) :
  s_heap s !! cache = Some c ->
  setCachedVersion cache cacheKey version h s
  = (tt, set_heap
           (<[ cache := {| Versions :=
                             <[ cacheKey := {| Version := version;
                                               FetchedAt := h_clock h (s_ticks s) |} ]>
                               (Versions c) |} ]> (s_heap s))
           (set_ticks (S (s_ticks s))
              (set_calls (CallSetCached cacheKey version :: s_calls s) s))).
Proof.
  intros Hc. unfold setCachedVersion, time_Now, bind, note, deref, store, ret.
  simpl. rewrite Hc. reflexivity.
Qed.

(** [saveCache], case by case. *)
Lemma saveCache_run (cache : nat) (h : Host) (s : State)
  (c : FunctionVersionCache) :
  s_heap s !! cache = Some c ->
  let path := fst (fst (getCachePath h s)) in
  let '(err, s') := saveCache cache h s in
  match json_MarshalIndent c with
  | Done data =>
      if h_write_ok h path
      then err = None /\ s_files s' = <[ path := File data ]> (s_files s)
      else (exists text e, err = Some (wrapError text e) /\ os_IsNotExist e = false)
           /\ s_files s' = s_files s
  | Failed msg =>
      err = Some (wrapError ("failed to marshal cache: " +:+ msg) (errorString msg))
      /\ s_files s' = s_files s
  end
  /\ s_heap s' = s_heap s /\ s_ticks s' = s_ticks s
  /\ s_nreq s' = s_nreq s /\ s_stderr s' = s_stderr s.
Proof.
  intros Hc path. unfold saveCache, bind, note. simpl.
  destruct (getCachePath_full h (set_calls (CallSaveCache :: s_calls s) s) s)
    as (sg & -> & (Fg & Hg) & (_ & Tg & Ng & Eg)).
  simpl in Fg, Hg, Tg, Ng, Eg. fold path.
  unfold deref. simpl. rewrite Hg, Hc. simpl.
  destruct (json_MarshalIndent c) as [data|msg]; simpl.
  - unfold afero_WriteFile. destruct (h_write_ok h path); simpl.
    + rewrite Fg. repeat split; assumption.
    + repeat split; try assumption. eexists _, _. split; reflexivity.
  - repeat split; assumption.
Qed.

(** A version fetched: stored under the key with the instant of the
    call, then saved; the step returns the version whether or not the
    save succeeds. *)
Lemma fetchOrFallback_success (ctx : Context) (owner repo cacheKey : string)
  (cache : nat) (h : Host) (s s1 : State) (v : string) (c : FunctionVersionCache) :
  fetchLatestReleaseVersion ctx owner repo h s = (Ok v, s1) ->
  s_heap s !! cache = Some c ->
  let path := fst (fst (getCachePath h s)) in
  let c' := {| Versions := <[ cacheKey := {| Version := v;
                                              FetchedAt := h_clock h (s_ticks s) |} ]>
                             (Versions c) |} in
  exists s2,
    fetchOrFallback ctx owner repo cacheKey path cache h s = (Ok v, s2)
    /\ s_heap s2 = <[ cache := c' ]> (s_heap s)
    /\ s_nreq s2 = s_nreq s1
    /\ match json_MarshalIndent c' with
       | Done data =>
           if h_write_ok h path
           then s_files s2 = <[ path := File data ]> (s_files s)
                /\ s_stderr s2 = s_stderr s
           else s_files s2 = s_files s
                /\ exists line, s_stderr s2 = (s_stderr s ++ [line])%list
       | Failed _ =>
           s_files s2 = s_files s
           /\ exists line, s_stderr s2 = (s_stderr s ++ [line])%list
       end.
Proof.
  intros Hfetch Hc path c'.
  destruct (fetch_run ctx owner repo h s s1 _ Hfetch) as (F1 & H1 & T1 & E1 & _).
  assert (Hc1 : s_heap s1 !! cache = Some c) by (rewrite H1; exact Hc).
  unfold fetchOrFallback, bind. rewrite Hfetch.
  rewrite (setCachedVersion_run cache cacheKey v h s1 c Hc1).
  rewrite T1, H1. fold c'.
  set (st := set_heap (<[ cache := c' ]> (s_heap s)) _).
  assert (Hst : s_heap st !! cache = Some c').
  { subst st. simpl. apply list_lookup_insert_eq. eapply lookup_lt_Some. exact Hc. }
  pose proof (saveCache_run cache h st c' Hst) as Hsave.
  assert (Hpath : fst (fst (getCachePath h st)) = path).
  { apply (f_equal fst (proj2 (getCachePath_result h st s))). }
  rewrite Hpath in Hsave.
  destruct (saveCache cache h st) as [err s'].
  destruct Hsave as (Hcase & Hh & _ & Hn & He).
  assert (Fst : s_files st = s_files s) by (subst st; simpl; exact F1).
  assert (Est : s_stderr st = s_stderr s) by (subst st; simpl; exact E1).
  assert (Nst : s_nreq st = s_nreq s1) by (subst st; reflexivity).
  assert (Hst' : s_heap st = <[ cache := c' ]> (s_heap s)) by (subst st; reflexivity).
  destruct (json_MarshalIndent c') as [data|msg].
  - destruct (h_write_ok h path).
    + destruct Hcase as [-> Hfiles]. unfold ret. eexists. split; [reflexivity|].
      simpl. rewrite Hh, Hn, He, Hfiles, Fst. repeat split; assumption.
    + destruct Hcase as [(text & e & -> & _) Hfiles]. unfold eprint, ret.
      eexists. split; [reflexivity|]. simpl. rewrite Hh, Hn, He, Hfiles.
      repeat split; try assumption. rewrite Est. eexists. reflexivity.
  - destruct Hcase as [-> Hfiles]. unfold eprint, ret.
    eexists. split; [reflexivity|]. simpl. rewrite Hh, Hn, He, Hfiles.
    repeat split; try assumption. rewrite Est. eexists. reflexivity.
Qed.

End MoreResolver2.

(** ** Saving and loading *)

Section SaveLoad.

Context {lib : GoLib}.

Lemma loadCache_run (h : Host) (s : State) :
  exists s1, calm s s1 /\
    match s_files s !! fst (fst (getCachePath h s)) with
    | Some (Unreadable msg) =>
        loadCache h s
          = (Err (wrapError ("failed to read cache file: " +:+ msg) (osError false msg)),
             s1)
        /\ s_heap s1 = s_heap s
    | _ =>
        loadCache h s = (Ok (length (s_heap s)), s1)
        /\ s_heap s1 = (s_heap s ++ [onDisk h s])%list
    end.
Proof.
  destruct (loadCache h s) as [r s1] eqn:Erun.
  pose proof (respects_run calm _ _ _ _ _ calm_loadCache Erun) as Hcalm.
  exists s1. split; [exact Hcalm|]. revert Erun.
  unfold loadCache, bind, note. simpl.
  destruct (getCachePath_run h (set_calls (CallLoadCache :: s_calls s) s) s)
    as (sg & -> & Fg & Hg).
  simpl in Fg, Hg. unfold onDisk, afero_ReadFile. rewrite Fg.
  destruct (s_files s !! (getCachePath h s).1.1) as [[data|msg]|]; simpl.
  - unfold decoded. destruct (json_Unmarshal data) as [versions|]; simpl;
      unfold new, ret; simpl; rewrite Hg; intros [= <- <-]; split; reflexivity.
  - intros [= <- <-]. split; [reflexivity | exact Hg].
  - unfold new, ret. simpl. rewrite Hg. intros [= <- <-]. split; reflexivity.
Qed.


(** X8.  Save and load are inverse when the JSON encoder and decoder are:
    if the store marshals to a document that unmarshals to the same
    entries and the cache file can be written, then [saveCache] succeeds
    and a [loadCache] after it returns a new store, equal to the saved
    one, which itself is still in place. *)
Theorem save_then_load (cache : nat) (h : Host) (s : State)
  (c : FunctionVersionCache) (data : string) :
  s_heap s !! cache = Some c ->
  json_MarshalIndent c = Done data ->
  json_Unmarshal data = Some (Some (Versions c)) ->
  h_write_ok h (fst (fst (getCachePath h s))) = true ->
  let '(err, s1) := saveCache cache h s in
  let '(r, s2) := loadCache h s1 in
  err = None
  /\ exists cache',
       r = Ok cache' /\ cache' <> cache
       /\ s_heap s2 !! cache' = Some c
       /\ s_heap s2 !! cache = Some c.
Proof.
  intros Hc Hm Hu Hw.
  pose proof (saveCache_run cache h s c Hc) as H.
  destruct (saveCache cache h s) as [err s1].
  cbv zeta in H. rewrite Hm, Hw in H. destruct H as ([-> Hfiles] & Hh & _).
  destruct (loadCache_run h s1) as (s2 & _ & Hload).
  assert (Hpath : fst (fst (getCachePath h s1)) = fst (fst (getCachePath h s))).
  { apply (f_equal fst (proj2 (getCachePath_result h s1 s))). }
  assert (Hdisk : onDisk h s1 = c).
  { unfold onDisk. rewrite Hpath, Hfiles, lookup_insert_eq. unfold decoded.
    rewrite Hu. destruct c. reflexivity. }
  rewrite Hpath, Hfiles, lookup_insert_eq in Hload.
  destruct Hload as [-> Hh2]. rewrite Hdisk, Hh in Hh2.
  split; [reflexivity|]. exists (length (s_heap s)).
  pose proof (lookup_lt_Some _ _ _ Hc) as Hlt.
  split; [rewrite Hh; reflexivity|]. split; [lia|]. rewrite Hh2. split.
  - apply list_lookup_middle. reflexivity.
  - rewrite lookup_app_l by exact Hlt. exact Hc.
Qed.

End SaveLoad.


Lemma save_then_load_witness :
  let h := Sample.host 0 Sample.rateLimited in
  let c := {| Versions := Sample.docStore |} in
  let s := set_heap [c] (Sample.state None) in
  let '(err, s1) := saveCache (lib := RoundTrip.lib) 0 h s in
  let '(r, s2) := loadCache (lib := RoundTrip.lib) h s1 in
  err = None
  /\ exists cache',
       r = Ok cache' /\ cache' <> 0%nat
       /\ s_heap s2 !! cache' = Some c
       /\ s_heap s2 !! 0%nat = Some c.
Proof.
  apply (save_then_load (lib := RoundTrip.lib) 0 (Sample.host 0 Sample.rateLimited)
           (set_heap [{| Versions := Sample.docStore |}] (Sample.state None))
           {| Versions := Sample.docStore |} Sample.doc).
  - reflexivity.
  - vm_compute. reflexivity.
  - vm_compute. reflexivity.
  - reflexivity.
Defined.

(** ** The resolver: failures, successes and repetition *)

Section MoreResolver3.

Context {lib : GoLib}.

(** X9.  No fallback unless the failure is a rate limit.  When the
    cache check does not end the resolution (forced refresh, or no fresh
    entry) and the client fails otherwise than by a rate limit, the
    resolution fails with the client's error, wrapped, even if the store
    has an entry under the key; no file changes and no object of the
    heap changes. *)
Theorem generic_failure_no_fallback (ctx : Context) (name : string)
  (forceRefresh : bool) (h : Host) (s : State) (e : error) :
  name <> "" ->
  strings.Contains name "/" || strings.Contains name ":" = false ->
  forceRefresh = true \/ ~ fresh h (h_clock h (s_ticks s)) (onDisk h s) (keyOf h name) ->
  (forall s', exists s'',
      fetchLatestReleaseVersion ctx (getDefaultGitHubOwner h)
        (snd (fst (mapFunctionNameToGitHubRepo h name))) h s' = (Err e, s'')) ->
  (forall msg, e <> RateLimitError msg) ->
  let '(r, s') := inferPackageFromFunctionName ctx name forceRefresh h s in
  r = Err (wrapError ("cannot fetch latest version for " +:+ keyOf h name +:+ ": "
                      +:+ Error e) e)
  /\ s_files s' = s_files s
  /\ s_heap s' = (s_heap s ++ [onDisk h s])%list.
Proof.
  intros Hne Hc Hcond Hfail Hnot.
  destruct (infer_start name h s) as (s1 & Hload & Hh1 & Hheap).
  destruct (infer_refetch ctx name forceRefresh h s s1 _ _ Hne Hc Hload Hheap Hcond)
    as (s3 & Hf & Hn & He & Hh & ->).
  destruct (Hfail s3) as (s4 & Hfetch).
  rewrite (fetchOrFallback_generic ctx _ _ _ _ _ h s3 s4 e Hfetch Hnot).
  destruct (fetch_run ctx _ _ h s3 s4 _ Hfetch) as (F4 & H4 & _).
  unfold keyOf. rewrite append_assoc.
  split; [reflexivity|]. split; congruence.
Qed.

(** A version fetched. *)
Lemma infer_fetched_at (ctx : Context) (name : string)
  (forceRefresh : bool) (h : Host) (s : State) (v : string) :
  name <> "" ->
  strings.Contains name "/" || strings.Contains name ":" = false ->
  forceRefresh = true \/ ~ fresh h (h_clock h (s_ticks s)) (onDisk h s) (keyOf h name) ->
  (forall s', exists s'',
      fetchLatestReleaseVersion ctx (getDefaultGitHubOwner h)
        (snd (fst (mapFunctionNameToGitHubRepo h name))) h s' = (Ok v, s'')) ->
  let path := fst (fst (getCachePath h s)) in
  let c' := {| Versions := <[ keyOf h name :=
                                {| Version := v;
                                   FetchedAt := h_clock h (fetchReading h s name) |} ]>
                             (Versions (onDisk h s)) |} in
  exists s',
    inferPackageFromFunctionName ctx name forceRefresh h s
      = (Ok (coordinate h name v), s')
    /\ s_heap s' = (s_heap s ++ [c'])%list
    /\ match json_MarshalIndent c' with
       | Done data =>
           if h_write_ok h path
           then s_files s' = <[ path := File data ]> (s_files s)
                /\ s_stderr s' = s_stderr s
           else s_files s' = s_files s
                /\ exists line, s_stderr s' = (s_stderr s ++ [line])%list
       | Failed _ =>
           s_files s' = s_files s
           /\ exists line, s_stderr s' = (s_stderr s ++ [line])%list
       end.
Proof.
  intros Hne Hc Hcond Hok path c'.
  destruct (infer_start name h s) as (s1 & Hload & Hh1 & Hheap).
  destruct (infer_refetch_at ctx name forceRefresh h s s1 _ _ Hne Hc Hload Hheap Hcond)
    as (s3 & Hf & Hn & He & Hh & Hticks & ->).
  destruct (Hok s3) as (s4 & Hfetch).
  assert (Hheap3 : s_heap s3 !! length (s_heap s) = Some (onDisk h s))
    by (rewrite Hh; exact Hheap).
  destruct (fetchOrFallback_success ctx _ _ (keyOf h name) _ h s3 s4 v _ Hfetch Hheap3)
    as (s5 & Hrun & Hh5 & _ & Hcase).
  assert (Hpath : fst (fst (getCachePath h s3)) = path).
  { apply (f_equal fst (proj2 (getCachePath_result h s3 s))). }
  assert (Hat : s_ticks s3 = fetchReading h s name) by exact Hticks.
  rewrite Hpath in Hrun, Hcase. rewrite Hat in Hh5, Hcase. fold path. rewrite Hrun.
  exists s5. split; [reflexivity|].
  split.
  { rewrite Hh5, Hh, Hh1.
    rewrite (insert_app_r_alt (s_heap s) [onDisk h s] (length (s_heap s))) by lia.
    rewrite Nat.sub_diag. reflexivity. }
  rewrite Hf, He in Hcase. exact Hcase.
Qed.



(** The step fails only with the client's error, wrapped, and then
    leaves files and heap alone. *)
Lemma fetchOrFallback_failure (ctx : Context) (owner repo cacheKey : string)
  (cache : nat) (h : Host) (s : State) (c : FunctionVersionCache) (e : error) :
  s_heap s !! cache = Some c ->
  let run := fetchOrFallback ctx owner repo cacheKey (fst (fst (getCachePath h s)))
               cache h s in
  fst run = Err e ->
  s_files (snd run) = s_files s /\ s_heap (snd run) = s_heap s
  /\ exists e0 text,
       fst (fetchLatestReleaseVersion ctx owner repo h s) = Err e0
       /\ e = wrapError text e0.
Proof.
  intros Hc run. subst run.
  destruct (fetchLatestReleaseVersion ctx owner repo h s) as [[v|e0] s1] eqn:Hfetch.
  - destruct (fetchOrFallback_success ctx owner repo cacheKey cache h s s1 v c
                Hfetch Hc) as (s2 & -> & _). discriminate.
  - destruct (fetch_run ctx owner repo h s s1 _ Hfetch) as (F1 & H1 & _).
    assert (Hgen : forall e1, (forall msg, e1 <> RateLimitError msg) -> e0 = e1 ->
              fst (fetchOrFallback ctx owner repo cacheKey
                     (fst (fst (getCachePath h s))) cache h s) = Err e ->
              s_files (snd (fetchOrFallback ctx owner repo cacheKey
                              (fst (fst (getCachePath h s))) cache h s)) = s_files s
              /\ s_heap (snd (fetchOrFallback ctx owner repo cacheKey
                                (fst (fst (getCachePath h s))) cache h s)) = s_heap s
              /\ exists e2 text, @Err string e0 = Err e2 /\ e = wrapError text e2).
    { intros e1 Hnot <-.
      rewrite (fetchOrFallback_generic ctx owner repo cacheKey _ cache h s s1 e0
                 Hfetch Hnot).
      simpl. intros [= <-]. split; [exact F1|]. split; [exact H1|].
      eexists _, _. split; reflexivity. }
    destruct e0 as [m|m e'|m|b m].
    + apply (Hgen (errorString m)); [discriminate | reflexivity].
    + apply (Hgen (wrapError m e')); [discriminate | reflexivity].
    + destruct (Versions c !! cacheKey) as [entry|] eqn:Hentry.
      * destruct (fetchOrFallback_entry ctx owner repo cacheKey
                    (fst (fst (getCachePath h s))) cache h s s1 m c entry
                    Hfetch Hc Hentry) as (s2 & -> & _). discriminate.
      * destruct (fetchOrFallback_no_entry ctx owner repo cacheKey
                    (fst (fst (getCachePath h s))) cache h s s1 m c
                    Hfetch Hc Hentry) as (text & ->).
        simpl. intros [= <-]. split; [exact F1|]. split; [exact H1|].
        eexists _, _. split; reflexivity.
    + apply (Hgen (osError b m)); [discriminate | reflexivity].
Qed.

(** X11.  A resolution that fails writes nothing.  Whenever the resolver
    returns an error, every file is as before; the error is the
    complaint about an empty name, or it wraps, so that [errors.Unwrap]
    gives it back, an error that the client returned for the name's
    repository. *)
Theorem resolution_failure (ctx : Context) (name : string) (forceRefresh : bool)
  (h : Host) (s : State) (e : error) :
  let run := inferPackageFromFunctionName ctx name forceRefresh h s in
  fst run = Err e ->
  s_files (snd run) = s_files s
  /\ ((name = "" /\ e = errorString "function name cannot be empty")
      \/ (name <> ""
          /\ exists s0 e0 text,
               fst (fetchLatestReleaseVersion ctx (getDefaultGitHubOwner h)
                      (snd (fst (mapFunctionNameToGitHubRepo h name))) h s0) = Err e0
               /\ e = wrapError text e0)).
Proof.
  intros run. subst run.
  destruct (decide (name = "")) as [->|Hne].
  { simpl. intros [= <-]. split; [reflexivity|]. left. split; reflexivity. }
  destruct (strings.Contains name "/" || strings.Contains name ":") eqn:Hc.
  { unfold inferPackageFromFunctionName, bind, note, ret.
    rewrite (length_eqb_0 _ Hne), Hc. discriminate. }
  destruct (infer_start name h s) as (s1 & Hload & Hh1 & Hheap).
  destruct (infer_plain ctx name forceRefresh h s s1 _ Hne Hc Hload)
    as (s2 & (Hf & Ht & Hn & He) & Hh & ->).
  assert (Hheap2 : s_heap s2 !! length (s_heap s) = Some (onDisk h s))
    by (rewrite Hh; exact Hheap).
  pose proof (respects_run unchanged _ _ _ _ _
                (unchanged_getCachedVersion (length (s_heap s)) (keyOf h name))
                (surjective_pairing (getCachedVersion _ _ h s2))) as [F3 H3].
  destruct (getCachedVersion (length (s_heap s)) (keyOf h name) h s2)
    as [[version found] s3].
  simpl in F3, H3.
  destruct (found && negb forceRefresh).
  { unfold bind, eprint, ret. simpl. discriminate. }
  assert (Hheap3 : s_heap s3 !! length (s_heap s) = Some (onDisk h s))
    by (rewrite H3; exact Hheap2).
  assert (Hpath : fst (fst (getCachePath h s)) = fst (fst (getCachePath h s3))).
  { apply (f_equal fst (proj2 (getCachePath_result h s s3))). }
  rewrite Hpath.
  pose proof (fetchOrFallback_failure ctx (getDefaultGitHubOwner h)
                (snd (fst (mapFunctionNameToGitHubRepo h name))) (keyOf h name)
                _ h s3 _ e Hheap3) as Hfail.
  cbv zeta in Hfail.
  destruct (fetchOrFallback ctx _ _ _ _ _ h s3) as [[v|e'] s4]; simpl in *.
  { discriminate. }
  intros [= ->]. destruct (Hfail eq_refl) as (F4 & _ & e0 & text & Hfetch & ->).
  split; [congruence|]. right. split; [exact Hne|].
  exists s3, e0, text. split; [exact Hfetch | reflexivity].
Qed.

(** A coordinate resolves to itself. *)
Lemma coordinate_run (ctx : Context) (name : string) (forceRefresh : bool)
  (h : Host) (s : State) :
  strings.Contains name "/" || strings.Contains name ":" = true ->
  inferPackageFromFunctionName ctx name forceRefresh h s
    = (Ok name, set_calls (CallResolve name :: s_calls s) s).
Proof.
  intros Hc. unfold inferPackageFromFunctionName, bind, note, ret.
  assert (Hne : name <> "").
  { apply orb_true_iff in Hc. destruct Hc as [Hc|Hc];
      eapply Contains_nonempty; try exact Hc; discriminate. }
  rewrite (length_eqb_0 _ Hne), Hc. reflexivity.
Qed.

(** On a host whose client returns a version for the repository of a
    name whatever the state, no resolution of the name fails: it ends
    with the cached version, with the fetched one, or with the name
    itself when the name is a coordinate. *)
Lemma infer_succeeds (ctx : Context) (name : string) (forceRefresh : bool)
  (h : Host) (s : State) (v : string) :
  name <> "" ->
  (forall s', exists s'',
      fetchLatestReleaseVersion ctx (getDefaultGitHubOwner h)
        (snd (fst (mapFunctionNameToGitHubRepo h name))) h s' = (Ok v, s'')) ->
  exists pkg, fst (inferPackageFromFunctionName ctx name forceRefresh h s) = Ok pkg.
Proof.
  intros Hne Hok.
  destruct (strings.Contains name "/" || strings.Contains name ":") eqn:Hc.
  { rewrite (coordinate_run ctx name forceRefresh h s Hc). eexists. reflexivity. }
  assert (Hfetched :
            forceRefresh = true
            \/ ~ fresh h (h_clock h (s_ticks s)) (onDisk h s) (keyOf h name) ->
            exists pkg,
              fst (inferPackageFromFunctionName ctx name forceRefresh h s) = Ok pkg).
  { intros Hcond.
    destruct (infer_fetched_at ctx name forceRefresh h s v Hne Hc Hcond Hok)
      as (s' & -> & _).
    eexists. reflexivity. }
  destruct forceRefresh; [apply Hfetched; left; reflexivity|].
  destruct (Versions (onDisk h s) !! keyOf h name) as [entry|] eqn:He.
  - destruct (Z_le_gt_dec (time_Sub (h_clock h (s_ticks s)) (FetchedAt entry))
                (getCacheExpiration h)) as [Hage|Hage].
    + destruct (infer_hit ctx name h s entry Hne Hc He Hage) as (s' & -> & _).
      eexists. reflexivity.
    + apply Hfetched. right. intros (entry' & He' & Hage').
      rewrite He in He'. injection He' as <-. lia.
  - apply Hfetched. right. intros (entry' & He' & _). congruence.
Qed.

(** X12.  What the resolver returns, the resolver accepts as it is.  Every
    coordinate it returns contains a ['/'], so resolving that coordinate
    again, on any host and in any state, returns it unchanged and
    touches nothing. *)
Theorem resolved_is_fixed_point (ctx : Context) (name : string) (forceRefresh : bool)
  (h : Host) (s : State) (pkg : string) :
  fst (inferPackageFromFunctionName ctx name forceRefresh h s) = Ok pkg ->
  strings.Contains pkg "/" || strings.Contains pkg ":" = true
  /\ forall ctx' forceRefresh' h' s',
       inferPackageFromFunctionName ctx' pkg forceRefresh' h' s'
       = (Ok pkg, set_calls (CallResolve pkg :: s_calls s') s').
Proof.
  intros Hrun.
  assert (Hpkg : strings.Contains pkg "/" || strings.Contains pkg ":" = true).
  { destruct (strings.Contains name "/" || strings.Contains name ":") eqn:Hc.
    - rewrite (coordinate_run ctx name forceRefresh h s Hc) in Hrun.
      simpl in Hrun. injection Hrun as <-. exact Hc.
    - destruct (resolved_coordinate ctx name forceRefresh h s pkg Hc Hrun)
        as (version & ->).
      apply orb_true_iff. left. apply Contains_iff.
      exists (getPackageRegistry h name). eexists. reflexivity. }
  split; [exact Hpkg|]. intros ctx' forceRefresh' h' s'.
  apply coordinate_run. exact Hpkg.
Qed.

End MoreResolver3.

Section MoreResolver4.

Context {lib : GoLib}.

Lemma bind_nreq {A B} (m : M A) (k : A -> M B) (h : Host) (s : State) :
  (forall a, respects same_nreq (k a)) ->
  s_nreq (snd (bind m k h s)) = s_nreq (snd (m h s)).
Proof. intros Hk. unfold bind. destruct (m h s) as [a s1]. apply (Hk a h s1). Qed.

Lemma fetchOrFallback_nreq_le (ctx : Context) (owner repo cacheKey cachePath : string)
  (cache : nat) (h : Host) (s : State) :
  (s_nreq s <= s_nreq (snd (fetchOrFallback ctx owner repo cacheKey cachePath cache h s))
   <= S (s_nreq s))%nat.
Proof.
  unfold fetchOrFallback. rewrite bind_nreq by (intros r; same_nreq_tac).
  apply (fetch_run ctx owner repo h s _ _
           (surjective_pairing (fetchLatestReleaseVersion ctx owner repo h s))).
Qed.

(** One resolution makes at most one request. *)
Lemma infer_nreq_le (ctx : Context) (name : string) (forceRefresh : bool)
  (h : Host) (s : State) :
  (s_nreq s <= s_nreq (snd (inferPackageFromFunctionName ctx name forceRefresh h s))
   <= S (s_nreq s))%nat.
Proof.
  destruct (decide (name = "")) as [->|Hne]; [simpl; lia|].
  destruct (strings.Contains name "/" || strings.Contains name ":") eqn:Hc.
  { rewrite (coordinate_run ctx name forceRefresh h s Hc). simpl. lia. }
  destruct (infer_start name h s) as (s1 & Hload & Hh1 & Hheap).
  destruct (infer_plain ctx name forceRefresh h s s1 _ Hne Hc Hload)
    as (s2 & (Hf & Ht & Hn & He) & Hh & ->).
  pose proof (respects_run same_nreq _ _ _ _ _
                (same_nreq_getCachedVersion (length (s_heap s)) (keyOf h name))
                (surjective_pairing (getCachedVersion _ _ h s2))) as N3.
  destruct (getCachedVersion (length (s_heap s)) (keyOf h name) h s2)
    as [[version found] s3].
  unfold same_nreq in N3. simpl in N3.
  destruct (found && negb forceRefresh).
  { unfold bind, eprint, ret. simpl. lia. }
  pose proof (fetchOrFallback_nreq_le ctx (getDefaultGitHubOwner h)
                (snd (fst (mapFunctionNameToGitHubRepo h name))) (keyOf h name)
                (fst (fst (getCachePath h s))) (length (s_heap s)) h s3) as N4.
  destruct (fetchOrFallback ctx _ _ _ _ _ h s3) as [[v|e] s4]; simpl in *; lia.
Qed.

(** X13.  Resolve, then resolve again.  If a resolution fetches version
    [v] and saves it, with an encoder and a decoder that agree on the
    saved store, then the cache file holds [v] under the key with the
    fetch time that the resolution read from the clock; and a second
    resolution without forced refresh, of the same name or of another
    spelling with the same cache key, started in any state that has the
    files the first one left, whose reading of the clock is no more than
    the TTL after that fetch time, returns the coordinate with [v] from
    the cache: it makes no request and changes no file. *)
Theorem resolve_again (ctx ctx2 : Context) (name name2 : string) (forceRefresh : bool)
  (h : Host) (s s2 : State) (v : string) :
  name <> "" ->
  strings.Contains name "/" || strings.Contains name ":" = false ->
  name2 <> "" ->
  strings.Contains name2 "/" || strings.Contains name2 ":" = false ->
  keyOf h name2 = keyOf h name ->
  forceRefresh = true \/ ~ fresh h (h_clock h (s_ticks s)) (onDisk h s) (keyOf h name) ->
  (forall s', exists s'',
      fetchLatestReleaseVersion ctx (getDefaultGitHubOwner h)
        (snd (fst (mapFunctionNameToGitHubRepo h name))) h s' = (Ok v, s'')) ->
  let entry := {| Version := v; FetchedAt := h_clock h (fetchReading h s name) |} in
  let c' := {| Versions := <[ keyOf h name := entry ]> (Versions (onDisk h s)) |} in
  (exists data, json_MarshalIndent c' = Done data
                /\ json_Unmarshal data = Some (Some (Versions c'))) ->
  h_write_ok h (fst (fst (getCachePath h s))) = true ->
  let first := inferPackageFromFunctionName ctx name forceRefresh h s in
  s_files s2 = s_files (snd first) ->
  time_Sub (h_clock h (s_ticks s2)) (FetchedAt entry) <= getCacheExpiration h ->
  let second := inferPackageFromFunctionName ctx2 name2 false h s2 in
  fst first = Ok (coordinate h name v)
  /\ Versions (onDisk h (snd first)) !! keyOf h name = Some entry
  /\ fst second = Ok (coordinate h name2 v)
  /\ s_nreq (snd second) = s_nreq s2
  /\ s_files (snd second) = s_files s2.
Proof.
  intros Hne Hc Hne2 Hc2 Hkey Hcond Hok entry c' (data & Hm & Hu) Hw first.
  destruct (infer_fetched_at ctx name forceRefresh h s v Hne Hc Hcond Hok)
    as (s1 & Hrun & _ & Hcase).
  cbv zeta in Hcase. fold entry in Hcase. fold c' in Hcase.
  rewrite Hm, Hw in Hcase. destruct Hcase as [Hfiles _].
  subst first. rewrite Hrun. cbn [fst snd].
  intros Hsame Hage.
  assert (Hdisk : Versions (onDisk h s1) !! keyOf h name = Some entry).
  { unfold onDisk.
    rewrite (f_equal fst (proj2 (getCachePath_result h s1 s))).
    rewrite Hfiles, lookup_insert_eq. unfold decoded. rewrite Hu. simpl.
    apply lookup_insert_eq. }
  assert (Hdisk2 : Versions (onDisk h s2) !! keyOf h name2 = Some entry).
  { rewrite (onDisk_files h s1 s2 Hsame), Hkey. exact Hdisk. }
  destruct (infer_hit ctx2 name2 h s2 entry Hne2 Hc2 Hdisk2 Hage)
    as (s3 & Hrun2 & Hn & Hf & _).
  rewrite Hrun2. cbn [fst snd].
  repeat split; assumption.
Qed.

End MoreResolver4.

Lemma sample_not_found (ctx : Context) (owner repo : string) (now : Z) (s : State) :
  fetchLatestReleaseVersion ctx owner repo (Sample.host now (Response 404 "Not Found")) s
    = (Err (errorString "GitHub API returned status 404: Not Found"),
       set_nreq (S (s_nreq s)) (set_calls (CallFetch owner repo :: s_calls s) s)).
Proof. reflexivity. Qed.


Lemma round_trip_released (ctx : Context) (owner repo : string) (now : Z) (s : State) :
  fetchLatestReleaseVersion (lib := RoundTrip.lib) ctx owner repo
    (Sample.host now (Sample.released "v0.1.0")) s
    = (Ok "v0.1.0",
       set_nreq (S (s_nreq s)) (set_calls (CallFetch owner repo :: s_calls s) s)).
Proof. reflexivity. Qed.

(** A fresh entry, a forced refresh and a 404: no fallback. *)
Lemma generic_failure_no_fallback_witness :
  let h := Sample.host 2000 (Response 404 "Not Found") in
  let s := Sample.state (Some (File Sample.doc)) in
  let name := "function-unit-test" in
  let e := errorString "GitHub API returned status 404: Not Found" in
  let '(r, s') := inferPackageFromFunctionName Sample.ctx name true h s in
  r = Err (wrapError ("cannot fetch latest version for " +:+ keyOf h name +:+ ": "
                      +:+ Error e) e)
  /\ s_files s' = s_files s
  /\ s_heap s' = (s_heap s ++ [onDisk h s])%list.
Proof.
  intros h s name e.
  apply (generic_failure_no_fallback Sample.ctx name true h s e).
  - discriminate.
  - reflexivity.
  - left. reflexivity.
  - intros s0. eexists. apply sample_not_found.
  - intros msg. discriminate.
Defined.


(** The version is returned although the cache file cannot be
    written; the file stays as it was and a warning is printed. *)
Example fetch_success_save_fails :
  let h := {| h_env := ∅; h_home := Some "/home/dev"; h_gh_token := None;
              h_clock := fun _ => 2000;
              h_remote := fun _ _ => Sample.released "v0.2.0";
              h_mkdir_ok := fun _ => true; h_write_ok := fun _ => false |} in
  let s := Sample.state (Some (File Sample.doc)) in
  let run := inferPackageFromFunctionName Sample.ctx "function-unit-test" true h s in
  fst run = Ok "xpkg.upbound.io/crossplane-contrib/function-unit-test:v0.2.0"
  /\ s_files (snd run) = s_files s
  /\ length (s_stderr (snd run)) = 1%nat.
Proof. repeat split; vm_compute; reflexivity. Qed.

Lemma resolution_failure_witness :
  let h := Sample.host 2000 Sample.rateLimited in
  let s := Sample.state None in
  let name := "function-foo" in
  let e := wrapError
             "cannot fetch latest version for crossplane-contrib/function-foo: GitHub API rate limit exceeded: API rate limit exceeded for 203.0.113.7 (no cached version available)"
             (RateLimitError
                "GitHub API rate limit exceeded: API rate limit exceeded for 203.0.113.7") in
  let run := inferPackageFromFunctionName Sample.ctx name false h s in
  s_files (snd run) = s_files s
  /\ ((name = "" /\ e = errorString "function name cannot be empty")
      \/ (name <> ""
          /\ exists s0 e0 text,
               fst (fetchLatestReleaseVersion Sample.ctx (getDefaultGitHubOwner h)
                      (snd (fst (mapFunctionNameToGitHubRepo h name))) h s0) = Err e0
               /\ e = wrapError text e0)).
Proof.
  intros h s name e.
  apply (resolution_failure Sample.ctx name false h s e).
  vm_compute. reflexivity.
Defined.

Lemma resolved_is_fixed_point_witness :
  let pkg := "xpkg.upbound.io/crossplane-contrib/function-unit-test:v0.1.0" in
  strings.Contains pkg "/" || strings.Contains pkg ":" = true
  /\ forall ctx' forceRefresh' h' s',
       inferPackageFromFunctionName ctx' pkg forceRefresh' h' s'
       = (Ok pkg, set_calls (CallResolve pkg :: s_calls s') s').
Proof.
  apply (resolved_is_fixed_point Sample.ctx "function-unit-test" false
           (Sample.host 2000 Sample.rateLimited) (Sample.state (Some (File Sample.doc)))).
  vm_compute. reflexivity.
Defined.

(** ["unit-test"] fetched and saved, then ["function-unit-test"]
    resolved from the cache one second later, on a clock that
    advances. *)
Lemma resolve_again_witness :
  let h := tickingHost ∅ 1000 Second (Sample.released "v0.1.0") in
  let first := inferPackageFromFunctionName (lib := RoundTrip.lib)
                 Sample.ctx "unit-test" false h (Sample.state None) in
  let second := inferPackageFromFunctionName (lib := RoundTrip.lib)
                  Sample.ctx "function-unit-test" false h (snd first) in
  fst first = Ok (coordinate (lib := RoundTrip.lib) h "unit-test" "v0.1.0")
  /\ Versions (onDisk (lib := RoundTrip.lib) h (snd first))
       !! keyOf (lib := RoundTrip.lib) h "unit-test"
     = Some {| Version := "v0.1.0"; FetchedAt := 1000 |}
  /\ fst second = Ok (coordinate (lib := RoundTrip.lib) h "function-unit-test" "v0.1.0")
  /\ s_nreq (snd second) = s_nreq (snd first)
  /\ s_files (snd second) = s_files (snd first).
Proof.
  intros h first.
  apply (resolve_again (lib := RoundTrip.lib) Sample.ctx Sample.ctx "unit-test"
           "function-unit-test" false h (Sample.state None) (snd first) "v0.1.0").
  - discriminate.
  - reflexivity.
  - discriminate.
  - reflexivity.
  - reflexivity.
  - right. intros (entry & He & _). vm_compute in He. discriminate.
  - intros s0.
    exists (set_nreq (S (s_nreq s0))
              (set_calls (CallFetch "crossplane-contrib" "function-unit-test"
                          :: s_calls s0) s0)).
    reflexivity.
  - exists Sample.doc. split; vm_compute; reflexivity.
  - reflexivity.
  - reflexivity.
  - vm_compute. discriminate.
Defined.

Example resolve_again_run :
  let h := tickingHost ∅ 1000 Second (Sample.released "v0.1.0") in
  let first := inferPackageFromFunctionName (lib := RoundTrip.lib)
                 Sample.ctx "unit-test" false h (Sample.state None) in
  let second := inferPackageFromFunctionName (lib := RoundTrip.lib)
                  Sample.ctx "function-unit-test" false h (snd first) in
  fst first = Ok "xpkg.crossplane.io/crossplane-contrib/function-unit-test:v0.1.0"
  /\ fst second = Ok "xpkg.upbound.io/crossplane-contrib/function-unit-test:v0.1.0"
  /\ s_nreq (snd first) = 1%nat /\ s_nreq (snd second) = 1%nat
  /\ s_ticks (snd first) = 1%nat /\ s_ticks (snd second) = 2%nat.
Proof. repeat split; vm_compute; reflexivity. Qed.

(** The walk over ["A"], ["B"], ["A"] on a host whose API answers every
    request with release [v1.0.0]: no resolution can fail, and two
    descriptors are returned. *)
Lemma extraction_first_seen_witness :
  let comp := Sample.composition ["A"; "B"; "A"] in
  let h := Sample.host 2000 (Sample.released "v1.0.0") in
  exists functions,
    fst (ExtractFunctionsFromComposition comp false h (Sample.state None)) = Ok functions
    /\ List.map GetName functions = ["A"; "B"].
Proof.
  intros comp h.
  pose proof (extraction_first_seen comp false h (Sample.state None) eq_refl) as H.
  assert (Hne : Spec_Pipeline comp <> []) by discriminate.
  specialize (H Hne). cbv zeta in H.
  destruct (ExtractFunctionsFromComposition comp false h (Sample.state None)) as [r s'].
  destruct H as (_ & _ & _ & Hok & _).
  destruct Hok as (functions & -> & Hnames).
  - intros name s0 Hin.
    apply (infer_succeeds _ name false h s0 "v1.0.0").
    + intros ->. vm_compute in Hin. destruct Hin as [E|[E|[]]]; discriminate.
    + intros s1.
      exists (set_nreq (S (s_nreq s1))
                (set_calls (CallFetch (getDefaultGitHubOwner h)
                              (snd (fst (mapFunctionNameToGitHubRepo h name)))
                            :: s_calls s1) s1)).
      reflexivity.
  - discriminate.
  - exists functions. split; [reflexivity | exact Hnames].
Defined.

(** ** The pipeline walk: rejections, coordinates, descriptors, errors
    and requests *)

Section MoreExtractor.

Context {lib : GoLib}.

Lemma stepNames_cons (step : PipelineStep) (pipeline : list PipelineStep) :
  stepNames (step :: pipeline)
  = if (FunctionRef_Name step =? "")%string then stepNames pipeline
    else FunctionRef_Name step :: stepNames pipeline.
Proof.
  unfold stepNames. simpl. destruct (FunctionRef_Name step =? "")%string; reflexivity.
Qed.

Lemma extractLoop_no_names (ctx : Context) (meta : ObjectMeta) (forceRefresh : bool)
  (pipeline : list PipelineStep) (functionMap : gmap string bool)
  (functions : list Function) (h : Host) (s : State) :
  stepNames pipeline = [] ->
  extractLoop ctx meta forceRefresh pipeline functionMap functions h s
    = (Ok functions, s).
Proof.
  induction pipeline as [|step pipeline IH]; intros Hnames; [reflexivity|].
  rewrite stepNames_cons in Hnames. simpl.
  destruct (FunctionRef_Name step =? "")%string; [apply IH; exact Hnames | discriminate].
Qed.

(** X14.  What the walk refuses, it refuses before doing anything.  A
    composition that is not in pipeline mode, one whose pipeline is
    empty, and one whose steps all have an empty function reference are
    each rejected with an error of their own, and the state is exactly
    as before: no resolution, no file, no request. *)
Theorem extraction_rejects (comp : Composition) (forceRefresh : bool)
  (h : Host) (s : State) :
  (Spec_Mode comp <> CompositionModePipeline ->
   ExtractFunctionsFromComposition comp forceRefresh h s
     = (Err (errorString "composition must use Pipeline mode to extract functions"), s))
  /\ (Spec_Mode comp = CompositionModePipeline -> Spec_Pipeline comp = [] ->
      ExtractFunctionsFromComposition comp forceRefresh h s
        = (Err (errorString "composition pipeline is empty"), s))
  /\ (Spec_Mode comp = CompositionModePipeline -> Spec_Pipeline comp <> [] ->
      stepNames (Spec_Pipeline comp) = [] ->
      ExtractFunctionsFromComposition comp forceRefresh h s
        = (Err (errorString "no function references found in composition pipeline"), s)).
Proof.
  unfold ExtractFunctionsFromComposition. split; [|split].
  - intros Hmode. apply String.eqb_neq in Hmode. rewrite Hmode. reflexivity.
  - intros -> ->. reflexivity.
  - intros -> Hne Hnames. rewrite String.eqb_refl. cbn [negb].
    assert (Hlen : (length (Spec_Pipeline comp) =? 0)%nat = false)
      by (destruct (Spec_Pipeline comp); [congruence | reflexivity]).
    rewrite Hlen. unfold bind, asks.
    rewrite (extractLoop_no_names _ _ _ _ _ _ h s Hnames). reflexivity.
Qed.

(** The descriptor of a coordinate. *)
Lemma extractLoop_coordinates (ctx : Context) (meta : ObjectMeta) (forceRefresh : bool)
  (pipeline : list PipelineStep) :
  forall (seen : list string) (functionMap : gmap string bool) (h : Host) (s : State),
    tracks functionMap seen ->
    Forall (fun n => strings.Contains n "/" || strings.Contains n ":" = true)
      (stepNames pipeline) ->
    let descriptor n := {| fn_ObjectMeta := SetName meta n; Spec_Package := n |} in
    exists calls,
      extractLoop ctx meta forceRefresh pipeline functionMap
        (List.map descriptor seen) h s
      = (Ok (List.map descriptor (fold_left seeName (stepNames pipeline) seen)),
         set_calls calls s).
Proof.
  induction pipeline as [|step pipeline IH]; intros seen functionMap h s Ht Hall;
    cbv zeta in *.
  - exists (s_calls s). destruct s. reflexivity.
  - rewrite stepNames_cons in *. simpl.
    destruct (FunctionRef_Name step =? "")%string eqn:Eempty.
    { apply IH; assumption. }
    apply Forall_cons in Hall. destruct Hall as [Hn Hall].
    simpl. unfold seeName at 2. rewrite (tracks_existsb _ _ _ Ht).
    destruct (default false (functionMap !! FunctionRef_Name step)) eqn:Eseen.
    { apply IH; assumption. }
    unfold bind. rewrite (coordinate_run ctx _ forceRefresh h s Hn). cbv beta iota.
    destruct (IH (seen ++ [FunctionRef_Name step])%list _ h
                (set_calls (CallResolve (FunctionRef_Name step) :: s_calls s) s)
                (tracks_insert _ _ _ Ht) Hall) as (calls & Hrun).
    rewrite List.map_app in Hrun. cbn [List.map] in Hrun. rewrite Hrun.
    exists calls. destruct s. reflexivity.
Qed.

(** X15.  A pipeline of coordinates needs nothing from outside.  When
    every non-empty function reference already contains a ['/'] or a
    [':'], the walk succeeds on every host, returns one descriptor for
    each distinct reference in first-seen order, the reference itself as
    its package, and leaves files, heap, clock, request count and
    standard error as they were. *)
Theorem extraction_of_coordinates (comp : Composition) (forceRefresh : bool)
  (h : Host) (s : State) :
  Spec_Mode comp = CompositionModePipeline ->
  stepNames (Spec_Pipeline comp) <> [] ->
  Forall (fun n => strings.Contains n "/" || strings.Contains n ":" = true)
    (stepNames (Spec_Pipeline comp)) ->
  exists calls,
    ExtractFunctionsFromComposition comp forceRefresh h s
    = (Ok (List.map (fun n => {| fn_ObjectMeta := SetName (comp_ObjectMeta comp) n;
                                 Spec_Package := n |})
             (firstSeen (stepNames (Spec_Pipeline comp)))),
       set_calls calls s).
Proof.
  intros Hmode Hnames Hall. unfold ExtractFunctionsFromComposition.
  rewrite Hmode, String.eqb_refl. cbn [negb].
  assert (Hlen : (length (Spec_Pipeline comp) =? 0)%nat = false).
  { destruct (Spec_Pipeline comp); [|reflexivity]. exfalso. apply Hnames. reflexivity. }
  rewrite Hlen. unfold bind, asks.
  destruct (extractLoop_coordinates {| ctx_timeout := getGitHubAPITimeout h |}
              (comp_ObjectMeta comp) forceRefresh (Spec_Pipeline comp) [] ∅ h s
              tracks_empty Hall) as (calls & Hrun).
  simpl in Hrun. rewrite Hrun. exists calls.
  fold (firstSeen (stepNames (Spec_Pipeline comp))).
  destruct (firstSeen (stepNames (Spec_Pipeline comp))) as [|n l] eqn:E.
  - exfalso. destruct (stepNames (Spec_Pipeline comp)) as [|n l] eqn:E'; [congruence|].
    assert (Hin : In n (firstSeen (n :: l))).
    { unfold firstSeen. apply seen_In. right. left. reflexivity. }
    rewrite E in Hin. destruct Hin.
  - reflexivity.
Qed.

Lemma resolved_has_separator (ctx : Context) (name : string) (forceRefresh : bool)
  (h : Host) (s : State) (pkg : string) :
  fst (inferPackageFromFunctionName ctx name forceRefresh h s) = Ok pkg ->
  strings.Contains pkg "/" || strings.Contains pkg ":" = true.
Proof.
  intros Hrun.
  destruct (strings.Contains name "/" || strings.Contains name ":") eqn:Hc.
  - rewrite (coordinate_run ctx name forceRefresh h s Hc) in Hrun.
    simpl in Hrun. injection Hrun as <-. exact Hc.
  - destruct (resolved_coordinate ctx name forceRefresh h s pkg Hc Hrun)
      as (version & ->).
    apply orb_true_iff. left. apply Contains_iff.
    exists (getPackageRegistry h name). eexists. reflexivity.
Qed.

Lemma extractLoop_descriptors (ctx : Context) (meta : ObjectMeta) (forceRefresh : bool)
  (pipeline : list PipelineStep) :
  forall (functionMap : gmap string bool) (functions : list Function)
         (h : Host) (s : State) (result : list Function),
    Forall (wellFormed meta) functions ->
    fst (extractLoop ctx meta forceRefresh pipeline functionMap functions h s)
      = Ok result ->
    Forall (wellFormed meta) result
    /\ (length result <= length functions + length pipeline)%nat.
Proof.
  induction pipeline as [|step pipeline IH];
    intros functionMap functions h s result0 Hwf.
  - simpl. intros [= <-]. split; [exact Hwf | lia].
  - simpl. destruct (FunctionRef_Name step =? "")%string eqn:Eempty.
    { intros Hrun. destruct (IH _ _ _ _ _ Hwf Hrun). split; [assumption | lia]. }
    destruct (default false (functionMap !! FunctionRef_Name step)).
    { intros Hrun. destruct (IH _ _ _ _ _ Hwf Hrun). split; [assumption | lia]. }
    unfold bind.
    pose proof (resolved_has_separator ctx (FunctionRef_Name step) forceRefresh h s)
      as Hsep.
    destruct (inferPackageFromFunctionName ctx (FunctionRef_Name step) forceRefresh h s)
      as [[packageName|err] s1]; [|discriminate].
    intros Hrun.
    assert (Hwf' : Forall (wellFormed meta)
                     (functions ++ [{| fn_ObjectMeta := SetName meta (FunctionRef_Name step);
                                       Spec_Package := packageName |}])%list).
    { apply Forall_app. split; [exact Hwf|]. constructor; [|constructor].
      split; [reflexivity|]. split.
      - apply String.eqb_neq. exact Eempty.
      - apply Hsep. reflexivity. }
    destruct (IH _ _ _ _ _ Hwf' Hrun) as [H1 H2].
    split; [exact H1|]. rewrite length_app in H2. simpl in H2. lia.
Qed.

(** X16.  What the walk returns when it succeeds: at least one descriptor
    and at most one for each step; each bears the metadata of the
    composition with only the name replaced, by a name that is not
    empty; and each package is a coordinate, with a ['/'] or a [':'] in
    it. *)
Theorem extraction_descriptors (comp : Composition) (forceRefresh : bool)
  (h : Host) (s : State) (functions : list Function) :
  fst (ExtractFunctionsFromComposition comp forceRefresh h s) = Ok functions ->
  functions <> []
  /\ (length functions <= length (Spec_Pipeline comp))%nat
  /\ Forall (fun fn =>
               Namespace (fn_ObjectMeta fn) = Namespace (comp_ObjectMeta comp)
               /\ Labels (fn_ObjectMeta fn) = Labels (comp_ObjectMeta comp)
               /\ Annotations (fn_ObjectMeta fn) = Annotations (comp_ObjectMeta comp)
               /\ GetName fn <> ""
               /\ strings.Contains (Spec_Package fn) "/"
                  || strings.Contains (Spec_Package fn) ":" = true) functions.
Proof.
  unfold ExtractFunctionsFromComposition.
  destruct (negb (Spec_Mode comp =? CompositionModePipeline)%string); [discriminate|].
  destruct (length (Spec_Pipeline comp) =? 0)%nat; [discriminate|].
  unfold bind, asks.
  pose proof (extractLoop_descriptors {| ctx_timeout := getGitHubAPITimeout h |}
                (comp_ObjectMeta comp) forceRefresh (Spec_Pipeline comp) ∅ [] h s)
    as Hloop.
  destruct (extractLoop _ _ _ (Spec_Pipeline comp) ∅ [] h s) as [[fns|err] s1];
    [|discriminate].
  destruct (Hloop fns (List.Forall_nil _) eq_refl) as [Hwf Hlen]. simpl in Hlen.
  destruct (length fns =? 0)%nat eqn:E; [discriminate|].
  unfold ret. simpl. intros [= <-].
  split; [intros ->; discriminate|]. split; [exact Hlen|].
  eapply Forall_impl; [exact Hwf|].
  intros fn (Hmeta & Hname & Hpkg). rewrite Hmeta. repeat split; assumption.
Qed.

(** The walk fails only with the error of a resolution, wrapped under
    the name of the step. *)
Lemma extractLoop_error (ctx : Context) (meta : ObjectMeta) (forceRefresh : bool)
  (pipeline : list PipelineStep) :
  forall (functionMap : gmap string bool) (functions : list Function)
         (h : Host) (s : State) (e : error),
    fst (extractLoop ctx meta forceRefresh pipeline functionMap functions h s) = Err e ->
    exists name s0 e0,
      In name (stepNames pipeline)
      /\ fst (inferPackageFromFunctionName ctx name forceRefresh h s0) = Err e0
      /\ e = wrapError ("cannot determine package for function " +:+ strconv_Quote name
                        +:+ ": " +:+ Error e0) e0.
Proof.
  induction pipeline as [|step pipeline IH]; intros functionMap functions h s e.
  - discriminate.
  - rewrite stepNames_cons. simpl.
    destruct (FunctionRef_Name step =? "")%string eqn:Eempty.
    { apply IH. }
    assert (Hlater : forall fm fns s',
              fst (extractLoop ctx meta forceRefresh pipeline fm fns h s') = Err e ->
              exists name s0 e0,
                In name (FunctionRef_Name step :: stepNames pipeline)
                /\ fst (inferPackageFromFunctionName ctx name forceRefresh h s0) = Err e0
                /\ e = wrapError ("cannot determine package for function "
                                  +:+ strconv_Quote name +:+ ": " +:+ Error e0) e0).
    { intros fm fns s' Hrun. destruct (IH _ _ _ _ _ Hrun) as (n & s0 & e0 & Hin & H).
      exists n, s0, e0. split; [right; exact Hin | exact H]. }
    destruct (default false (functionMap !! FunctionRef_Name step)); [apply Hlater|].
    unfold bind.
    destruct (inferPackageFromFunctionName ctx (FunctionRef_Name step) forceRefresh h s)
      as [[packageName|err] s1] eqn:Erun.
    + apply Hlater.
    + unfold ret. simpl. intros [= <-].
      exists (FunctionRef_Name step), s, err.
      split; [left; reflexivity|]. split; [rewrite Erun; reflexivity | reflexivity].
Qed.

(** X17.  An error of the walk is one of its own three complaints, or the
    error of the resolution of one of the step names, wrapped together
    with that name; in the second case a [RateLimitError] of the
    resolution is still found by [errors.As] under the walk's error. *)
Theorem extraction_error (comp : Composition) (forceRefresh : bool)
  (h : Host) (s : State) (e : error) :
  fst (ExtractFunctionsFromComposition comp forceRefresh h s) = Err e ->
  (exists msg, e = errorString msg /\ errors_As_RateLimitError e = None)
  \/ (exists name ctx s0 e0,
        In name (stepNames (Spec_Pipeline comp))
        /\ fst (inferPackageFromFunctionName ctx name forceRefresh h s0) = Err e0
        /\ e = wrapError ("cannot determine package for function " +:+ strconv_Quote name
                          +:+ ": " +:+ Error e0) e0
        /\ errors_As_RateLimitError e = errors_As_RateLimitError e0).
Proof.
  unfold ExtractFunctionsFromComposition.
  destruct (negb (Spec_Mode comp =? CompositionModePipeline)%string).
  { intros [= <-]. left. eexists. split; reflexivity. }
  destruct (length (Spec_Pipeline comp) =? 0)%nat.
  { intros [= <-]. left. eexists. split; reflexivity. }
  unfold bind, asks.
  pose proof (extractLoop_error {| ctx_timeout := getGitHubAPITimeout h |}
                (comp_ObjectMeta comp) forceRefresh (Spec_Pipeline comp) ∅ [] h s)
    as Hloop.
  destruct (extractLoop _ _ _ (Spec_Pipeline comp) ∅ [] h s) as [[fns|err] s1].
  - destruct (length fns =? 0)%nat; [|discriminate].
    intros [= <-]. left. eexists. split; reflexivity.
  - unfold ret. simpl. intros [= <-].
    destruct (Hloop err eq_refl) as (name & s0 & e0 & Hin & Hrun & ->).
    right. exists name, {| ctx_timeout := getGitHubAPITimeout h |}, s0, e0.
    repeat split; assumption.
Qed.

(** One request at most for each name the loop has yet to see. *)
Lemma extractLoop_requests (ctx : Context) (meta : ObjectMeta) (forceRefresh : bool)
  (pipeline : list PipelineStep) :
  forall (functionMap : gmap string bool) (functions : list Function)
         (h : Host) (s : State),
    tracks functionMap (List.map GetName functions) ->
    let s' := snd (extractLoop ctx meta forceRefresh pipeline functionMap functions h s) in
    (s_nreq s <= s_nreq s')%nat
    /\ (s_nreq s' + length functions
        <= s_nreq s + length (fold_left seeName (stepNames pipeline)
                                (List.map GetName functions)))%nat.
Proof.
  induction pipeline as [|step pipeline IH]; intros functionMap functions h s Ht;
    cbv zeta in *.
  - simpl. rewrite List.length_map. lia.
  - rewrite stepNames_cons. cbn [extractLoop].
    destruct (FunctionRef_Name step =? "")%string eqn:Eempty.
    { apply IH. exact Ht. }
    cbn [fold_left].
    assert (Hsee : seeName (List.map GetName functions) (FunctionRef_Name step)
                   = if default false (functionMap !! FunctionRef_Name step)
                     then List.map GetName functions
                     else (List.map GetName functions ++ [FunctionRef_Name step])%list).
    { unfold seeName. rewrite (tracks_existsb _ _ _ Ht). reflexivity. }
    rewrite !Hsee. clear Hsee.
    destruct (default false (functionMap !! FunctionRef_Name step)) eqn:Eseen.
    { apply IH. exact Ht. }
    unfold bind.
    pose proof (infer_nreq_le ctx (FunctionRef_Name step) forceRefresh h s) as Hn.
    destruct (inferPackageFromFunctionName ctx (FunctionRef_Name step) forceRefresh h s)
      as [[packageName|err] s1]; simpl in Hn.
    + set (fn := {| fn_ObjectMeta := SetName meta (FunctionRef_Name step);
                    Spec_Package := packageName |}).
      assert (Ht' : tracks (<[ FunctionRef_Name step := true ]> functionMap)
                      (List.map GetName (functions ++ [fn])%list)).
      { rewrite List.map_app. apply tracks_insert. exact Ht. }
      destruct (IH _ (functions ++ [fn])%list h s1 Ht') as [H1 H2].
      rewrite List.map_app in H2. change (List.map GetName [fn])
        with [FunctionRef_Name step] in H2.
      rewrite length_app in H2. simpl in H2. split; lia.
    + unfold ret. cbn [snd].
      destruct (seen_extends (stepNames pipeline)
                  (List.map GetName functions ++ [FunctionRef_Name step])%list)
        as [rest ->].
      rewrite !List.length_app, List.length_map. simpl. lia.
Qed.

(** X18.  The walk makes at most one request for each distinct non-empty
    function reference, hence at most one for each step, whether it ends
    well or not. *)
Theorem extraction_requests_bound (comp : Composition) (forceRefresh : bool)
  (h : Host) (s : State) :
  let s' := snd (ExtractFunctionsFromComposition comp forceRefresh h s) in
  (s_nreq s <= s_nreq s')%nat
  /\ (s_nreq s' <= s_nreq s + length (firstSeen (stepNames (Spec_Pipeline comp))))%nat
  /\ (length (firstSeen (stepNames (Spec_Pipeline comp)))
      <= length (Spec_Pipeline comp))%nat.
Proof.
  assert (Hlen : forall l seen,
            (length (fold_left seeName l seen) <= length seen + length l)%nat).
  { induction l as [|n l IH]; intros seen; simpl; [lia|].
    specialize (IH (seeName seen n)). unfold seeName in *.
    destruct (existsb _ seen); [lia|]. rewrite length_app in IH. simpl in IH. lia. }
  assert (Hnames : (length (stepNames (Spec_Pipeline comp))
                    <= length (Spec_Pipeline comp))%nat).
  { unfold stepNames. etransitivity; [apply List.filter_length_le|].
    rewrite List.length_map. lia. }
  cbv zeta. split; [|split].
  3: { unfold firstSeen. specialize (Hlen (stepNames (Spec_Pipeline comp)) []).
       simpl in Hlen. lia. }
  all: unfold ExtractFunctionsFromComposition.
  all: destruct (negb (Spec_Mode comp =? CompositionModePipeline)%string);
    [simpl; lia|].
  all: destruct (length (Spec_Pipeline comp) =? 0)%nat; [simpl; lia|].
  all: unfold bind, asks.
  all: destruct (extractLoop_requests {| ctx_timeout := getGitHubAPITimeout h |}
              (comp_ObjectMeta comp) forceRefresh (Spec_Pipeline comp) ∅ [] h s
              tracks_empty) as [H1 H2].
  all: simpl in H2; unfold firstSeen.
  all: destruct (extractLoop _ _ _ (Spec_Pipeline comp) ∅ [] h s) as [[fns|err] s1].
  all: simpl in *.
  all: try (destruct (length fns =? 0)%nat); unfold ret; simpl; lia.
Qed.

End MoreExtractor.

Lemma extraction_of_coordinates_witness :
  let comp := Sample.composition
                ["xpkg.upbound.io/upbound/function-a:v1"; ""; "registry.example/b";
                 "xpkg.upbound.io/upbound/function-a:v1"] in
  let h := Sample.host 0 Sample.rateLimited in
  let s := Sample.state None in
  exists calls,
    ExtractFunctionsFromComposition comp false h s
    = (Ok (List.map (fun n => {| fn_ObjectMeta := SetName (comp_ObjectMeta comp) n;
                                 Spec_Package := n |})
             (firstSeen (stepNames (Spec_Pipeline comp)))),
       set_calls calls s).
Proof.
  intros comp h s.
  apply (extraction_of_coordinates comp false h s).
  - reflexivity.
  - intros H. vm_compute in H. discriminate.
  - repeat constructor.
Defined.

Lemma extraction_descriptors_witness :
  let comp := Sample.composition ["A"; "B"; "A"] in
  let functions :=
    [ Sample.descriptor "A" "xpkg.crossplane.io/crossplane-contrib/function-A:v1.0.0";
      Sample.descriptor "B" "xpkg.crossplane.io/crossplane-contrib/function-B:v1.0.0" ] in
  functions <> []
  /\ (length functions <= length (Spec_Pipeline comp))%nat
  /\ Forall (fun fn =>
               Namespace (fn_ObjectMeta fn) = Namespace (comp_ObjectMeta comp)
               /\ Labels (fn_ObjectMeta fn) = Labels (comp_ObjectMeta comp)
               /\ Annotations (fn_ObjectMeta fn) = Annotations (comp_ObjectMeta comp)
               /\ GetName fn <> ""
               /\ strings.Contains (Spec_Package fn) "/"
                  || strings.Contains (Spec_Package fn) ":" = true) functions.
Proof.
  intros comp functions.
  apply (extraction_descriptors comp false (Sample.host 2000 (Sample.released "v1.0.0"))
           (Sample.state None) functions).
  vm_compute. reflexivity.
Defined.

Lemma extraction_error_witness :
  let comp := Sample.composition ["B"] in
  let h := Sample.host 2000 Sample.rateLimited in
  let inner := wrapError
                 "cannot fetch latest version for crossplane-contrib/function-B: GitHub API rate limit exceeded: API rate limit exceeded for 203.0.113.7 (no cached version available)"
                 (RateLimitError
                    "GitHub API rate limit exceeded: API rate limit exceeded for 203.0.113.7") in
  let e := wrapError ("cannot determine package for function " +:+ strconv_Quote "B"
                      +:+ ": " +:+ Error inner) inner in
  (exists msg, e = errorString msg /\ errors_As_RateLimitError e = None)
  \/ (exists name ctx s0 e0,
        In name (stepNames (Spec_Pipeline comp))
        /\ fst (inferPackageFromFunctionName ctx name false h s0) = Err e0
        /\ e = wrapError ("cannot determine package for function " +:+ strconv_Quote name
                          +:+ ": " +:+ Error e0) e0
        /\ errors_As_RateLimitError e = errors_As_RateLimitError e0).
Proof.
  intros comp h inner e.
  apply (extraction_error comp false h (Sample.state None) e).
  vm_compute. reflexivity.
Defined.

(** ** The allow-list of the secondary registry *)

Lemma list_ascii_app (a b : string) :
  list_ascii_of_string (a +:+ b) = (list_ascii_of_string a ++ list_ascii_of_string b)%list.
Proof.
  induction a as [|c a IH]; [reflexivity|].
  change (c :: list_ascii_of_string (a +:+ b)
          = c :: (list_ascii_of_string a ++ list_ascii_of_string b)%list).
  f_equal. exact IH.
Qed.

Lemma string_of_list_app (l1 l2 : list ascii) :
  string_of_list_ascii (l1 ++ l2)
  = string_of_list_ascii l1 +:+ string_of_list_ascii l2.
Proof.
  induction l1 as [|c l1 IH]; [reflexivity|].
  change (String c (string_of_list_ascii (l1 ++ l2))
          = String c (string_of_list_ascii l1 +:+ string_of_list_ascii l2)).
  f_equal. exact IH.
Qed.

Lemma rev_app (a b : string) : strings.rev (a +:+ b) = strings.rev b +:+ strings.rev a.
Proof.
  unfold strings.rev. rewrite list_ascii_app, List.rev_app_distr.
  apply string_of_list_app.
Qed.

Lemma rev_involutive (a : string) : strings.rev (strings.rev a) = a.
Proof.
  unfold strings.rev. rewrite list_ascii_of_string_of_list_ascii, List.rev_involutive.
  apply string_of_list_ascii_of_string.
Qed.

Lemma rev_length (a : string) : String.length (strings.rev a) = String.length a.
Proof.
  assert (Hlen : forall l, String.length (string_of_list_ascii l) = length l).
  { induction l as [|c l IH]; simpl; [reflexivity | f_equal; exact IH]. }
  assert (Hlen' : forall s, length (list_ascii_of_string s) = String.length s).
  { induction s as [|c s IH]; simpl; [reflexivity | f_equal; exact IH]. }
  unfold strings.rev. rewrite Hlen, List.length_rev, Hlen'. reflexivity.
Qed.

Lemma length_append (a b : string) :
  String.length (a +:+ b) = (String.length a + String.length b)%nat.
Proof.
  induction a as [|c a IH]; [reflexivity|].
  change (S (String.length (a +:+ b)) = S (String.length a + String.length b)).
  f_equal. exact IH.
Qed.

Lemma blank_rev (pad : string) : blank pad = true -> blank (strings.rev pad) = true.
Proof.
  unfold blank, strings.rev. rewrite list_ascii_of_string_of_list_ascii.
  rewrite !forallb_forall. intros H c Hc. apply H. apply in_rev. exact Hc.
Qed.

Lemma visibleName_rev (name : string) :
  visibleName name = true -> visibleName (strings.rev name) = true.
Proof.
  unfold visibleName. rewrite !andb_true_iff. intros [Hne Hall]. split.
  - apply negb_true_iff, String.eqb_neq. intros Hrev.
    apply negb_true_iff, String.eqb_neq in Hne. apply Hne.
    rewrite <- (rev_involutive name), Hrev. reflexivity.
  - unfold strings.rev. rewrite list_ascii_of_string_of_list_ascii.
    rewrite forallb_forall in *. intros c Hc. apply Hall. apply in_rev. exact Hc.
Qed.

(** No white-space rune starts with a visible byte. *)
Lemma spaceWidth_visible (c : ascii) (r : string) :
  visible c = true ->
  strings.spaceWidth strings.unicodeSpace (String c r) = 0%nat
  /\ strings.spaceWidth (List.map strings.rev strings.unicodeSpace) (String c r) = 0%nat.
Proof.
  destruct c as [b0 b1 b2 b3 b4 b5 b6 b7].
  destruct b7; [destruct b0, b1, b2, b3, b4, b5, b6; discriminate|].
  destruct b0, b1, b2, b3, b4, b5, b6; intros Hv;
    try discriminate Hv; split; vm_compute; reflexivity.
Qed.

Lemma trimLeft_stop (table : list string) (fuel : nat) (s : string) :
  strings.spaceWidth table s = 0%nat -> strings.trimLeft table fuel s = s.
Proof. intros H. destruct fuel; simpl; [reflexivity | rewrite H; reflexivity]. Qed.

Lemma trimLeft_blank (table : list string) (pad : string) :
  forall fuel rest,
    blank pad = true -> (String.length pad <= fuel)%nat ->
    strings.trimLeft table fuel (pad +:+ rest)
    = strings.trimLeft table (fuel - String.length pad) rest.
Proof.
  induction pad as [|c pad IH]; intros fuel rest Hb Hfuel.
  - simpl. rewrite Nat.sub_0_r. reflexivity.
  - unfold blank in Hb. simpl in Hb. apply andb_true_iff in Hb. destruct Hb as [Hc Hb].
    destruct fuel as [|fuel]; [simpl in Hfuel; lia|].
    change (String c pad +:+ rest) with (String c (pad +:+ rest)).
    simpl. rewrite Hc. simpl. apply IH; [exact Hb | simpl in Hfuel; lia].
Qed.

(** Leading white space goes, and nothing after it, when what follows
    starts with a visible byte. *)
Lemma trimLeft_padded (table : list string) (pad body : string) (fuel : nat) :
  table = strings.unicodeSpace \/ table = List.map strings.rev strings.unicodeSpace ->
  blank pad = true -> visibleName body = true -> (String.length pad <= fuel)%nat ->
  strings.trimLeft table fuel (pad +:+ body) = body.
Proof.
  intros Htable Hb Hv Hfuel. rewrite trimLeft_blank by assumption.
  apply trimLeft_stop.
  unfold visibleName in Hv. apply andb_true_iff in Hv. destruct Hv as [Hne Hall].
  destruct body as [|c r]; [discriminate|].
  simpl in Hall. apply andb_true_iff in Hall. destruct Hall as [Hc _].
  destruct (spaceWidth_visible c r Hc) as [H1 H2].
  destruct Htable as [->| ->]; assumption.
Qed.

(** [TrimSpace] removes the padding around a visible name. *)
Lemma TrimSpace_padded (pad1 name pad2 : string) :
  blank pad1 = true -> blank pad2 = true -> visibleName name = true ->
  strings.TrimSpace (pad1 +:+ name +:+ pad2) = name.
Proof.
  intros Hb1 Hb2 Hv.
  assert (Hleft : strings.TrimLeftSpace (pad1 +:+ name +:+ pad2) = name +:+ pad2).
  { unfold strings.TrimLeftSpace.
    rewrite trimLeft_blank by (try assumption; rewrite length_append; lia).
    apply trimLeft_stop.
    unfold visibleName in Hv. apply andb_true_iff in Hv. destruct Hv as [Hne Hall].
    destruct name as [|c r]; [discriminate|].
    simpl in Hall. apply andb_true_iff in Hall. destruct Hall as [Hc _].
    apply (spaceWidth_visible c (r +:+ pad2) Hc). }
  unfold strings.TrimSpace. rewrite Hleft.
  unfold strings.TrimRightSpace. rewrite rev_app.
  rewrite (trimLeft_padded _ (strings.rev pad2) (strings.rev name)).
  - apply rev_involutive.
  - right. reflexivity.
  - apply blank_rev. exact Hb2.
  - apply visibleName_rev. exact Hv.
  - rewrite rev_length, length_append. lia.
Qed.

Lemma Split_no_comma (field : string) :
  noComma field = true -> strings.Split field "," = [field].
Proof.
  induction field as [|c field IH]; intros Hn; [reflexivity|].
  unfold noComma in Hn. simpl in Hn. apply andb_true_iff in Hn. destruct Hn as [Hc Hn].
  apply negb_true_iff in Hc. simpl. rewrite Hc, (IH Hn). reflexivity.
Qed.

Lemma Split_field (field rest : string) :
  noComma field = true ->
  strings.Split (field +:+ String "," rest) "," = field :: strings.Split rest ",".
Proof.
  induction field as [|c field IH]; intros Hn; [reflexivity|].
  unfold noComma in Hn. simpl in Hn. apply andb_true_iff in Hn. destruct Hn as [Hc Hn].
  apply negb_true_iff in Hc.
  change (String c field +:+ String "," rest) with (String c (field +:+ String "," rest)).
  simpl. rewrite Hc, (IH Hn). reflexivity.
Qed.

(** Splitting at the commas undoes joining with commas. *)
Lemma Split_concat (fields : list string) :
  fields <> [] -> forallb noComma fields = true ->
  strings.Split (String.concat "," fields) "," = fields.
Proof.
  induction fields as [|field fields IH]; intros Hne Hall; [congruence|].
  simpl in Hall. apply andb_true_iff in Hall. destruct Hall as [Hf Hall].
  destruct fields as [|field' fields].
  - simpl. apply Split_no_comma. exact Hf.
  - change (String.concat "," (field :: field' :: fields))
      with (field +:+ String "," (String.concat "," (field' :: fields))).
    rewrite (Split_field _ _ Hf). f_equal. apply IH; [discriminate | exact Hall].
Qed.

Section AllowList.

Context {lib : GoLib}.

(** X19.  The allow-list is read as a comma-separated list that puts up
    with white space.  When [CROSSBENCH_UPBOUND_FUNCTIONS] is a non-empty
    value made of fields joined by commas, the allow-list is exactly
    these fields, and a name of visible characters that stands in one of
    them, with any ASCII white space before and after it, gets the
    secondary registry. *)
Theorem allow_list_with_spaces (h : Host) (fields : list string) :
  fields <> [] ->
  forallb noComma fields = true ->
  String.concat "," fields <> "" ->
  h_env h !! "CROSSBENCH_UPBOUND_FUNCTIONS" = Some (String.concat "," fields) ->
  getUpboundFunctionNames h = fields
  /\ forall pad1 name pad2,
       In (pad1 +:+ name +:+ pad2) fields ->
       blank pad1 = true -> blank pad2 = true -> visibleName name = true ->
       getPackageRegistry h name = getUpboundPackageRegistry h.
Proof.
  intros Hne Hall Hval Henv.
  assert (Hlist : getUpboundFunctionNames h = fields).
  { unfold getUpboundFunctionNames, os_Getenv. rewrite Henv. simpl.
    apply String.eqb_neq in Hval. rewrite Hval. simpl.
    apply Split_concat; assumption. }
  split; [exact Hlist|].
  intros pad1 name pad2 Hin Hb1 Hb2 Hv.
  unfold getPackageRegistry. rewrite Hlist. apply registryLoop_match.
  exists (pad1 +:+ name +:+ pad2). split; [exact Hin|].
  apply TrimSpace_padded; assumption.
Qed.

End AllowList.

Lemma allow_list_with_spaces_witness :
  let fields := ["function-a"; "  function-b "; "function-c"] in
  let h := {| h_env := {[ "CROSSBENCH_UPBOUND_FUNCTIONS" := String.concat "," fields ]};
              h_home := None; h_gh_token := None; h_clock := fun _ => 0;
              h_remote := fun _ _ => Sample.rateLimited;
              h_mkdir_ok := fun _ => true; h_write_ok := fun _ => true |} in
  getUpboundFunctionNames h = fields
  /\ forall pad1 name pad2,
       In (pad1 +:+ name +:+ pad2) fields ->
       blank pad1 = true -> blank pad2 = true -> visibleName name = true ->
       getPackageRegistry h name = getUpboundPackageRegistry h.
Proof.
  intros fields h.
  apply (allow_list_with_spaces h fields).
  - discriminate.
  - reflexivity.
  - discriminate.
  - reflexivity.
Defined.

(** ** The token *)

Section Token.

Context {lib : GoLib}.

(** X20.  Where the token comes from.  [CROSSBENCH_GITHUB_TOKEN], when set
    and not empty, is the token, as it is; else [GITHUB_TOKEN], when set
    and not empty, as it is; else what [gh auth token] prints, with the
    white space around it removed, so that a token of visible characters
    followed by a newline is returned without the newline; and the empty
    string, for no token, when [gh] fails too. *)
Theorem github_token_sources (h : Host) :
  (forall t, h_env h !! "CROSSBENCH_GITHUB_TOKEN" = Some t -> t <> "" ->
     getGitHubToken h = t)
  /\ (os_Getenv h "CROSSBENCH_GITHUB_TOKEN" = "" ->
      forall t, h_env h !! "GITHUB_TOKEN" = Some t -> t <> "" -> getGitHubToken h = t)
  /\ (os_Getenv h "CROSSBENCH_GITHUB_TOKEN" = "" -> os_Getenv h "GITHUB_TOKEN" = "" ->
      (forall pad1 token pad2,
          h_gh_token h = Some (pad1 +:+ token +:+ pad2) ->
          blank pad1 = true -> blank pad2 = true -> visibleName token = true ->
          getGitHubToken h = token)
      /\ (h_gh_token h = None -> getGitHubToken h = "")).
Proof.
  unfold getGitHubToken.
  assert (Hset : forall k t, h_env h !! k = Some t -> t <> "" ->
            os_Getenv h k = t /\ negb (t =? "")%string = true).
  { intros k t Hk Ht. unfold os_Getenv. rewrite Hk. split; [reflexivity|].
    apply negb_true_iff, String.eqb_neq. exact Ht. }
  split; [|split].
  - intros t Hk Ht. destruct (Hset _ _ Hk Ht) as [-> ->]. reflexivity.
  - intros -> t Hk Ht. simpl. destruct (Hset _ _ Hk Ht) as [-> ->]. reflexivity.
  - intros -> ->. simpl. split.
    + intros pad1 token pad2 -> Hb1 Hb2 Hv.
      rewrite (TrimSpace_padded _ _ _ Hb1 Hb2 Hv).
      assert (Hne : token <> "").
      { unfold visibleName in Hv. apply andb_true_iff in Hv. destruct Hv as [Hne _].
        apply negb_true_iff, String.eqb_neq in Hne. exact Hne. }
      assert (Hlen : (0 <? String.length (pad1 +:+ token +:+ pad2))%nat = true).
      { apply Nat.ltb_lt. rewrite !length_append. destruct token; [congruence|].
        simpl. lia. }
      rewrite Hlen. apply String.eqb_neq in Hne. rewrite Hne. reflexivity.
    + intros ->. reflexivity.
Qed.

End Token.

(** The token that [gh] prints ends with a newline, which is removed;
    a token of the environment comes first. *)
Example github_token_from_gh :
  let newline := String (ascii_of_nat 10) EmptyString in
  let h := Sample.host 0 Sample.rateLimited in
  let withGh :=
    {| h_env := h_env h; h_home := h_home h; h_gh_token := Some ("gho_sample" +:+ newline);
       h_clock := h_clock h; h_remote := h_remote h;
       h_mkdir_ok := h_mkdir_ok h; h_write_ok := h_write_ok h |} in
  let withEnv :=
    {| h_env := {[ "GITHUB_TOKEN" := "ghp_sample" ]}; h_home := h_home h;
       h_gh_token := Some ("gho_sample" +:+ newline);
       h_clock := h_clock h; h_remote := h_remote h;
       h_mkdir_ok := h_mkdir_ok h; h_write_ok := h_write_ok h |} in
  getGitHubToken withGh = "gho_sample"
  /\ getGitHubToken withEnv = "ghp_sample"
  /\ getGitHubToken h = "".
Proof. repeat split; vm_compute; reflexivity. Qed.

(** ** The loops of [run] *)

Section Render.

Context {lib : GoLib}.

(** X21.  The check of the composition selector.  [run] gets past the loop
    exactly when every label of [matchLabels] is a label of the
    composition with the same value, in whatever order the labels are
    visited; the error it returns otherwise names a label of
    [matchLabels] that the composition lacks or has with another
    value. *)
Theorem selector_labels_checked (comp : Composition) (matchLabels : list (string * string)) :
  (checkMatchLabels comp matchLabels = None
   <-> forall key value, In (key, value) matchLabels -> compLabels comp !! key = Some value)
  /\ (forall err, checkMatchLabels comp matchLabels = Some err ->
        exists key value,
          In (key, value) matchLabels
          /\ compLabels comp !! key <> Some value
          /\ strings.Contains (Error err) (strconv_Quote key) = true).
Proof.
  induction matchLabels as [|[key value] rest [IH1 IH2]].
  - split.
    + split; [intros _ k v []|reflexivity].
    + intros err H. discriminate.
  - simpl. destruct (compLabels comp !! key) as [compValue|] eqn:Hk.
    + destruct (String.eqb_spec compValue value) as [->|Hne]; simpl.
      * split.
        -- rewrite IH1. split.
           ++ intros H k v [E|Hin]; [inversion E; subst; exact Hk|exact (H k v Hin)].
           ++ intros H k v Hin. apply H. right. exact Hin.
        -- intros err H. destruct (IH2 err H) as (k & v & Hin & Hl & Hc).
           exists k, v. split; [right; exact Hin|]. split; assumption.
      * split.
        -- split; [discriminate|].
           intros H. specialize (H key value (or_introl eq_refl)).
           rewrite Hk in H. inversion H. contradiction.
        -- intros err H. inversion H; subst err. exists key, value.
           split; [left; reflexivity|]. split.
           ++ rewrite Hk. intros E. inversion E. contradiction.
           ++ cbn [Error]. apply Contains_iff.
              exists ("composition " +:+ strconv_Quote (Name (comp_ObjectMeta comp))
                      +:+ " has incorrect value for label "),
                (": want " +:+ strconv_Quote value +:+ ", got " +:+ strconv_Quote compValue).
              rewrite !append_assoc. reflexivity.
    + split.
      * split; [discriminate|].
        intros H. specialize (H key value (or_introl eq_refl)).
        rewrite Hk in H. discriminate.
      * intros err H. inversion H; subst err. exists key, value.
        split; [left; reflexivity|]. split; [rewrite Hk; discriminate|].
        cbn [Error]. apply Contains_iff.
        exists ("composition " +:+ strconv_Quote (Name (comp_ObjectMeta comp))
                +:+ " is missing required label "), "".
        rewrite append_nil_r, !append_assoc. reflexivity.
Qed.

Lemma readContextFiles_ok (contextFiles : list (string * string)) :
  forall acc h s fctx s',
    readContextFiles contextFiles acc h s = (Ok fctx, s') ->
    s' = s
    /\ (forall k, ~ In k (map fst contextFiles) -> fctx !! k = acc !! k)
    /\ (List.NoDup (map fst contextFiles) ->
        forall k filename, In (k, filename) contextFiles ->
          exists data, s_files s !! filename = Some (File data) /\ fctx !! k = Some data).
Proof.
  induction contextFiles as [|[k0 f0] rest IH]; intros acc h s fctx s' H.
  - inversion H; subst. split; [reflexivity|]. split; [reflexivity|].
    intros _ k f [].
  - simpl in H. unfold bind, afero_ReadFile in H.
    destruct (s_files s !! f0) as [[data|msg]|] eqn:Hf; simpl in H;
      try (unfold ret in H; discriminate).
    destruct (IH _ _ _ _ _ H) as (-> & Hout & Hin).
    split; [reflexivity|]. split.
    + intros k Hk. simpl in Hk. rewrite Hout by tauto.
      apply lookup_insert_ne. intros ->. tauto.
    + intros Hnd k f [E|Hi].
      * inversion E; subst k f. exists data. split; [exact Hf|].
        inversion Hnd; subst. rewrite Hout by assumption.
        apply lookup_insert_eq.
      * inversion Hnd; subst. exact (Hin H3 k f Hi).
Qed.

Lemma readContextFiles_err (contextFiles : list (string * string)) :
  forall acc h s err s',
    readContextFiles contextFiles acc h s = (Err err, s') ->
    s' = s
    /\ exists k filename,
         In (k, filename) contextFiles
         /\ (forall data, s_files s !! filename <> Some (File data))
         /\ strings.HasPrefix (Error err)
              ("cannot read context value for key " +:+ strconv_Quote k) = true.
Proof.
  induction contextFiles as [|[k0 f0] rest IH]; intros acc h s err s' H.
  - inversion H.
  - simpl in H. unfold bind, afero_ReadFile in H.
    destruct (s_files s !! f0) as [[data|msg]|] eqn:Hf; simpl in H.
    + destruct (IH _ _ _ _ _ H) as (-> & k & f & Hin & Hno & Hp).
      split; [reflexivity|]. exists k, f. split; [right; exact Hin|]. split; assumption.
    + unfold ret in H. inversion H; subst. split; [reflexivity|].
      exists k0, f0. split; [left; reflexivity|]. split.
      * intros data. rewrite Hf. discriminate.
      * cbn [Error]. rewrite <- append_assoc. apply HasPrefix_app.
    + unfold ret in H. inversion H; subst. split; [reflexivity|].
      exists k0, f0. split; [left; reflexivity|]. split.
      * intros data. rewrite Hf. discriminate.
      * cbn [Error]. rewrite <- append_assoc. apply HasPrefix_app.
Qed.

Lemma readContextFiles_readable (contextFiles : list (string * string)) :
  forall acc h s,
    (forall k filename, In (k, filename) contextFiles ->
       exists data, s_files s !! filename = Some (File data)) ->
    exists fctx, readContextFiles contextFiles acc h s = (Ok fctx, s).
Proof.
  intros acc h s Hall.
  destruct (readContextFiles contextFiles acc h s) as [[fctx|err] s'] eqn:E.
  - destruct (readContextFiles_ok _ _ _ _ _ _ E) as (-> & _). exists fctx. reflexivity.
  - destruct (readContextFiles_err _ _ _ _ _ _ E) as (_ & k & f & Hin & Hno & _).
    destruct (Hall k f Hin) as [data Hd]. destruct (Hno data Hd).
Qed.

Lemma addContextValues_lookup (contextValues : list (string * string)) :
  forall acc,
    (forall k, ~ In k (map fst contextValues) ->
       addContextValues contextValues acc !! k = acc !! k)
    /\ (List.NoDup (map fst contextValues) ->
        forall k v, In (k, v) contextValues ->
          addContextValues contextValues acc !! k = Some v).
Proof.
  induction contextValues as [|[k0 v0] rest IH]; intros acc.
  - split; [reflexivity|]. intros _ k v [].
  - simpl. destruct (IH (<[ k0 := v0 ]> acc)) as [Hout Hin]. split.
    + intros k Hk. rewrite Hout by tauto. apply lookup_insert_ne. intros ->. tauto.
    + intros Hnd k v [E|Hi].
      * inversion E; subst k v. inversion Hnd; subst.
        rewrite Hout by assumption. apply lookup_insert_eq.
      * inversion Hnd; subst. exact (Hin H2 k v Hi).
Qed.

(** X22.  The context of a render.  When every context file can be read,
    [run] builds the context without touching the state, and in it a key
    of [contextValues] has the value given for it, also when
    [contextFiles] has the key too; a key of [contextFiles] alone has the
    content of its file; and there is no other key.  The keys of each map
    are distinct, as the keys of a map are; the order of the visits does
    not matter. *)
Theorem context_values_override (contextFiles contextValues : list (string * string))
  (h : Host) (s : State) :
  List.NoDup (map fst contextFiles) ->
  List.NoDup (map fst contextValues) ->
  (forall k filename, In (k, filename) contextFiles ->
     exists data, s_files s !! filename = Some (File data)) ->
  exists fctx,
    buildContext contextFiles contextValues h s = (Ok fctx, s)
    /\ (forall k v, In (k, v) contextValues -> fctx !! k = Some v)
    /\ (forall k filename, In (k, filename) contextFiles ->
          ~ In k (map fst contextValues) ->
          exists data, s_files s !! filename = Some (File data) /\ fctx !! k = Some data)
    /\ (forall k, ~ In k (map fst contextFiles) -> ~ In k (map fst contextValues) ->
          fctx !! k = None).
Proof.
  intros Hf Hv Hall.
  destruct (readContextFiles_readable contextFiles ∅ h s Hall) as [f0 E].
  destruct (readContextFiles_ok _ _ _ _ _ _ E) as (_ & Hout & Hin).
  destruct (addContextValues_lookup contextValues f0) as [Vout Vin].
  exists (addContextValues contextValues f0).
  split; [unfold buildContext, bind; rewrite E; reflexivity|].
  split; [exact (Vin Hv)|]. split.
  - intros k f Hi Hk. rewrite (Vout k Hk). exact (Hin Hf k f Hi).
  - intros k Hk1 Hk2. rewrite (Vout k Hk2), (Hout k Hk1). apply lookup_empty.
Qed.

(** X23.  A context file that cannot be read.  When [run] fails while it
    builds the context, the state is as it was, the error says
    [cannot read context value for key] with the key, and the file of
    that key is one that cannot be read: nothing of [contextValues] can
    make up for it. *)
Theorem context_file_unreadable (contextFiles contextValues : list (string * string))
  (h : Host) (s : State) :
  (exists k filename, In (k, filename) contextFiles
     /\ forall data, s_files s !! filename <> Some (File data)) ->
  exists err k filename,
    buildContext contextFiles contextValues h s = (Err err, s)
    /\ In (k, filename) contextFiles
    /\ (forall data, s_files s !! filename <> Some (File data))
    /\ strings.HasPrefix (Error err)
         ("cannot read context value for key " +:+ strconv_Quote k) = true.
Proof.
  intros (k & f & Hin & Hno).
  destruct (readContextFiles contextFiles ∅ h s) as [[fctx|err] s'] eqn:E.
  - destruct (readContextFiles_ok _ _ _ _ _ _ E) as (_ & _ & _).
    exfalso.
    assert (G : forall files acc fctx s',
               readContextFiles files acc h s = (Ok fctx, s') ->
               forall k f, In (k, f) files -> exists data, s_files s !! f = Some (File data)).
    { clear. induction files as [|[k0 f0] rest IH]; intros acc fctx s' H k f Hi; [destruct Hi|].
      simpl in H. unfold bind, afero_ReadFile in H.
      destruct (s_files s !! f0) as [[data|msg]|] eqn:Hf; simpl in H;
        try (unfold ret in H; discriminate).
      destruct Hi as [E|Hi].
      - inversion E; subst. exists data. exact Hf.
      - exact (IH _ _ _ H k f Hi). }
    destruct (G _ _ _ _ E k f Hin) as [data Hd]. exact (Hno data Hd).
  - destruct (readContextFiles_err _ _ _ _ _ _ E) as (-> & k' & f' & Hin' & Hno' & Hp).
    exists err, k', f'. split; [unfold buildContext, bind; rewrite E; reflexivity|].
    split; [exact Hin'|]. split; assumption.
Qed.

End Render.

Lemma context_values_override_witness :
  exists fctx,
    buildContext [("region", "region.txt"); ("env", "env.txt")] [("env", "prod")]
      (Sample.host 0 Sample.rateLimited)
      (set_files {[ "region.txt" := File "eu"; "env.txt" := File "dev" ]} (Sample.state None))
    = (Ok fctx,
       set_files {[ "region.txt" := File "eu"; "env.txt" := File "dev" ]} (Sample.state None))
    /\ fctx !! "env" = Some "prod"
    /\ fctx !! "region" = Some "eu".
Proof.
  destruct (context_values_override
              [("region", "region.txt"); ("env", "env.txt")] [("env", "prod")]
              (Sample.host 0 Sample.rateLimited)
              (set_files {[ "region.txt" := File "eu"; "env.txt" := File "dev" ]}
                 (Sample.state None)))
    as (fctx & Hrun & Hv & Hf & _).
  - repeat constructor; simpl; intuition discriminate.
  - repeat constructor; simpl; intuition discriminate.
  - intros k f [E|[E|[]]]; inversion E; subst; eexists; vm_compute; reflexivity.
  - exists fctx. split; [exact Hrun|]. split.
    + apply Hv. left. reflexivity.
    + destruct (Hf "region" "region.txt") as (data & Hd & Hl).
      * left. reflexivity.
      * simpl. intuition discriminate.
      * rewrite Hl. vm_compute in Hd. inversion Hd. reflexivity.
Defined.

Lemma context_file_unreadable_witness :
  exists err,
    fst (buildContext [("env", "env.txt")] [("env", "prod")]
           (Sample.host 0 Sample.rateLimited) (Sample.state None)) = Err err.
Proof.
  destruct (context_file_unreadable [("env", "env.txt")] [("env", "prod")]
              (Sample.host 0 Sample.rateLimited) (Sample.state None))
    as (err & k & f & Hrun & _).
  - exists "env", "env.txt". split; [left; reflexivity|].
    intros data. vm_compute. discriminate.
  - exists err. rewrite Hrun. reflexivity.
Defined.
